(** * WiseTech LMS REST API: authentication core

    A shallow embedding of the Go sources of the authentication core
    (password policy, credential store, token engine) and of the
    configuration that the server starts from, and the properties of the
    design document and of the code that can be stated over it.

    Conventions.
    - A Go [string] is a Rocq [string]: a sequence of bytes ([ascii]);
      [len(s)] is [String.length s].
    - A Go [error] result is an [option]: [None] is [nil].
    - A [time.Time] is its Unix time in nanoseconds, a [Z].
    - [int] and [int64] are [Z]; the identifiers of this program are row
      identifiers handed out by the store and stay far from the 64-bit
      bounds, so no wrap-around is written out. *)

From Stdlib Require Import ZArith List String Ascii Bool Lia.
From Stdlib Require Import PrimFloat.
Import ListNotations.
Open Scope Z_scope.
Open Scope string_scope.

(** ** Package utils: password policy

    The source of the package follows the database tests in
    src/internal/database/database_test.go; its tests are
    src/internal/utils/password_test.go. *)

Module utils.

(** [regexp.MustCompile(`[A-Z]`).MatchString(s)]: some character of [s]
    lies in the class.  Both classes are ASCII ranges, and every byte of
    a multi-byte UTF-8 sequence is above 127, so scanning bytes decides
    the match. *)
Definition in_range (lo hi : ascii) (c : ascii) : bool :=
  (nat_of_ascii lo <=? nat_of_ascii c)%nat && (nat_of_ascii c <=? nat_of_ascii hi)%nat.

Definition MatchString (lo hi : ascii) (s : string) : bool :=
  existsb (in_range lo hi) (list_ascii_of_string s).

(** The errors of this package are made by [errors.New] and told apart by
    their text. *)
Definition error := string.

Definition msg_too_short : error := "password must be at least 8 characters long".
Definition msg_no_upper : error := "password must contain at least one uppercase letter".
Definition msg_no_number : error := "password must contain at least one number".

Definition ValidatePassword (password : string) : option error :=
  if (String.length password <? 8)%nat then Some msg_too_short
  else if negb (MatchString "A" "Z" password) then Some msg_no_upper
  else if negb (MatchString "0" "9" password) then Some msg_no_number
  else None.

End utils.

(** ** The relational store: database/sql over go-sqlite3, with the schema
       of internal/database/database.go *)

Module database.

Definition Time := Z.

Definition Second : Z := 1000000000.

(** [CURRENT_TIMESTAMP] is the store's clock as 'YYYY-MM-DD HH:MM:SS':
    whole seconds. *)
Definition CURRENT_TIMESTAMP (sqlclock : Time) : Time := sqlclock / Second * Second.

(** A row of [Lenders].  Columns declared NOT NULL hold a value, the
    others may hold NULL ([None]). *)
Record LenderRow := mkLenderRow {
  Lender_ID : Z;
  Business_Name : string;
  Phone_Number : string;
  Email : string;
  Interest_Rate_Percent : float;
  L_Created_At : option Time;
  L_Updated_At : option Time;
  Is_Active : option Z
}.

(** A row of [Accounts]. *)
Record AccountRow := mkAccountRow {
  Account_ID : Z;
  A_Lender_ID : Z;
  Username : string;
  Password_Hash : string;
  A_Created_At : option Time;
  A_Updated_At : option Time;
  Last_Login : option Time;
  Is_Locked : option Z
}.

(** The persistent state: the two tables in rowid order, their
    [sqlite_sequence] counters (AUTOINCREMENT), and whether the
    connection enforces foreign keys (off unless the DSN turns it on). *)
Record DB := mkDB {
  Lenders : list LenderRow;
  Accounts : list AccountRow;
  seq_Lenders : Z;
  seq_Accounts : Z;
  foreign_keys : bool
}.

(** A connection: what every reader sees ([disk]) and the working copy
    of the transaction that is open on it, if any. *)
Record Conn := mkConn {
  disk : DB;
  txn : option DB
}.

Inductive Constraint :=
| NOTNULL_Lenders_Interest_Rate_Percent
| CHECK_Lenders_Interest_Rate_Percent
| UNIQUE_Lenders_Email
| FOREIGNKEY_Accounts_Lender_ID
| UNIQUE_Accounts_Username.

(** The errors that cross the repository's interface. *)
Inductive error :=
| ErrAccountNotFound            (* repository.ErrAccountNotFound *)
| ErrLenderNotFound             (* repository.ErrLenderNotFound *)
| sql_ErrNoRows                 (* sql.ErrNoRows *)
| sql_ErrTxDone                 (* sql.ErrTxDone *)
| sqlite_ErrConstraint (k : Constraint)
| driver_Error (code : Z)       (* any other failure of the store: I/O, busy, closed *)
| convert_Error (column : string). (* Scan cannot store the column in its destination *)

(** [errors.Is(err, sql.ErrNoRows)] *)
Definition is_ErrNoRows (err : error) : bool :=
  match err with sql_ErrNoRows => true | _ => false end.

(** The places where the repository calls the store.  A store call may
    fail for reasons outside the program (driver, file system, lock): the
    environment says at which call sites it does, and with which code. *)
Inductive Site :=
| AtBegin | AtPrepareLender | AtExecLender | AtLastInsertIdLender
| AtPrepareAccount | AtExecAccount | AtLastInsertIdAccount | AtCommit
| AtQueryAccount | AtQueryLender
| AtPrepareUpdate | AtExecUpdate.

Definition Faults := Site -> option Z.

Definition no_faults : Faults := fun _ => None.

(** The rowid an AUTOINCREMENT table gives to a new row: one more than
    the largest rowid in the table (1 when it is empty), and more than
    every rowid the table ever held ([seq]). *)
Definition max_rowid (ids : list Z) : option Z :=
  match ids with
  | [] => None
  | x :: xs => Some (fold_left Z.max xs x)
  end.

Definition NewRowid (seq : Z) (ids : list Z) : Z :=
  Z.max (match max_rowid ids with None => 1 | Some m => m + 1 end) (seq + 1).

(** CHECK (Interest_Rate_Percent >= 0 AND Interest_Rate_Percent <= 100) *)
Definition check_Interest_Rate_Percent (r : float) : bool :=
  PrimFloat.leb 0 r && PrimFloat.leb r 100.

(** A float written to a column declared REAL.  The store keeps a float
    that is a whole number as that integer, and gives it back as a float
    when the column is read: every float comes back as it was written but
    the negative zero, which comes back as the positive zero. *)
Definition REAL_affinity (r : float) : float :=
  if PrimFloat.eqb r 0 then 0%float else r.

(** INSERT INTO Lenders (Business_Name, Phone_Number, Email,
    Interest_Rate_Percent, Created_At, Updated_At) VALUES (?, ?, ?, ?, ?, ?).
    A NaN is bound as NULL.  The new rowid is returned. *)
Definition insert_Lender (businessName phone email : string) (interestRate : float)
    (createdAt updatedAt : Time) (d : DB) : error + (Z * DB) :=
  if PrimFloat.is_nan interestRate then
    inl (sqlite_ErrConstraint NOTNULL_Lenders_Interest_Rate_Percent)
  else if negb (check_Interest_Rate_Percent interestRate) then
    inl (sqlite_ErrConstraint CHECK_Lenders_Interest_Rate_Percent)
  else if existsb (fun r => String.eqb (Email r) email) (Lenders d) then
    inl (sqlite_ErrConstraint UNIQUE_Lenders_Email)
  else
    let id := NewRowid (seq_Lenders d) (map Lender_ID (Lenders d)) in
    let row := mkLenderRow id businessName phone email (REAL_affinity interestRate)
                 (Some createdAt) (Some updatedAt) (Some 1) in
    inr (id, mkDB (Lenders d ++ [row]) (Accounts d) id (seq_Accounts d) (foreign_keys d)).

(** INSERT INTO Accounts (Lender_ID, Username, Password_Hash, Created_At,
    Updated_At) VALUES (?, ?, ?, ?, ?) *)
Definition insert_Account (lenderID : Z) (username passwordHash : string)
    (createdAt updatedAt : Time) (d : DB) : error + (Z * DB) :=
  if existsb (fun r => String.eqb (Username r) username) (Accounts d) then
    inl (sqlite_ErrConstraint UNIQUE_Accounts_Username)
  else if foreign_keys d && negb (existsb (fun r => Z.eqb (Lender_ID r) lenderID) (Lenders d)) then
    inl (sqlite_ErrConstraint FOREIGNKEY_Accounts_Lender_ID)
  else
    let id := NewRowid (seq_Accounts d) (map Account_ID (Accounts d)) in
    let row := mkAccountRow id lenderID username passwordHash
                 (Some createdAt) (Some updatedAt) None (Some 0) in
    inr (id, mkDB (Lenders d) (Accounts d ++ [row]) (seq_Lenders d) id (foreign_keys d)).

(** The triggers that keep Updated_At.  Every table that has the column
    has one, of the same text:

      CREATE TRIGGER update_accounts_updated_at AFTER UPDATE ON Accounts
      FOR EACH ROW BEGIN
        UPDATE Accounts SET Updated_At = CURRENT_TIMESTAMP
        WHERE Account_ID = OLD.Account_ID;
      END;

    [key] is the primary key of the table and [stamp] writes Updated_At.
    A trigger does not fire itself again: recursive triggers are off. *)
Section Triggers.

Context {Row : Type} (key : Row -> Z) (stamp : Time -> Row -> Row).

Definition updated_at_trigger (sqlclock : Time) (OLD : Row) (tbl : list Row) : list Row :=
  map (fun r => if Z.eqb (key r) (key OLD)
                then stamp (CURRENT_TIMESTAMP sqlclock) r else r) tbl.

(** UPDATE <table> SET <set> WHERE <where>: the rows that satisfy the
    condition are rewritten, and the trigger runs once for each of them. *)
Definition UPDATE (sqlclock : Time) (where_ : Row -> bool) (set : Row -> Row)
    (tbl : list Row) : list Row :=
  let olds := filter where_ tbl in
  let tbl1 := map (fun r => if where_ r then set r else r) tbl in
  fold_left (fun t OLD => updated_at_trigger sqlclock OLD t) olds tbl1.

End Triggers.

Definition set_Updated_At (t : Time) (r : AccountRow) : AccountRow :=
  mkAccountRow (Account_ID r) (A_Lender_ID r) (Username r) (Password_Hash r)
    (A_Created_At r) (Some t) (Last_Login r) (Is_Locked r).

Definition set_L_Updated_At (t : Time) (r : LenderRow) : LenderRow :=
  mkLenderRow (Lender_ID r) (Business_Name r) (Phone_Number r) (Email r)
    (Interest_Rate_Percent r) (L_Created_At r) (Some t) (Is_Active r).

Definition update_accounts_updated_at : Time -> AccountRow -> list AccountRow -> list AccountRow :=
  updated_at_trigger Account_ID set_Updated_At.

Definition update_lenders_updated_at : Time -> LenderRow -> list LenderRow -> list LenderRow :=
  updated_at_trigger Lender_ID set_L_Updated_At.

Definition UPDATE_Accounts : Time -> (AccountRow -> bool) -> (AccountRow -> AccountRow) ->
    list AccountRow -> list AccountRow :=
  UPDATE Account_ID set_Updated_At.

Definition UPDATE_Lenders : Time -> (LenderRow -> bool) -> (LenderRow -> LenderRow) ->
    list LenderRow -> list LenderRow :=
  UPDATE Lender_ID set_L_Updated_At.

Definition set_Last_Login (t : Time) (r : AccountRow) : AccountRow :=
  mkAccountRow (Account_ID r) (A_Lender_ID r) (Username r) (Password_Hash r)
    (A_Created_At r) (A_Updated_At r) (Some t) (Is_Locked r).

Definition with_Accounts (tbl : list AccountRow) (d : DB) : DB :=
  mkDB (Lenders d) tbl (seq_Lenders d) (seq_Accounts d) (foreign_keys d).

(** *** database/sql *)

(** [db.Begin()].  The model is sequential, one repository call at a time
    on one connection; a transaction cannot start inside another
    (SQLITE_ERROR, code 1). *)
Definition Begin (f : Faults) (c : Conn) : option error * Conn :=
  match f AtBegin with
  | Some code => (Some (driver_Error code), c)
  | None =>
    match txn c with
    | Some _ => (Some (driver_Error 1), c)
    | None => (None, mkConn (disk c) (Some (disk c)))
    end
  end.

(** [tx.Prepare(query)] and [db.Prepare(query)]: the statements of this
    program are constants that fit the schema, so preparing one fails
    only when the store does. *)
Definition Prepare (f : Faults) (s : Site) : option error :=
  match f s with
  | Some code => Some (driver_Error code)
  | None => None
  end.

(** [stmt.Exec(args...)] of a statement prepared on the transaction.  A
    statement that fails leaves the transaction open and as it was. *)
Definition tx_Exec (f : Faults) (s : Site) (stmt : DB -> error + (Z * DB))
    (c : Conn) : (error + Z) * Conn :=
  match f s with
  | Some code => (inl (driver_Error code), c)
  | None =>
    match txn c with
    | None => (inl sql_ErrTxDone, c)
    | Some w =>
      match stmt w with
      | inl err => (inl err, c)
      | inr (id, w') => (inr id, mkConn (disk c) (Some w'))
      end
    end
  end.

(** [res.LastInsertId()] *)
Definition LastInsertId (f : Faults) (s : Site) (res : Z) : error + Z :=
  match f s with
  | Some code => inl (driver_Error code)
  | None => inr res
  end.

(** [tx.Commit()].  When COMMIT fails the driver rolls the transaction
    back itself; either way the transaction is over. *)
Definition Commit (f : Faults) (c : Conn) : option error * Conn :=
  match txn c with
  | None => (Some sql_ErrTxDone, c)
  | Some w =>
    match f AtCommit with
    | Some code => (Some (driver_Error code), mkConn (disk c) None)
    | None => (None, mkConn w None)
    end
  end.

(** [tx.Rollback()]: drops the working copy; on a transaction that is
    over it changes nothing and returns [sql.ErrTxDone]. *)
Definition Rollback (c : Conn) : option error * Conn :=
  match txn c with
  | None => (Some sql_ErrTxDone, c)
  | Some _ => (None, mkConn (disk c) None)
  end.

(** [db.QueryRow(query, args...)]: the first row of the result, or
    [sql.ErrNoRows] from the Scan that follows. *)
Definition QueryRow {Row : Type} (f : Faults) (s : Site) (tbl : list Row)
    (where_ : Row -> bool) : error + Row :=
  match f s with
  | Some code => inl (driver_Error code)
  | None =>
    match find where_ tbl with
    | None => inl sql_ErrNoRows
    | Some r => inr r
    end
  end.

(** Scan into a [time.Time], and into a [bool]: NULL cannot be stored,
    and only the integers 0 and 1 convert to a bool. *)
Definition scan_Time (column : string) (v : option Time) : error + Time :=
  match v with
  | None => inl (convert_Error column)
  | Some t => inr t
  end.

Definition scan_bool (column : string) (v : option Z) : error + bool :=
  match v with
  | Some 0 => inr false
  | Some 1 => inr true
  | _ => inl (convert_Error column)
  end.

End database.

(** ** Package models (src/unnamed/part_003) *)

Module models.

Import database.

Record Lender := mkLender {
  LenderID : Z;
  BusinessName : string;
  PhoneNumber : string;
  LenderEmail : string;
  InterestRatePercent : float;
  LenderCreatedAt : Time;
  LenderUpdatedAt : Time;
  IsActive : bool
}.

Record Account := mkAccount {
  AccountID : Z;
  AccountLenderID : Z;
  AccountUsername : string;
  PasswordHash : string;
  CreatedAt : Time;
  UpdatedAt : Time;
  LastLogin : option Time;  (* sql.NullTime *)
  IsLocked : bool
}.

End models.

(** ** Package repository (internal/repository/auth_repository.go) *)

Module repository.

Import database.
Import models.

(** [if err != nil { return 0, err }] *)
Definition or_return0 {A : Type} (step : Conn -> (error + A) * Conn)
    (rest : A -> Conn -> (Z * option error) * Conn) (c : Conn)
    : (Z * option error) * Conn :=
  match step c with
  | (inl err, c') => ((0, Some err), c')
  | (inr a, c') => rest a c'
  end.

Notation "x <-- step ;; rest" := (or_return0 step (fun x => rest))
  (at level 61, step at next level, right associativity).

(** A store call that does not touch the connection. *)
Definition pure_step {A : Type} (r : error + A) (c : Conn) : (error + A) * Conn := (r, c).

Definition check (r : option error) : error + unit :=
  match r with Some err => inl err | None => inr tt end.

(** [defer tx.Rollback()]: runs when the function returns, whatever the
    path; its result is dropped. *)
Definition defer_Rollback {R : Type} (body : Conn -> R * Conn) (c : Conn) : R * Conn :=
  let (r, c') := body c in (r, snd (Rollback c')).

Definition CreateLenderAndAccount (f : Faults) (now : Time)
    (businessName email phone username passwordHash : string) (interestRate : float)
    (c : Conn) : (Z * option error) * Conn :=
  match Begin f c with
  | (Some err, c) => ((0, Some err), c)
  | (None, c) =>
    defer_Rollback (
      _ <-- pure_step (check (Prepare f AtPrepareLender)) ;;
      resLender <-- tx_Exec f AtExecLender
                      (insert_Lender businessName phone email interestRate now now) ;;
      lenderID <-- pure_step (LastInsertId f AtLastInsertIdLender resLender) ;;
      _ <-- pure_step (check (Prepare f AtPrepareAccount)) ;;
      resAccount <-- tx_Exec f AtExecAccount
                       (insert_Account lenderID username passwordHash now now) ;;
      accountID <-- pure_step (LastInsertId f AtLastInsertIdAccount resAccount) ;;
      fun c => let (err, c') := Commit f c in ((accountID, err), c')
    ) c
  end.

(** Scan of the eight selected columns into a [models.Account]. *)
Definition scan_Account (r : AccountRow) : error + Account :=
  match scan_Time "Created_At" (A_Created_At r) with
  | inl err => inl err
  | inr createdAt =>
    match scan_Time "Updated_At" (A_Updated_At r) with
    | inl err => inl err
    | inr updatedAt =>
      match scan_bool "Is_Locked" (Is_Locked r) with
      | inl err => inl err
      | inr isLocked =>
        inr (mkAccount (Account_ID r) (A_Lender_ID r) (Username r) (Password_Hash r)
               createdAt updatedAt (Last_Login r) isLocked)
      end
    end
  end.

Definition scan_Lender (r : LenderRow) : error + Lender :=
  match scan_Time "Created_At" (L_Created_At r) with
  | inl err => inl err
  | inr createdAt =>
    match scan_Time "Updated_At" (L_Updated_At r) with
    | inl err => inl err
    | inr updatedAt =>
      match scan_bool "Is_Active" (Is_Active r) with
      | inl err => inl err
      | inr isActive =>
        inr (mkLender (Lender_ID r) (Business_Name r) (Phone_Number r) (Email r)
               (Interest_Rate_Percent r) createdAt updatedAt isActive)
      end
    end
  end.

(** [QueryRow(...).Scan(...)] *)
Definition QueryRow_Scan {Row A : Type} (f : Faults) (s : Site) (tbl : list Row)
    (where_ : Row -> bool) (scan : Row -> error + A) : error + A :=
  match QueryRow f s tbl where_ with
  | inl err => inl err
  | inr r => scan r
  end.

Definition GetAccountByUsername (f : Faults) (username : string) (c : Conn)
    : option Account * option error :=
  match QueryRow_Scan f AtQueryAccount (Accounts (disk c))
          (fun r => String.eqb (Username r) username) scan_Account with
  | inl err =>
    if is_ErrNoRows err then (None, Some ErrAccountNotFound)
    else (None, Some err)
  | inr account => (Some account, None)
  end.

Definition GetAccountByID (f : Faults) (accountID : Z) (c : Conn)
    : option Account * option error :=
  match QueryRow_Scan f AtQueryAccount (Accounts (disk c))
          (fun r => Z.eqb (Account_ID r) accountID) scan_Account with
  | inl err =>
    if is_ErrNoRows err then (None, Some ErrAccountNotFound)
    else (None, Some err)
  | inr account => (Some account, None)
  end.

Definition GetLenderByAccountID (f : Faults) (accountID : Z) (c : Conn)
    : option Lender * option error :=
  match QueryRow_Scan f AtQueryAccount (Accounts (disk c))
          (fun r => Z.eqb (Account_ID r) accountID) (fun r => inr (A_Lender_ID r)) with
  | inl err =>
    if is_ErrNoRows err then (None, Some ErrAccountNotFound)
    else (None, Some err)
  | inr lenderID =>
    match QueryRow_Scan f AtQueryLender (Lenders (disk c))
            (fun r => Z.eqb (Lender_ID r) lenderID) scan_Lender with
    | inl err =>
      if is_ErrNoRows err then (None, Some ErrLenderNotFound)
      else (None, Some err)
    | inr lender => (Some lender, None)
    end
  end.

(** The statement runs outside any transaction: it is committed at once. *)
Definition UpdateLastLogin (f : Faults) (now sqlclock : Time) (accountID : Z) (c : Conn)
    : option error * Conn :=
  match Prepare f AtPrepareUpdate with
  | Some err => (Some err, c)
  | None =>
    match f AtExecUpdate with
    | Some code => (Some (driver_Error code), c)
    | None =>
      let tbl := UPDATE_Accounts sqlclock (fun r => Z.eqb (Account_ID r) accountID)
                   (set_Last_Login now) (Accounts (disk c)) in
      (None, mkConn (with_Accounts tbl (disk c)) (txn c))
    end
  end.

End repository.

(** ** The token library: github.com/golang-jwt/jwt/v5

    The library is a dependency of the program, not part of it.  Its
    parser, validator and HMAC method are written out here after the
    library's parser.go, validator.go, hmac.go and token.go (v5.2); what
    lies below them (base64url, JSON, the hash functions) is taken as an
    interface, [Codec]. *)

Module jwt.

Definition Time := Z.
Definition Second : Z := 1000000000.
Definition Minute : Z := 60 * Second.
Definition Hour : Z := 60 * Minute.

(** A [NumericDate] is a [time.Time] cut to [TimePrecision], one second;
    it is kept as its Unix seconds, which is also how it is written in
    the token. *)
Definition NumericDate := Z.

(** [jwt.NewNumericDate(t)]: [t.Truncate(time.Second)] *)
Definition NewNumericDate (t : Time) : NumericDate := t / Second.

(** The instant a [NumericDate] stands for. *)
Definition instant (d : NumericDate) : Time := d * Second.

(** The fields of [jwt.RegisteredClaims] that carry a validity window.
    The program never sets and never checks the others (iss, sub, aud,
    jti), and a parser without options ignores them. *)
Record RegisteredClaims := mkRegisteredClaims {
  ExpiresAt : option NumericDate;
  NotBefore : option NumericDate;
  IssuedAt : option NumericDate
}.

(** The interface [jwt.Claims], as far as the validator calls it. *)
Class Claims (C : Type) := {
  GetExpirationTime : C -> option NumericDate;
  GetNotBefore : C -> option NumericDate;
  GetIssuedAt : C -> option NumericDate
}.

Inductive Hash := SHA256 | SHA384 | SHA512.

Inductive SigningMethod :=
| SigningMethodHMAC (h : Hash)
| SigningMethodRSA (h : Hash)
| SigningMethodRSAPSS (h : Hash)
| SigningMethodECDSA (h : Hash)
| SigningMethodEd25519
| signingMethodNone.

Definition Alg (m : SigningMethod) : string :=
  match m with
  | SigningMethodHMAC SHA256 => "HS256"
  | SigningMethodHMAC SHA384 => "HS384"
  | SigningMethodHMAC SHA512 => "HS512"
  | SigningMethodRSA SHA256 => "RS256"
  | SigningMethodRSA SHA384 => "RS384"
  | SigningMethodRSA SHA512 => "RS512"
  | SigningMethodRSAPSS SHA256 => "PS256"
  | SigningMethodRSAPSS SHA384 => "PS384"
  | SigningMethodRSAPSS SHA512 => "PS512"
  | SigningMethodECDSA SHA256 => "ES256"
  | SigningMethodECDSA SHA384 => "ES384"
  | SigningMethodECDSA SHA512 => "ES512"
  | SigningMethodEd25519 => "EdDSA"
  | signingMethodNone => "none"
  end.

Definition registered : list SigningMethod :=
  [SigningMethodHMAC SHA256; SigningMethodHMAC SHA384; SigningMethodHMAC SHA512;
   SigningMethodRSA SHA256; SigningMethodRSA SHA384; SigningMethodRSA SHA512;
   SigningMethodRSAPSS SHA256; SigningMethodRSAPSS SHA384; SigningMethodRSAPSS SHA512;
   SigningMethodECDSA SHA256; SigningMethodECDSA SHA384; SigningMethodECDSA SHA512;
   SigningMethodEd25519; signingMethodNone].

(** [jwt.GetSigningMethod(alg)] *)
Definition GetSigningMethod (alg : string) : option SigningMethod :=
  find (fun m => String.eqb (Alg m) alg) registered.

(** The sentinel errors of the library. *)
Inductive Sentinel :=
| ErrTokenMalformed
| ErrTokenUnverifiable
| ErrTokenSignatureInvalid
| ErrTokenInvalidClaims
| ErrTokenExpired
| ErrTokenNotValidYet
| ErrSignatureInvalid
| ErrInvalidKeyType
| NoneSignatureTypeDisallowedError.

Definition Sentinel_eqb (a b : Sentinel) : bool :=
  match a, b with
  | ErrTokenMalformed, ErrTokenMalformed
  | ErrTokenUnverifiable, ErrTokenUnverifiable
  | ErrTokenSignatureInvalid, ErrTokenSignatureInvalid
  | ErrTokenInvalidClaims, ErrTokenInvalidClaims
  | ErrTokenExpired, ErrTokenExpired
  | ErrTokenNotValidYet, ErrTokenNotValidYet
  | ErrSignatureInvalid, ErrSignatureInvalid
  | ErrInvalidKeyType, ErrInvalidKeyType
  | NoneSignatureTypeDisallowedError, NoneSignatureTypeDisallowedError => true
  | _, _ => false
  end.

(** A Go [error] as the token code sees it: either made on the spot by
    [errors.New] or [fmt.Errorf] and known by its text, or an error of the
    library, which wraps the sentinels of [chain] (and, in [cause], the
    text of an error of the caller that it wraps as well). *)
Inductive error :=
| errors_New (msg : string)
| jwt_error (chain : list Sentinel) (cause : option string).

(** [errors.Is(err, target)] for a sentinel of the library. *)
Definition errors_Is (err : error) (target : Sentinel) : bool :=
  match err with
  | errors_New _ => false
  | jwt_error chain _ => existsb (Sentinel_eqb target) chain
  end.

(** The header of a token: the entries [typ] and [alg], when they are
    strings. *)
Record Header := mkHeader {
  typ : option string;
  alg : option string
}.

Record Token (C : Type) := mkToken {
  Method : SigningMethod;
  TokenHeader : Header;
  TokenClaims : C;
  Signature : string;
  Valid : bool
}.
Arguments mkToken {C}.
Arguments Method {C}.
Arguments TokenHeader {C}.
Arguments TokenClaims {C}.
Arguments Signature {C}.
Arguments Valid {C}.

(** What the library stands on.  A segment of a token is the base64url
    text of a JSON document (header, claims) or of raw bytes (signature);
    [hmac] is the MAC of crypto/hmac over the given hash. *)
Class Codec (C : Type) := {
  marshalHeader : Header -> string;
  unmarshalHeader : string -> option Header;
  marshalClaims : C -> string;
  unmarshalClaims : string -> option C;
  EncodeSegment : string -> string;
  DecodeSegment : string -> option string;
  hmac : Hash -> string -> string -> string
}.

(** [strings.Split(s, ".")] *)
Definition dot : ascii := ".".

Fixpoint Split (s : string) : list string :=
  match s with
  | EmptyString => [EmptyString]
  | String c rest =>
    if Ascii.eqb c dot then EmptyString :: Split rest
    else match Split rest with
         | [] => [String c EmptyString]
         | p :: ps => String c p :: ps
         end
  end.

Section Parser.

Context {C : Type} `{Claims C} `{Codec C}.

(** [Parser.ParseUnverified] *)
Definition ParseUnverified (tokenString : string) : error + (Token C * list string) :=
  match Split tokenString with
  | [p0; p1; p2] =>
    match unmarshalHeader p0 with
    | None => inl (jwt_error [ErrTokenMalformed] None)
    | Some header =>
      match unmarshalClaims p1 with
      | None => inl (jwt_error [ErrTokenMalformed] None)
      | Some claims =>
        match alg header with
        | Some name =>
          match GetSigningMethod name with
          | None => inl (jwt_error [ErrTokenUnverifiable] None)
          | Some method => inr (mkToken method header claims "" false, [p0; p1; p2])
          end
        | None => inl (jwt_error [ErrTokenUnverifiable] None)
        end
      end
    end
  | _ => inl (jwt_error [ErrTokenMalformed] None)
  end.

(** [SigningMethodHMAC.Verify] with a [[]byte] key; the three hashes
    are linked into the program. *)
Definition HMAC_Verify (h : Hash) (signingString sig key : string) : option Sentinel :=
  if String.eqb sig (hmac h key signingString) then None else Some ErrSignatureInvalid.

(** [SigningMethodHMAC.Sign] with a [[]byte] key. *)
Definition HMAC_Sign (h : Hash) (signingString key : string) : string :=
  hmac h key signingString.

(** [Validator.Validate] of a validator made without options other
    than the leeway: exp and nbf are checked when present, each failure
    is collected, and the failures are joined. *)
Definition verifyExpiresAt (leeway : Z) (now : Time) (claims : C) : list Sentinel :=
  match GetExpirationTime claims with
  | None => []
  | Some exp => if Z.ltb now (instant exp + leeway) then [] else [ErrTokenExpired]
  end.

Definition verifyNotBefore (leeway : Z) (now : Time) (claims : C) : list Sentinel :=
  match GetNotBefore claims with
  | None => []
  | Some nbf => if Z.ltb now (instant nbf - leeway) then [ErrTokenNotValidYet] else []
  end.

Definition Validate (leeway : Z) (now : Time) (claims : C) : list Sentinel :=
  (verifyExpiresAt leeway now claims ++ verifyNotBefore leeway now claims)%list.

(** A [Keyfunc] answers with the key to verify with, or with an error
    of its own (its text). *)
Definition Keyfunc := Token C -> string + string.

(** [jwt.ParseWithClaims(tokenString, claims, keyFunc,
    jwt.WithLeeway(leeway))]; [now] is the reading of [time.Now()] that
    the validator takes.  The key is a [[]byte]: the methods other than
    HMAC refuse it. *)
Definition ParseWithClaims (leeway : Z) (now : Time) (tokenString : string)
    (keyFunc : Keyfunc) : error + Token C :=
  match ParseUnverified tokenString with
  | inl err => inl err
  | inr (token, parts) =>
    match DecodeSegment (nth 2 parts "") with
    | None => inl (jwt_error [ErrTokenMalformed] None)
    | Some sig =>
      let token := mkToken (Method token) (TokenHeader token) (TokenClaims token)
                     sig false in
      let text := nth 0 parts "" ++ "." ++ nth 1 parts "" in
      match keyFunc token with
      | inl cause => inl (jwt_error [ErrTokenUnverifiable] (Some cause))
      | inr key =>
        let verr :=
          match Method token with
          | SigningMethodHMAC h => HMAC_Verify h text sig key
          | signingMethodNone => Some NoneSignatureTypeDisallowedError
          | _ => Some ErrInvalidKeyType
          end in
        match verr with
        | Some e => inl (jwt_error [ErrTokenSignatureInvalid; e] None)
        | None =>
          match Validate leeway now (TokenClaims token) with
          | [] => inr (mkToken (Method token) (TokenHeader token) (TokenClaims token) sig true)
          | errs => inl (jwt_error (ErrTokenInvalidClaims :: errs) None)
          end
        end
      end
    end
  end.

(** [jwt.NewWithClaims(method, claims).SignedString(key)] with an HMAC
    method and a [[]byte] key, which cannot fail. *)
Definition SigningString (method : SigningMethod) (claims : C) : string :=
  marshalHeader (mkHeader (Some "JWT") (Some (Alg method))) ++ "." ++ marshalClaims claims.

Definition SignedString (h : Hash) (claims : C) (key : string) : string :=
  let sstr := SigningString (SigningMethodHMAC h) claims in
  sstr ++ "." ++ EncodeSegment (HMAC_Sign h sstr key).

End Parser.

Arguments Keyfunc C : clear implicits.

(** *** What is assumed of a codec

    Decoding undoes encoding, for the headers the library writes and for
    claims whose dates a float64 holds exactly (the JSON decoder reads a
    date through a float64); no segment contains a period. *)

Definition no_dot (s : string) : Prop :=
  existsb (Ascii.eqb dot) (list_ascii_of_string s) = false.

Definition exact_in_float64 (d : option NumericDate) : Prop :=
  match d with
  | None => True
  | Some s => - 2 ^ 53 <= s <= 2 ^ 53
  end.

Definition exact_dates {C : Type} `{Claims C} (c : C) : Prop :=
  exact_in_float64 (GetExpirationTime c) /\
  exact_in_float64 (GetNotBefore c) /\
  exact_in_float64 (GetIssuedAt c).

Definition written_header (m : SigningMethod) : Header :=
  mkHeader (Some "JWT") (Some (Alg m)).

Class CodecLaws (C : Type) `{Claims C} `{Codec C} : Prop := {
  header_roundtrip : forall m,
    unmarshalHeader (marshalHeader (written_header m)) = Some (written_header m);
  claims_roundtrip : forall c : C,
    exact_dates c -> unmarshalClaims (marshalClaims c) = Some c;
  segment_roundtrip : forall b, DecodeSegment (EncodeSegment b) = Some b;
  header_no_dot : forall m, no_dot (marshalHeader (written_header m));
  claims_no_dot : forall c : C, no_dot (marshalClaims c);
  segment_no_dot : forall b, no_dot (EncodeSegment b)
}.

End jwt.

(** ** Package auth, pair form (internal/auth/jwt.go): claims carry an
       account identifier and a lender identifier; tested by
       src/unnamed/part_002 *)

Module auth.

Import jwt.

Definition AccessTokenDuration : Z := 15 * Minute.
Definition RefreshTokenDuration : Z := 7 * 24 * Hour.

Record TokenPair := mkTokenPair {
  AccessToken : string;
  RefreshToken : string
}.

Record Claims := mkClaims {
  AccountID : Z;
  LenderID : Z;
  Registered : RegisteredClaims
}.

#[global] Instance Claims_jwt : jwt.Claims Claims := {
  GetExpirationTime c := ExpiresAt (Registered c);
  GetNotBefore c := NotBefore (Registered c);
  GetIssuedAt c := IssuedAt (Registered c)
}.

(** The claims literal of [GenerateAccessToken] and of
    [GenerateRefreshToken].  [time.Now()] is called twice, first for
    ExpiresAt and then for IssuedAt: [now1] and [now2] are the two
    readings. *)
Definition newClaims (duration : Z) (now1 now2 : Time) (accountID lenderID : Z) : Claims :=
  mkClaims accountID lenderID
    (mkRegisteredClaims (Some (NewNumericDate (now1 + duration)))
                        None
                        (Some (NewNumericDate now2))).

Section WithCodec.

Context `{Codec Claims}.

Definition GenerateAccessToken (now1 now2 : Time) (accountID lenderID : Z)
    (secretKey : string) : string * option error :=
  let claims := newClaims AccessTokenDuration now1 now2 accountID lenderID in
  (SignedString SHA256 claims secretKey, None).

Definition GenerateRefreshToken (now1 now2 : Time) (accountID lenderID : Z)
    (secretKey : string) : string * option error :=
  let claims := newClaims RefreshTokenDuration now1 now2 accountID lenderID in
  (SignedString SHA256 claims secretKey, None).

(** [now1 .. now4]: the readings of the clock, in the order taken. *)
Definition GenerateTokenPair (now1 now2 now3 now4 : Time) (accountID lenderID : Z)
    (secretKey : string) : option TokenPair * option error :=
  match GenerateAccessToken now1 now2 accountID lenderID secretKey with
  | (_, Some err) => (None, Some err)
  | (accessToken, None) =>
    match GenerateRefreshToken now3 now4 accountID lenderID secretKey with
    | (_, Some err) => (None, Some err)
    | (refreshToken, None) => (Some (mkTokenPair accessToken refreshToken), None)
    end
  end.

(** The key function of [ValidateToken]; its error is
    [fmt.Errorf("unexpected signing method: %v", token.Header["alg"])]. *)
Definition keyFunc (secretKey : string) : Keyfunc Claims :=
  fun token =>
    match Method token with
    | SigningMethodHMAC _ => inr secretKey
    | _ => inl ("unexpected signing method: " ++
                match alg (TokenHeader token) with
                | Some name => name
                | None => "<nil>"
                end)
    end.

(** The parser is made without options: no leeway. *)
Definition ValidateToken (now : Time) (tokenString secretKey : string)
    : option Claims * option error :=
  match ParseWithClaims 0 now tokenString (keyFunc secretKey) with
  | inl err => (None, Some err)
  | inr token =>
    if negb (Valid token) then (None, Some (errors_New "invalid token"))
    else (Some (TokenClaims token), None)
  end.

Definition ExtractAccountID (now : Time) (tokenString secretKey : string)
    : Z * option error :=
  match ValidateToken now tokenString secretKey with
  | (Some claims, None) => (AccountID claims, None)
  | (_, err) => (0, err)
  end.

Definition ExtractLenderID (now : Time) (tokenString secretKey : string)
    : Z * option error :=
  match ValidateToken now tokenString secretKey with
  | (Some claims, None) => (LenderID claims, None)
  | (_, err) => (0, err)
  end.

End WithCodec.

End auth.

(** ** Package auth, single-identifier form (the second package auth of
       the sources, carried in src/internal/server/server.go after the
       server): claims carry a user identifier; tested by
       internal/auth/jwt_test.go *)

Module auth_userid.

Import jwt.

Definition AccessTokenDuration : Z := 15 * Minute.
Definition RefreshTokenDuration : Z := 7 * 24 * Hour.

Record TokenPair := mkTokenPair {
  AccessToken : string;
  RefreshToken : string
}.

Record Claims := mkClaims {
  UserID : Z;
  Registered : RegisteredClaims
}.

#[global] Instance Claims_jwt : jwt.Claims Claims := {
  GetExpirationTime c := ExpiresAt (Registered c);
  GetNotBefore c := NotBefore (Registered c);
  GetIssuedAt c := IssuedAt (Registered c)
}.

Definition ErrEmptySecret : error := errors_New "secret key cannot be empty".
Definition ErrExpired : error := errors_New "token expired".
Definition ErrInvalidSignature : error := errors_New "invalid token signature".
Definition ErrInvalidToken : error := errors_New "invalid token".

Definition newClaims (duration : Z) (now1 now2 : Time) (userID : Z) : Claims :=
  mkClaims userID
    (mkRegisteredClaims (Some (NewNumericDate (now1 + duration)))
                        None
                        (Some (NewNumericDate now2))).

Section WithCodec.

Context `{Codec Claims}.

Definition GenerateAccessToken (now1 now2 : Time) (userID : Z) (secretKey : string)
    : string * option error :=
  if String.eqb secretKey "" then ("", Some ErrEmptySecret)
  else
    let claims := newClaims AccessTokenDuration now1 now2 userID in
    (SignedString SHA256 claims secretKey, None).

Definition GenerateRefreshToken (now1 now2 : Time) (userID : Z) (secretKey : string)
    : string * option error :=
  if String.eqb secretKey "" then ("", Some ErrEmptySecret)
  else
    let claims := newClaims RefreshTokenDuration now1 now2 userID in
    (SignedString SHA256 claims secretKey, None).

Definition GenerateTokenPair (now1 now2 now3 now4 : Time) (userID : Z)
    (secretKey : string) : option TokenPair * option error :=
  match GenerateAccessToken now1 now2 userID secretKey with
  | (_, Some err) => (None, Some err)
  | (accessToken, None) =>
    match GenerateRefreshToken now3 now4 userID secretKey with
    | (_, Some err) => (None, Some err)
    | (refreshToken, None) => (Some (mkTokenPair accessToken refreshToken), None)
    end
  end.

Definition keyFunc (secretKey : string) : Keyfunc Claims :=
  fun token =>
    match Method token with
    | SigningMethodHMAC _ => inr secretKey
    | _ => inl "unexpected signing method"
    end.

(** [jwt.WithLeeway(5*time.Second)] *)
Definition Leeway : Z := 5 * Second.

Definition ValidateToken (now : Time) (tokenString secretKey : string)
    : option Claims * option error :=
  if String.eqb secretKey "" then (None, Some ErrEmptySecret)
  else
    match ParseWithClaims Leeway now tokenString (keyFunc secretKey) with
    | inl err =>
      if errors_Is err ErrTokenExpired then (None, Some ErrExpired)
      else if errors_Is err ErrTokenSignatureInvalid then (None, Some ErrInvalidSignature)
      else (None, Some err)
    | inr token =>
      if negb (Valid token) then (None, Some ErrInvalidToken)
      else (Some (TokenClaims token), None)
    end.

Definition ExtractUserID (now : Time) (tokenString secretKey : string)
    : Z * option error :=
  match ValidateToken now tokenString secretKey with
  | (Some claims, None) => (UserID claims, None)
  | (_, err) => (0, err)
  end.

End WithCodec.

End auth_userid.

(** ** A reference codec

    A small codec that satisfies [jwt.CodecLaws], to run the token code on
    concrete inputs: numbers are written bit by bit in a self-delimiting
    text, bytes as eight binary digits, and the header as the name of its
    algorithm.  The MAC is a stand-in that keeps its three arguments apart.
    The properties proved below hold for every codec that satisfies the
    laws, base64url over JSON with HMAC-SHA2 among them. *)

Module refcodec.

Import jwt.

Fixpoint enc_pos (p : positive) : string :=
  match p with
  | xH => "h"
  | xO q => String "o" (enc_pos q)
  | xI q => String "i" (enc_pos q)
  end.

Fixpoint dec_pos (s : string) : option (positive * string) :=
  match s with
  | EmptyString => None
  | String c rest =>
    if Ascii.eqb c "h" then Some (xH, rest)
    else if Ascii.eqb c "o" then
      match dec_pos rest with Some (q, r) => Some (xO q, r) | None => None end
    else if Ascii.eqb c "i" then
      match dec_pos rest with Some (q, r) => Some (xI q, r) | None => None end
    else None
  end.

Definition enc_Z (z : Z) : string :=
  match z with
  | Z0 => "z"
  | Zpos p => String "p" (enc_pos p)
  | Zneg p => String "n" (enc_pos p)
  end.

Definition dec_Z (s : string) : option (Z * string) :=
  match s with
  | EmptyString => None
  | String c rest =>
    if Ascii.eqb c "z" then Some (0, rest)
    else if Ascii.eqb c "p" then
      match dec_pos rest with Some (q, r) => Some (Zpos q, r) | None => None end
    else if Ascii.eqb c "n" then
      match dec_pos rest with Some (q, r) => Some (Zneg q, r) | None => None end
    else None
  end.

Definition enc_date (d : option NumericDate) : string :=
  match d with
  | None => "N"
  | Some z => String "S" (enc_Z z)
  end.

Definition dec_date (s : string) : option (option NumericDate * string) :=
  match s with
  | EmptyString => None
  | String c rest =>
    if Ascii.eqb c "N" then Some (None, rest)
    else if Ascii.eqb c "S" then
      match dec_Z rest with Some (z, r) => Some (Some z, r) | None => None end
    else None
  end.

Definition enc_Registered (r : RegisteredClaims) : string :=
  enc_date (ExpiresAt r) ++ enc_date (NotBefore r) ++ enc_date (IssuedAt r).

Definition dec_Registered (s : string) : option (RegisteredClaims * string) :=
  match dec_date s with
  | None => None
  | Some (e, s1) =>
    match dec_date s1 with
    | None => None
    | Some (n, s2) =>
      match dec_date s2 with
      | None => None
      | Some (i, s3) => Some (mkRegisteredClaims e n i, s3)
      end
    end
  end.

Definition bit (b : bool) : ascii := if b then "1" else "0".

Definition unbit (c : ascii) : option bool :=
  if Ascii.eqb c "1" then Some true
  else if Ascii.eqb c "0" then Some false
  else None.

Fixpoint enc_bytes (b : string) : string :=
  match b with
  | EmptyString => EmptyString
  | String (Ascii b0 b1 b2 b3 b4 b5 b6 b7) rest =>
    String (bit b0) (String (bit b1) (String (bit b2) (String (bit b3)
      (String (bit b4) (String (bit b5) (String (bit b6) (String (bit b7)
        (enc_bytes rest))))))))
  end.

Fixpoint dec_bytes (s : string) : option string :=
  match s with
  | EmptyString => Some EmptyString
  | String c0 (String c1 (String c2 (String c3
      (String c4 (String c5 (String c6 (String c7 rest))))))) =>
    match unbit c0, unbit c1, unbit c2, unbit c3,
          unbit c4, unbit c5, unbit c6, unbit c7 with
    | Some b0, Some b1, Some b2, Some b3, Some b4, Some b5, Some b6, Some b7 =>
      match dec_bytes rest with
      | Some bs => Some (String (Ascii b0 b1 b2 b3 b4 b5 b6 b7) bs)
      | None => None
      end
    | _, _, _, _, _, _, _, _ => None
    end
  | _ => None
  end.

Definition ref_marshalHeader (h : Header) : string :=
  match alg h with
  | Some a => a
  | None => EmptyString
  end.

Definition ref_unmarshalHeader (s : string) : option Header :=
  match s with
  | EmptyString => None
  | _ => Some (mkHeader (Some "JWT") (Some s))
  end.

Definition ref_hmac (h : Hash) (key msg : string) : string :=
  Alg (SigningMethodHMAC h) ++ "/" ++ key ++ "/" ++ msg.

Definition ref_marshal_auth (c : auth.Claims) : string :=
  enc_Z (auth.AccountID c) ++ enc_Z (auth.LenderID c) ++ enc_Registered (auth.Registered c).

Definition ref_unmarshal_auth (s : string) : option auth.Claims :=
  match dec_Z s with
  | None => None
  | Some (a, s1) =>
    match dec_Z s1 with
    | None => None
    | Some (l, s2) =>
      match dec_Registered s2 with
      | Some (r, EmptyString) => Some (auth.mkClaims a l r)
      | _ => None
      end
    end
  end.

Definition ref_marshal_userid (c : auth_userid.Claims) : string :=
  enc_Z (auth_userid.UserID c) ++ enc_Registered (auth_userid.Registered c).

Definition ref_unmarshal_userid (s : string) : option auth_userid.Claims :=
  match dec_Z s with
  | None => None
  | Some (u, s1) =>
    match dec_Registered s1 with
    | Some (r, EmptyString) => Some (auth_userid.mkClaims u r)
    | _ => None
    end
  end.

Definition codec_auth : Codec auth.Claims := {|
  marshalHeader := ref_marshalHeader;
  unmarshalHeader := ref_unmarshalHeader;
  marshalClaims := ref_marshal_auth;
  unmarshalClaims := ref_unmarshal_auth;
  EncodeSegment := enc_bytes;
  DecodeSegment := dec_bytes;
  hmac := ref_hmac
|}.

Definition codec_userid : Codec auth_userid.Claims := {|
  marshalHeader := ref_marshalHeader;
  unmarshalHeader := ref_unmarshalHeader;
  marshalClaims := ref_marshal_userid;
  unmarshalClaims := ref_unmarshal_userid;
  EncodeSegment := enc_bytes;
  DecodeSegment := dec_bytes;
  hmac := ref_hmac
|}.

End refcodec.

(** ** strconv (Go standard library), as far as the program calls it:
       [Atoi] in config.Load and [Itoa] in server.Start.  [int] has 64
       bits. *)

Module strconv.

Inductive Sentinel := ErrSyntax | ErrRange.

(** [*strconv.NumError] *)
Record NumError := mkNumError {
  Func : string;
  Num : string;
  Err : Sentinel
}.

Definition syntaxError (fn str : string) : NumError := mkNumError fn str ErrSyntax.
Definition rangeError (fn str : string) : NumError := mkNumError fn str ErrRange.

Definition byte (c : ascii) : Z := Z.of_N (N_of_ascii c).

Definition maxUint64 : Z := 2 ^ 64 - 1.

(** Conversions to [uint64] and to [int64]: the low 64 bits. *)
Definition uint64 (z : Z) : Z := z mod 2 ^ 64.
Definition int64 (z : Z) : Z := (z + 2 ^ 63) mod 2 ^ 64 - 2 ^ 63.

(** [lower(c)]: [c | ('x' - 'X')] *)
Definition lower (c : Z) : Z := Z.lor c 32.

(** The loop of [ParseUint(s, 10, 0)] over the bytes of [s], [n] being
    the number read so far.  An underscore is a digit separator in base 0
    only, and a letter is a digit of a larger base: both are syntax
    errors here.  The two overflow tests are the library's. *)
Definition cutoff : Z := maxUint64 / 10 + 1.

Fixpoint ParseUint_loop (s : string) (n : Z) : Z * option Sentinel :=
  match s with
  | EmptyString => (n, None)
  | String ch rest =>
    let c := byte ch in
    let digit :=
      if Z.leb 48 c && Z.leb c 57 then Some (c - 48)
      else if Z.leb 97 (lower c) && Z.leb (lower c) 122 then Some (lower c - 97 + 10)
      else None in
    match digit with
    | None => (0, Some ErrSyntax)
    | Some d =>
      if Z.leb 10 d then (0, Some ErrSyntax)
      else if Z.leb cutoff n then (maxUint64, Some ErrRange)
      else
        let n := n * 10 in
        let n1 := uint64 (n + d) in
        if Z.ltb n1 n || Z.ltb maxUint64 n1 then (maxUint64, Some ErrRange)
        else ParseUint_loop rest n1
    end
  end.

(** [strconv.ParseUint(s, 10, 0)] *)
Definition ParseUint (s : string) : Z * option NumError :=
  match s with
  | EmptyString => (0, Some (syntaxError "ParseUint" s))
  | _ =>
    match ParseUint_loop s 0 with
    | (n, None) => (n, None)
    | (n, Some e) => (n, Some (mkNumError "ParseUint" s e))
    end
  end.

(** [strconv.ParseInt(s, 10, 0)] *)
Definition ParseInt (s : string) : Z * option NumError :=
  match s with
  | EmptyString => (0, Some (syntaxError "ParseInt" s))
  | String c0 rest =>
    let s0 := s in
    let neg := Ascii.eqb c0 "-" in
    let s := if Ascii.eqb c0 "+" || Ascii.eqb c0 "-" then rest else s in
    let (un, err) := ParseUint s in
    match err with
    | Some (mkNumError _ _ ErrSyntax) => (0, Some (mkNumError "ParseInt" s0 ErrSyntax))
    | _ =>
      let cutoff := 2 ^ 63 in
      if negb neg && Z.leb cutoff un then (int64 (cutoff - 1), Some (rangeError "ParseInt" s0))
      else if neg && Z.ltb cutoff un then (int64 (- int64 cutoff), Some (rangeError "ParseInt" s0))
      else
        let n := int64 un in
        (if neg then int64 (- n) else n, None)
    end
  end.

(** The loop of the fast path of [Atoi]: [ch -= '0'] is a byte
    subtraction, so a byte below '0' wraps to a value above 9. *)
Fixpoint Atoi_loop (s : string) (n : Z) : option Z :=
  match s with
  | EmptyString => Some n
  | String ch rest =>
    let ch := (byte ch - 48) mod 256 in
    if Z.ltb 9 ch then None else Atoi_loop rest (n * 10 + ch)
  end.

(** [strconv.Atoi(s)]: texts of fewer than 19 bytes take the fast path,
    on which no number leaves the range of [int]; the others go through
    [ParseInt], whose error is renamed. *)
Definition Atoi (s : string) : Z * option NumError :=
  let sLen := String.length s in
  if ((0 <? sLen) && (sLen <? 19))%nat then
    match s with
    | EmptyString => (0, Some (syntaxError "Atoi" s))
    | String c0 rest =>
      let s0 := s in
      let signed := Ascii.eqb c0 "-" || Ascii.eqb c0 "+" in
      let s := if signed then rest else s in
      if signed && (String.length s <? 1)%nat then (0, Some (syntaxError "Atoi" s0))
      else
        match Atoi_loop s 0 with
        | None => (0, Some (syntaxError "Atoi" s0))
        | Some n => (if Ascii.eqb c0 "-" then - n else n, None)
        end
    end
  else
    let (i64, err) := ParseInt s in
    (i64, option_map (fun nerr => mkNumError "Atoi" (Num nerr) (Err nerr)) err).

(** [strconv.Itoa(i)]: the decimal numeral of [i], without sign when it
    is not negative and without leading zeros.  The digits are written
    from the last to the first; a [uint64] has twenty at most.  (The
    library writes them two at a time from a table, to the same text.) *)
Definition digit_char (d : Z) : ascii := ascii_of_N (Z.to_N (48 + d)).

Fixpoint formatBits (fuel : nat) (u : Z) (a : string) : string :=
  match fuel with
  | O => a
  | S fuel =>
    let a := String (digit_char (u mod 10)) a in
    if Z.ltb u 10 then a else formatBits fuel (u / 10) a
  end.

Definition Itoa (i : Z) : string :=
  if Z.ltb i 0 then String "-" (formatBits 20 (uint64 (- i)) "")
  else formatBits 20 (uint64 i) "".

End strconv.

(** ** Package config (internal/config/config.go); tested by
       src/unnamed/part_001 *)

Module config.

Record Config := mkConfig {
  ServerPort : Z;
  Environment : string;
  JWTSecret : string;
  DBPath : string
}.

(** The environment of the process, as [os.LookupEnv] reads it: a
    variable is unset ([None]) or set, possibly to the empty text. *)
Definition Environ := string -> option string.

(** [godotenv.Load()]: reads the file .env of the working directory.
    [dotenv] is what the library makes of the file: nothing when there is
    no file or it does not parse, and otherwise the variables it defines.
    The library sets in the process those variables that the process does
    not have yet, and leaves the others as they are. *)
Definition godotenv_Load (dotenv : option Environ) (env : Environ) : bool * Environ :=
  match dotenv with
  | None => (true, env)
  | Some envMap =>
    (false, fun key => match env key with
                       | Some value => Some value
                       | None => envMap key
                       end)
  end.

Definition getEnv (env : Environ) (key defaultValue : string) : string :=
  match env key with
  | Some value => value
  | None => defaultValue
  end.

(** [Load()].  Besides its two results it leaves the environment as
    godotenv made it, and a line in the log when godotenv failed. *)
Definition Load (dotenv : option Environ) (env : Environ)
    : (option Config * option strconv.NumError) * (Environ * list string) :=
  let (err, env) := godotenv_Load dotenv env in
  let log := if err then ["No .env file found, using environment variables"] else [] in
  match strconv.Atoi (getEnv env "SERVER_PORT" "8080") with
  | (_, Some err) => ((None, Some err), (env, log))
  | (serverPort, None) =>
    ((Some (mkConfig serverPort
              (getEnv env "ENVIRONMENT" "development")
              (getEnv env "JWT_SECRET" "your-secret-key")
              (getEnv env "DB_PATH" "wisetech_lms.db")), None), (env, log))
  end.

End config.

(** ** Package server (internal/server/server.go): the address that
       Start listens on *)

Module server.

(** [":" + strconv.Itoa(s.Cfg.ServerPort)], the [Addr] of the
    [http.Server] that Start makes. *)
Definition Addr (cfg : config.Config) : string :=
  ":" ++ strconv.Itoa (config.ServerPort cfg).

End server.

(** * Vocabulary of the properties *)

(** ** Password policy *)

(** The three rules, said of the characters of the password. *)
Definition long_enough (password : string) : Prop :=
  (8 <= String.length password)%nat.

Definition has_uppercase (password : string) : Prop :=
  exists c, In c (list_ascii_of_string password) /\
            (65 <= nat_of_ascii c <= 90)%nat.

Definition has_digit (password : string) : Prop :=
  exists c, In c (list_ascii_of_string password) /\
            (48 <= nat_of_ascii c <= 57)%nat.

(** ** Credential store *)

(** No row of [Accounts] has this username, or this identifier. *)
Definition no_account_named (d : database.DB) (username : string) : Prop :=
  forall r, In r (database.Accounts d) -> database.Username r <> username.

Definition no_account_with_id (d : database.DB) (accountID : Z) : Prop :=
  forall r, In r (database.Accounts d) -> database.Account_ID r <> accountID.

(** The account exists and its lender cannot be resolved: every row with
    this identifier names a lender that [Lenders] does not hold. *)
Definition account_without_lender (d : database.DB) (accountID : Z) : Prop :=
  (exists r, In r (database.Accounts d) /\ database.Account_ID r = accountID) /\
  (forall r, In r (database.Accounts d) -> database.Account_ID r = accountID ->
     forall l, In l (database.Lenders d) -> database.Lender_ID l <> database.A_Lender_ID r).

(** The row of an account after a login at [now], when the store's clock
    reads [sqlclock]: Last_Login and Updated_At are written, the other six
    columns are copied. *)
Definition logged_in (now sqlclock : database.Time) (accountID : Z)
    (r : database.AccountRow) : database.AccountRow :=
  if Z.eqb (database.Account_ID r) accountID then
    database.mkAccountRow (database.Account_ID r) (database.A_Lender_ID r)
      (database.Username r) (database.Password_Hash r) (database.A_Created_At r)
      (Some (database.CURRENT_TIMESTAMP sqlclock)) (Some now) (database.Is_Locked r)
  else r.

(** The store answers every call of the repository, except perhaps the
    commit. *)
Definition fails_only_at_commit (f : database.Faults) : Prop :=
  forall s, s <> database.AtCommit -> f s = None.

(** What an insert of this lender and this account would be refused for. *)
Definition email_taken (d : database.DB) (email : string) : Prop :=
  exists r, In r (database.Lenders d) /\ database.Email r = email.

Definition username_taken (d : database.DB) (username : string) : Prop :=
  exists r, In r (database.Accounts d) /\ database.Username r = username.

Definition rate_in_range (r : float) : Prop :=
  PrimFloat.is_nan r = false /\ PrimFloat.leb 0 r = true /\ PrimFloat.leb r 100 = true.

(** The store answers every call of the repository. *)
Definition store_answers (f : database.Faults) : Prop := forall s, f s = None.

(** What the schema promises of the two tables, and what the repository
    keeps: keys, usernames and emails are not repeated, and every account
    names a lender that is there. *)
Definition store_invariant (d : database.DB) : Prop :=
  NoDup (map database.Account_ID (database.Accounts d)) /\
  NoDup (map database.Username (database.Accounts d)) /\
  NoDup (map database.Lender_ID (database.Lenders d)) /\
  NoDup (map database.Email (database.Lenders d)) /\
  (forall a, In a (database.Accounts d) ->
     exists l, In l (database.Lenders d) /\
               database.Lender_ID l = database.A_Lender_ID a).

(** The rate of a lender as it is read back: the rate that was passed,
    and zero when that was the negative zero. *)
Definition rate_read_back (interestRate : float) : float :=
  if PrimFloat.eqb interestRate 0 then 0%float else interestRate.

(** The rows that a successful CreateLenderAndAccount adds. *)
Definition new_lender_row (lenderID : Z) (businessName phone email : string)
    (interestRate : float) (now : database.Time) : database.LenderRow :=
  database.mkLenderRow lenderID businessName phone email
    (rate_read_back interestRate) (Some now) (Some now) (Some 1).

Definition new_account_row (accountID lenderID : Z) (username passwordHash : string)
    (now : database.Time) : database.AccountRow :=
  database.mkAccountRow accountID lenderID username passwordHash
    (Some now) (Some now) None (Some 0).

(** [d'] is [d] with one lender and one account more, the account being
    [accountID] and bound to the new lender; both identifiers are new, and
    the repository finds the two rows.  The lender that is read back has
    the rate that was passed, a negative zero being read back as zero. *)
Definition created (d d' : database.DB) (accountID : Z) (now : database.Time)
    (businessName email phone username passwordHash : string) (interestRate : float)
    : Prop :=
  exists lenderID,
    database.Lenders d' =
      (database.Lenders d ++ [new_lender_row lenderID businessName phone email interestRate now])%list /\
    database.Accounts d' =
      (database.Accounts d ++ [new_account_row accountID lenderID username passwordHash now])%list /\
    no_account_with_id d accountID /\
    (forall l, In l (database.Lenders d) -> database.Lender_ID l <> lenderID) /\
    repository.GetAccountByID database.no_faults accountID (database.mkConn d' None)
      = (Some (models.mkAccount accountID lenderID username passwordHash now now None false),
         None) /\
    repository.GetLenderByAccountID database.no_faults accountID (database.mkConn d' None)
      = (Some (models.mkLender lenderID businessName phone email
                 (rate_read_back interestRate) now now true),
         None).

(** The first row of [Accounts] with this identifier, as the store
    returns it to a query by identifier. *)
Definition account_row (d : database.DB) (accountID : Z) : option database.AccountRow :=
  find (fun r => Z.eqb (database.Account_ID r) accountID) (database.Accounts d).

Definition no_lender_with_id (d : database.DB) (lenderID : Z) : Prop :=
  forall l, In l (database.Lenders d) -> database.Lender_ID l <> lenderID.

(** ** Token engine *)

(** The clock reads a time of the present era (between 1970 and 2116), so
    that times in seconds are far inside what a float64 holds exactly. *)
Definition plausible (t : jwt.Time) : Prop := 0 <= t < 2 ^ 62.

(** The text splits into three segments at its periods, of which the
    first decodes to the header [h] and the second to the claims [c];
    [p2] is the third segment and [text] is what the signature covers. *)
Definition segments {C : Type} `{jwt.Codec C} (tokenString : string)
    (h : jwt.Header) (c : C) (p2 text : string) : Prop :=
  exists p0 p1,
    jwt.Split tokenString = [p0; p1; p2] /\
    jwt.unmarshalHeader p0 = Some h /\
    jwt.unmarshalClaims p1 = Some c /\
    text = p0 ++ "." ++ p1.

(** The signing method that a header declares, when the library knows it. *)
Definition declared_method (h : jwt.Header) : option jwt.SigningMethod :=
  match jwt.alg h with
  | Some name => jwt.GetSigningMethod name
  | None => None
  end.

Definition hmac_family (m : jwt.SigningMethod) : Prop :=
  exists hash, m = jwt.SigningMethodHMAC hash.

(** The token declares a signing method that the library knows and that
    is not an HMAC. *)
Definition declares_other_family {C : Type} `{jwt.Codec C} (tokenString : string) : Prop :=
  exists h c p2 text m,
    segments tokenString h c p2 text /\
    declared_method h = Some m /\ ~ hmac_family m.

(** An outcome of ValidateToken that is a failure of the given kind of
    the library. *)
Definition fails_with {C : Type} (kind : jwt.Sentinel) (r : option C * option jwt.error)
    : Prop :=
  fst r = None /\ exists e, snd r = Some e /\ jwt.errors_Is e kind = true.

Definition expired_at {C : Type} `{jwt.Claims C} (leeway : Z) (now : jwt.Time) (c : C)
    : Prop :=
  exists exp, jwt.GetExpirationTime c = Some exp /\ jwt.instant exp + leeway <= now.

Definition not_yet_valid {C : Type} `{jwt.Claims C} (leeway : Z) (now : jwt.Time) (c : C)
    : Prop :=
  exists nbf, jwt.GetNotBefore c = Some nbf /\ now < jwt.instant nbf - leeway.

(** The MAC of [text] under [key] differs from its MAC under [key'], in
    the codec of the claims [C]. *)
Definition mac_tells_apart (C : Type) `{jwt.Codec C} (h : jwt.Hash)
    (key key' text : string) : Prop :=
  jwt.hmac h key text <> jwt.hmac h key' text.

(** A key function that hands out [key] for an HMAC method and refuses
    every other method, as the two key functions of the program do. *)
Definition hmac_only {C : Type} (keyFunc : jwt.Keyfunc C) (key : string) : Prop :=
  forall token : jwt.Token C,
    match jwt.Method token with
    | jwt.SigningMethodHMAC _ => keyFunc token = inr key
    | _ => exists cause, keyFunc token = inl cause
    end.

(** The kinds of failure of ValidateToken. *)
Inductive Failure := Malformed | Unverifiable | InvalidSignature | Expired | NotValidYet.

Definition failures : list Failure :=
  [Malformed; Unverifiable; InvalidSignature; Expired; NotValidYet].

(** The sentinel of the library that stands for a kind of failure. *)
Definition sentinel_of (k : Failure) : jwt.Sentinel :=
  match k with
  | Malformed => jwt.ErrTokenMalformed
  | Unverifiable => jwt.ErrTokenUnverifiable
  | InvalidSignature => jwt.ErrTokenSignatureInvalid
  | Expired => jwt.ErrTokenExpired
  | NotValidYet => jwt.ErrTokenNotValidYet
  end.

(** An error made by [errors.New] with this text. *)
Definition has_text (msg : string) (e : jwt.error) : bool :=
  match e with
  | jwt.errors_New m => String.eqb m msg
  | jwt.jwt_error _ _ => false
  end.

(** How a caller recognises a kind of failure.  The pair form hands on
    the errors of the library: [errors.Is] with the sentinel.  The
    single-identifier form makes the errors for an expired token and for
    an invalid signature itself, with [errors.New]: they are known by
    their text, the others as in the pair form. *)
Definition recognised_pair (e : jwt.error) (k : Failure) : bool :=
  jwt.errors_Is e (sentinel_of k).

Definition recognised_userid (e : jwt.error) (k : Failure) : bool :=
  match k with
  | Expired => has_text "token expired" e
  | InvalidSignature => has_text "invalid token signature" e
  | _ => jwt.errors_Is e (sentinel_of k)
  end.

(** The errors with which a form of ValidateToken answers the defects of
    a token. *)
Record Answers := mkAnswers {
  for_malformed : jwt.error;
  for_unknown_method : jwt.error;
  for_other_method : string -> jwt.error;
  for_wrong_signature : jwt.error;
  for_expired : jwt.error;
  for_expired_and_early : jwt.error;
  for_early : jwt.error
}.

Definition answers_of_the_pair_form : Answers := {|
  for_malformed := jwt.jwt_error [jwt.ErrTokenMalformed] None;
  for_unknown_method := jwt.jwt_error [jwt.ErrTokenUnverifiable] None;
  for_other_method name :=
    jwt.jwt_error [jwt.ErrTokenUnverifiable] (Some ("unexpected signing method: " ++ name));
  for_wrong_signature :=
    jwt.jwt_error [jwt.ErrTokenSignatureInvalid; jwt.ErrSignatureInvalid] None;
  for_expired := jwt.jwt_error [jwt.ErrTokenInvalidClaims; jwt.ErrTokenExpired] None;
  for_expired_and_early :=
    jwt.jwt_error [jwt.ErrTokenInvalidClaims; jwt.ErrTokenExpired; jwt.ErrTokenNotValidYet]
      None;
  for_early := jwt.jwt_error [jwt.ErrTokenInvalidClaims; jwt.ErrTokenNotValidYet] None
|}.

Definition answers_of_the_single_form : Answers := {|
  for_malformed := jwt.jwt_error [jwt.ErrTokenMalformed] None;
  for_unknown_method := jwt.jwt_error [jwt.ErrTokenUnverifiable] None;
  for_other_method _ :=
    jwt.jwt_error [jwt.ErrTokenUnverifiable] (Some "unexpected signing method");
  for_wrong_signature := auth_userid.ErrInvalidSignature;
  for_expired := auth_userid.ErrExpired;
  for_expired_and_early := auth_userid.ErrExpired;
  for_early := jwt.jwt_error [jwt.ErrTokenInvalidClaims; jwt.ErrTokenNotValidYet] None
|}.

(** [r] is the answer to [tokenString] under [key] at [now], in the
    order of the checks: the three segments with a header and claims that
    decode; the signing method that the header declares; the signature
    segment; the family of the method; the signature; the validity
    window, with [leeway]; and the decoded claims when nothing is wrong. *)
Definition answers {C : Type} `{jwt.Claims C} `{jwt.Codec C} (a : Answers)
    (leeway : Z) (now : jwt.Time) (tokenString key : string)
    (r : option C * option jwt.error) : Prop :=
  ((forall h c p2 text, ~ segments tokenString h c p2 text) ->
     r = (None, Some (for_malformed a))) /\
  (forall h c p2 text, segments tokenString h c p2 text ->
     (declared_method h = None -> r = (None, Some (for_unknown_method a))) /\
     (forall m, declared_method h = Some m ->
        (jwt.DecodeSegment p2 = None -> r = (None, Some (for_malformed a))) /\
        (forall sig, jwt.DecodeSegment p2 = Some sig ->
           (~ hmac_family m -> r = (None, Some (for_other_method a (jwt.Alg m)))) /\
           (forall hash, m = jwt.SigningMethodHMAC hash ->
              (sig <> jwt.hmac hash key text ->
                 r = (None, Some (for_wrong_signature a))) /\
              (sig = jwt.hmac hash key text ->
                 (expired_at leeway now c -> ~ not_yet_valid leeway now c ->
                    r = (None, Some (for_expired a))) /\
                 (expired_at leeway now c -> not_yet_valid leeway now c ->
                    r = (None, Some (for_expired_and_early a))) /\
                 (~ expired_at leeway now c -> not_yet_valid leeway now c ->
                    r = (None, Some (for_early a))) /\
                 (~ expired_at leeway now c -> ~ not_yet_valid leeway now c ->
                    r = (Some c, None))))))).

(** ** Configuration *)

(** Decimal numerals: an optional sign, then one digit or more.
    [digits_value s n] is the number that the digits [s] make when they
    follow the digits of [n]. *)
Definition is_digit (c : ascii) : bool :=
  Z.leb 48 (strconv.byte c) && Z.leb (strconv.byte c) 57.

Fixpoint all_digits (s : string) : bool :=
  match s with
  | EmptyString => true
  | String c rest => is_digit c && all_digits rest
  end.

Fixpoint digits_value (s : string) (n : Z) : Z :=
  match s with
  | EmptyString => n
  | String c rest => digits_value rest (n * 10 + (strconv.byte c - 48))
  end.

Definition numeral (s : string) : option Z :=
  match s with
  | EmptyString => None
  | String c0 rest =>
    let digits := if Ascii.eqb c0 "+" || Ascii.eqb c0 "-" then rest else s in
    match digits with
    | EmptyString => None
    | _ =>
      if all_digits digits then
        Some (if Ascii.eqb c0 "-" then - digits_value digits 0 else digits_value digits 0)
      else None
    end
  end.

(** The range of [int]. *)
Definition fits_int (n : Z) : Prop := - 2 ^ 63 <= n < 2 ^ 63.

(** The value of a setting: that of the process environment when the
    variable is set there, else that of the file .env when there is one
    and it sets the variable, else the default. *)
Definition setting (dotenv : option config.Environ) (env : config.Environ)
    (key defaultValue : string) : string :=
  match env key with
  | Some value => value
  | None =>
    match dotenv with
    | Some envMap =>
      match envMap key with
      | Some value => value
      | None => defaultValue
      end
    | None => defaultValue
    end
  end.

(** ** Stores, faults, tokens and environments of the examples *)

Definition empty_db : database.DB := database.mkDB [] [] 0 0 false.

Definition dangling_db : database.DB :=
  database.mkDB []
    [database.mkAccountRow 7 3 "orphan" "hash" (Some 0) (Some 0) None (Some 0)]
    3 7 false.

Definition one_account_db : database.DB :=
  database.mkDB
    [database.mkLenderRow 1 "Updater Lender" "000-111-2222" "updater@example.com" 4
       (Some 1000) (Some 1000) (Some 1)]
    [database.mkAccountRow 1 1 "updateruser" "hashedpassupdate" (Some 1000) (Some 1000)
       None (Some 0)]
    1 1 false.

Definition commit_fails (code : Z) : database.Faults :=
  fun s => match s with database.AtCommit => Some code | _ => None end.

Definition rs256_token : string := "RS256.zNNN.".

(** An environment that sets one variable. *)
Definition only (key value : string) : config.Environ :=
  fun k => if String.eqb k key then Some value else None.

(** * Properties *)

(** ** Password policy *)

Section PasswordPolicy.

Import utils.

Lemma MatchString_iff (lo hi : ascii) (s : string) :
  MatchString lo hi s = true <->
  exists c, In c (list_ascii_of_string s) /\
            (nat_of_ascii lo <= nat_of_ascii c <= nat_of_ascii hi)%nat.
Proof.
  unfold MatchString, in_range. rewrite existsb_exists.
  split; intros [c [Hin Hc]]; exists c; split; trivial.
  - apply andb_true_iff in Hc. destruct Hc as [H1 H2].
    apply Nat.leb_le in H1. apply Nat.leb_le in H2. lia.
  - apply andb_true_iff. split; apply Nat.leb_le; lia.
Qed.

Lemma MatchString_upper (s : string) :
  MatchString "A" "Z" s = true <-> has_uppercase s.
Proof. apply MatchString_iff. Qed.

Lemma MatchString_digit (s : string) :
  MatchString "0" "9" s = true <-> has_digit s.
Proof. apply MatchString_iff. Qed.

(** C8.  ValidatePassword reports the first rule that the password
    breaks, in the order length, uppercase letter, digit, and nothing
    else: a password shorter than 8 gets the length message whatever
    else it lacks, and a password that keeps the three rules is
    accepted. *)
Theorem ValidatePassword_first_violation (password : string) :
  (~ long_enough password ->
     ValidatePassword password = Some msg_too_short) /\
  (long_enough password -> ~ has_uppercase password ->
     ValidatePassword password = Some msg_no_upper) /\
  (long_enough password -> has_uppercase password -> ~ has_digit password ->
     ValidatePassword password = Some msg_no_number) /\
  (long_enough password -> has_uppercase password -> has_digit password ->
     ValidatePassword password = None).
Proof.
  unfold ValidatePassword, long_enough.
  destruct (Nat.ltb_spec (String.length password) 8) as [Hlen | Hlen].
  - repeat split; intros; try lia; reflexivity.
  - destruct (MatchString "A" "Z" password) eqn:Hup; cbn [negb].
    + apply MatchString_upper in Hup.
      destruct (MatchString "0" "9" password) eqn:Hdig; cbn [negb].
      * apply MatchString_digit in Hdig.
        repeat split; intros; try lia; try reflexivity; contradiction.
      * assert (~ has_digit password) as Hnd
          by (intro Hd; apply MatchString_digit in Hd; congruence).
        repeat split; intros; try lia; try reflexivity; contradiction.
    + assert (~ has_uppercase password) as Hnu
        by (intro Hu; apply MatchString_upper in Hu; congruence).
      repeat split; intros; try lia; try reflexivity; contradiction.
Qed.

(** The inputs of the contract test: "short1" is too short and has no
    uppercase letter, and only the length is reported. *)
Lemma ValidatePassword_first_violation_witness :
  ~ long_enough "short1" /\
  ValidatePassword "short1" = Some msg_too_short.
Proof.
  assert (~ long_enough "short1") as H by (unfold long_enough; simpl; lia).
  split; [exact H | exact (proj1 (ValidatePassword_first_violation "short1") H)].
Defined.

Example ValidatePassword_contract_tests :
  ValidatePassword "StrongPass123" = None /\
  ValidatePassword "Short1" = Some msg_too_short /\
  ValidatePassword "nouppercase123" = Some msg_no_upper /\
  ValidatePassword "NoNumberTest" = Some msg_no_number /\
  ValidatePassword "" = Some msg_too_short.
Proof. repeat split. Qed.

End PasswordPolicy.

(** ** Credential store *)

Section CredentialStore.

Import database models repository.

Lemma find_none_iff {A : Type} (p : A -> bool) (l : list A) :
  find p l = None <-> forall x, In x l -> p x = false.
Proof.
  split.
  - intros H x Hx. exact (find_none p l H x Hx).
  - induction l as [| a l IH]; intros H; [reflexivity |].
    simpl. rewrite (H a (or_introl eq_refl)). apply IH.
    intros x Hx. apply H. right. exact Hx.
Qed.

Lemma find_snoc {A : Type} (p : A -> bool) (l : list A) (x : A) :
  (forall y, In y l -> p y = false) -> p x = true -> find p (l ++ [x]) = Some x.
Proof.
  induction l as [| a l IH]; intros Hl Hx; simpl.
  - rewrite Hx. reflexivity.
  - rewrite (Hl a (or_introl eq_refl)). apply IH; trivial.
    intros y Hy. apply Hl. right. exact Hy.
Qed.

Lemma existsb_false_iff {A : Type} (p : A -> bool) (l : list A) :
  existsb p l = false <-> forall x, In x l -> p x = false.
Proof.
  split.
  - intros H x Hx. destruct (p x) eqn:E; trivial.
    assert (existsb p l = true) by (apply existsb_exists; eauto). congruence.
  - intros H. destruct (existsb p l) eqn:E; trivial.
    apply existsb_exists in E. destruct E as [x [Hx Hp]].
    rewrite (H x Hx) in Hp. discriminate.
Qed.

(** *** Row identifiers *)

Lemma fold_max_ge (xs : list Z) (x : Z) :
  x <= fold_left Z.max xs x /\ forall y, In y xs -> y <= fold_left Z.max xs x.
Proof.
  revert x. induction xs as [| a xs IH]; intros x; simpl.
  - split; [lia | intros y []].
  - destruct (IH (Z.max x a)) as [H1 H2]. split; [lia |].
    intros y [-> | Hy]; [lia | auto].
Qed.

Lemma NewRowid_fresh (seq : Z) (ids : list Z) (x : Z) :
  In x ids -> x < NewRowid seq ids.
Proof.
  unfold NewRowid, max_rowid. destruct ids as [| a xs]; intros Hx; [destruct Hx |].
  destruct (fold_max_ge xs a) as [H1 H2].
  destruct Hx as [-> | Hx]; [lia | specialize (H2 x Hx); lia].
Qed.

Lemma NewRowid_positive (seq : Z) (ids : list Z) :
  0 <= seq -> 0 < NewRowid seq ids.
Proof. unfold NewRowid. lia. Qed.

(** *** The two inserts *)

Lemma insert_Lender_inr businessName phone email rate t1 t2 d id d' :
  insert_Lender businessName phone email rate t1 t2 d = inr (id, d') ->
  id = NewRowid (seq_Lenders d) (map Lender_ID (Lenders d)) /\
  d' = mkDB (Lenders d ++ [mkLenderRow id businessName phone email (REAL_affinity rate)
                             (Some t1) (Some t2) (Some 1)])
            (Accounts d) id (seq_Accounts d) (foreign_keys d).
Proof.
  unfold insert_Lender.
  destruct (PrimFloat.is_nan rate); [discriminate |].
  destruct (negb (check_Interest_Rate_Percent rate)); [discriminate |].
  destruct (existsb _ (Lenders d)); [discriminate |].
  intros H. injection H as <- <-. split; reflexivity.
Qed.

Lemma insert_Account_inr lenderID username passwordHash t1 t2 d id d' :
  insert_Account lenderID username passwordHash t1 t2 d = inr (id, d') ->
  id = NewRowid (seq_Accounts d) (map Account_ID (Accounts d)) /\
  d' = mkDB (Lenders d)
            (Accounts d ++ [mkAccountRow id lenderID username passwordHash
                              (Some t1) (Some t2) None (Some 0)])
            (seq_Lenders d) id (foreign_keys d).
Proof.
  unfold insert_Account.
  destruct (existsb _ (Accounts d)); [discriminate |].
  destruct (foreign_keys d && _); [discriminate |].
  intros H. injection H as <- <-. split; reflexivity.
Qed.

Lemma insert_Lender_email_taken businessName phone email rate t1 t2 d :
  email_taken d email ->
  exists err, insert_Lender businessName phone email rate t1 t2 d = inl err.
Proof.
  intros [r [Hr He]]. unfold insert_Lender.
  destruct (PrimFloat.is_nan rate); [eauto |].
  destruct (negb (check_Interest_Rate_Percent rate)); [eauto |].
  assert (existsb (fun r => String.eqb (Email r) email) (Lenders d) = true) as ->.
  { apply existsb_exists. exists r. split; trivial. apply String.eqb_eq. exact He. }
  eauto.
Qed.

Lemma insert_Account_username_taken lenderID username passwordHash t1 t2 d :
  username_taken d username ->
  exists err, insert_Account lenderID username passwordHash t1 t2 d = inl err.
Proof.
  intros [r [Hr He]]. unfold insert_Account.
  assert (existsb (fun r => String.eqb (Username r) username) (Accounts d) = true) as ->.
  { apply existsb_exists. exists r. split; trivial. apply String.eqb_eq. exact He. }
  eauto.
Qed.

Lemma insert_Lender_fresh businessName phone email rate t1 t2 d :
  rate_in_range rate -> ~ email_taken d email ->
  exists id d', insert_Lender businessName phone email rate t1 t2 d = inr (id, d').
Proof.
  intros [Hnan [H0 H100]] Hfree. unfold insert_Lender.
  rewrite Hnan. unfold check_Interest_Rate_Percent. rewrite H0, H100. cbn [andb negb].
  assert (existsb (fun r => String.eqb (Email r) email) (Lenders d) = false) as ->.
  { apply existsb_false_iff. intros r Hr. apply String.eqb_neq.
    intro He. apply Hfree. exists r. auto. }
  eauto.
Qed.

Lemma insert_Account_fresh lenderID username passwordHash t1 t2 d :
  ~ username_taken d username ->
  (exists l, In l (Lenders d) /\ Lender_ID l = lenderID) ->
  exists id d', insert_Account lenderID username passwordHash t1 t2 d = inr (id, d').
Proof.
  intros Hfree [l [Hl Hid]]. unfold insert_Account.
  assert (existsb (fun r => String.eqb (Username r) username) (Accounts d) = false) as ->.
  { apply existsb_false_iff. intros r Hr. apply String.eqb_neq.
    intro He. apply Hfree. exists r. auto. }
  assert (existsb (fun r => Z.eqb (Lender_ID r) lenderID) (Lenders d) = true) as ->.
  { apply existsb_exists. exists l. split; trivial. apply Z.eqb_eq. exact Hid. }
  rewrite andb_false_r. eauto.
Qed.

(** *** Lookups *)

Lemma QueryRow_no_rows {Row : Type} (f : Faults) (s : Site) (tbl : list Row)
    (where_ : Row -> bool) :
  f s = None -> (forall r, In r tbl -> where_ r = false) ->
  QueryRow f s tbl where_ = inl sql_ErrNoRows.
Proof.
  intros Hf Hnone. unfold QueryRow. rewrite Hf.
  rewrite (proj2 (find_none_iff where_ tbl) Hnone). reflexivity.
Qed.

(** C6.  When the store answers the query and no account row matches,
    GetAccountByUsername and GetAccountByID return no account and the
    sentinel ErrAccountNotFound, and so does GetLenderByAccountID; when the
    account exists and the lender it names does not, GetLenderByAccountID
    returns no lender and the other sentinel, ErrLenderNotFound. *)
Theorem not_found_sentinels (f : Faults) (c : Conn) :
  f AtQueryAccount = None ->
  (forall username, no_account_named (disk c) username ->
     GetAccountByUsername f username c = (None, Some ErrAccountNotFound)) /\
  (forall accountID, no_account_with_id (disk c) accountID ->
     GetAccountByID f accountID c = (None, Some ErrAccountNotFound)) /\
  (forall accountID, no_account_with_id (disk c) accountID ->
     GetLenderByAccountID f accountID c = (None, Some ErrAccountNotFound)) /\
  (forall accountID, f AtQueryLender = None ->
     account_without_lender (disk c) accountID ->
     GetLenderByAccountID f accountID c = (None, Some ErrLenderNotFound)) /\
  ErrAccountNotFound <> ErrLenderNotFound.
Proof.
  intros Hf. repeat split.
  - intros username Hnone.
    unfold GetAccountByUsername, QueryRow_Scan.
    rewrite QueryRow_no_rows; trivial.
    intros r Hr. apply String.eqb_neq. exact (Hnone r Hr).
  - intros accountID Hnone.
    unfold GetAccountByID, QueryRow_Scan.
    rewrite QueryRow_no_rows; trivial.
    intros r Hr. apply Z.eqb_neq. exact (Hnone r Hr).
  - intros accountID Hnone.
    unfold GetLenderByAccountID, QueryRow_Scan.
    rewrite QueryRow_no_rows; trivial.
    intros r Hr. apply Z.eqb_neq. exact (Hnone r Hr).
  - intros accountID Hfl [[r0 [Hr0 Hid0]] Hdangling].
    unfold GetLenderByAccountID, QueryRow_Scan.
    unfold QueryRow at 1. rewrite Hf.
    destruct (find (fun r => Z.eqb (Account_ID r) accountID) (Accounts (disk c)))
      as [r |] eqn:Hfind.
    + apply find_some in Hfind. destruct Hfind as [Hr Hid].
      apply Z.eqb_eq in Hid.
      rewrite QueryRow_no_rows; trivial.
      intros l Hl. apply Z.eqb_neq. exact (Hdangling r Hr Hid l Hl).
    + exfalso. apply (proj1 (find_none_iff _ _)) with (x := r0) in Hfind; trivial.
      apply Z.eqb_neq in Hfind. contradiction.
  - discriminate.
Qed.

(** A store with one account, number 7, whose lender, number 3, is gone:
    names and identifiers that match nothing are not found, and account 7
    has no lender. *)
Lemma not_found_sentinels_witness :
  GetAccountByUsername no_faults "nonexistent" (mkConn dangling_db None)
    = (None, Some ErrAccountNotFound) /\
  GetAccountByID no_faults 99999 (mkConn dangling_db None)
    = (None, Some ErrAccountNotFound) /\
  GetLenderByAccountID no_faults 99999 (mkConn dangling_db None)
    = (None, Some ErrAccountNotFound) /\
  GetLenderByAccountID no_faults 7 (mkConn dangling_db None)
    = (None, Some ErrLenderNotFound).
Proof.
  pose proof (not_found_sentinels no_faults (mkConn dangling_db None) eq_refl)
    as [H1 [H2 [H3 [H4 _]]]].
  split; [| split; [| split]].
  - apply H1. intros r [<- | []]. discriminate.
  - apply H2. intros r [<- | []]. discriminate.
  - apply H3. intros r [<- | []]. discriminate.
  - apply H4; [reflexivity |]. split.
    + exists (mkAccountRow 7 3 "orphan" "hash" (Some 0) (Some 0) None (Some 0)).
      split; [left; reflexivity | reflexivity].
    + intros r _ _ l [].
Defined.

(** *** UPDATE and its trigger *)

Section TriggerFacts.

Context {Row : Type} (key : Row -> Z) (stamp : Time -> Row -> Row).

Hypothesis key_stamp : forall t r, key (stamp t r) = key r.
Hypothesis stamp_idem : forall t r, stamp t (stamp t r) = stamp t r.

(** Running the trigger for the rows [olds] stamps the rows that share a
    key with one of them. *)
Lemma fold_trigger (sqlclock : Time) (olds tbl : list Row) :
  fold_left (fun t OLD => updated_at_trigger key stamp sqlclock OLD t) olds tbl =
  map (fun x => if existsb (fun o => Z.eqb (key x) (key o)) olds
                then stamp (CURRENT_TIMESTAMP sqlclock) x else x) tbl.
Proof.
  revert tbl. induction olds as [| o os IH]; intros tbl; simpl.
  - symmetry. apply map_id.
  - rewrite IH. unfold updated_at_trigger. rewrite map_map.
    apply map_ext. intros x.
    destruct (Z.eqb (key x) (key o)) eqn:E; cbn [orb].
    + rewrite key_stamp, stamp_idem. destruct (existsb _ os); reflexivity.
    + reflexivity.
Qed.

Lemma UPDATE_map (sqlclock : Time) (where_ : Row -> bool) (set : Row -> Row)
    (tbl : list Row) :
  UPDATE key stamp sqlclock where_ set tbl =
  map (fun r =>
         let r1 := if where_ r then set r else r in
         if existsb (fun o => Z.eqb (key r1) (key o)) (filter where_ tbl)
         then stamp (CURRENT_TIMESTAMP sqlclock) r1 else r1) tbl.
Proof.
  unfold UPDATE. rewrite fold_trigger, map_map. reflexivity.
Qed.

(** A row that the statement rewrites ends with the store's timestamp,
    whatever the statement assigned. *)
Lemma UPDATE_stamps (sqlclock : Time) (where_ : Row -> bool) (set : Row -> Row)
    (tbl : list Row) (r : Row) :
  (forall x, key (set x) = key x) -> In r tbl -> where_ r = true ->
  In (stamp (CURRENT_TIMESTAMP sqlclock) (set r)) (UPDATE key stamp sqlclock where_ set tbl).
Proof.
  intros Hset Hin Hw.
  rewrite UPDATE_map. apply in_map_iff. exists r. split; trivial.
  cbv zeta. rewrite Hw.
  assert (existsb (fun o => Z.eqb (key (set r)) (key o)) (filter where_ tbl) = true) as ->;
    [| reflexivity].
  apply existsb_exists. exists r. split; [apply filter_In; auto |].
  rewrite Hset. apply Z.eqb_refl.
Qed.

(** A primary key tells the rows of a table apart. *)
Lemma key_tells_rows_apart (tbl : list Row) (a b : Row) :
  NoDup (map key tbl) -> In a tbl -> In b tbl -> key a = key b -> a = b.
Proof.
  induction tbl as [| x tbl IH]; intros Hnd Ha Hb Hk; [contradiction |].
  cbn [map] in Hnd. inversion Hnd as [| k ks Hx Hnd']; subst.
  destruct Ha as [<- | Ha]; destruct Hb as [<- | Hb].
  - reflexivity.
  - exfalso. apply Hx. rewrite Hk. apply in_map. exact Hb.
  - exfalso. apply Hx. rewrite <- Hk. apply in_map. exact Ha.
  - apply IH; assumption.
Qed.

(** Where keys are not repeated, a statement that keeps the key rewrites
    and stamps the rows it selects, and those only. *)
Lemma UPDATE_unique_keys (sqlclock : Time) (where_ : Row -> bool) (set : Row -> Row)
    (tbl : list Row) :
  (forall x, key (set x) = key x) -> NoDup (map key tbl) ->
  UPDATE key stamp sqlclock where_ set tbl =
  map (fun r => if where_ r then stamp (CURRENT_TIMESTAMP sqlclock) (set r) else r) tbl.
Proof.
  intros Hset Hnd. rewrite UPDATE_map. apply map_ext_in. intros r Hr. cbv zeta.
  destruct (where_ r) eqn:Hw.
  - assert (existsb (fun o => Z.eqb (key (set r)) (key o)) (filter where_ tbl) = true) as ->;
      [| reflexivity].
    apply existsb_exists. exists r. split; [apply filter_In; auto |].
    rewrite Hset. apply Z.eqb_refl.
  - assert (existsb (fun o => Z.eqb (key r) (key o)) (filter where_ tbl) = false) as ->;
      [| reflexivity].
    apply existsb_false_iff. intros o Ho. apply filter_In in Ho. destruct Ho as [Ho Hwo].
    apply Z.eqb_neq. intros Hk.
    rewrite (key_tells_rows_apart tbl r o Hnd Hr Ho Hk) in Hw. congruence.
Qed.

End TriggerFacts.

Lemma UPDATE_Accounts_map (sqlclock : Time) (where_ : AccountRow -> bool)
    (set : AccountRow -> AccountRow) (tbl : list AccountRow) :
  UPDATE_Accounts sqlclock where_ set tbl =
  map (fun r =>
         let r1 := if where_ r then set r else r in
         if existsb (fun o => Z.eqb (Account_ID r1) (Account_ID o)) (filter where_ tbl)
         then set_Updated_At (CURRENT_TIMESTAMP sqlclock) r1 else r1) tbl.
Proof. apply UPDATE_map; reflexivity. Qed.

Lemma UPDATE_last_login (now sqlclock : Time) (accountID : Z) (tbl : list AccountRow) :
  UPDATE_Accounts sqlclock (fun r => Z.eqb (Account_ID r) accountID)
    (set_Last_Login now) tbl
  = map (logged_in now sqlclock accountID) tbl.
Proof.
  rewrite UPDATE_Accounts_map. apply map_ext_in. intros r Hr.
  unfold logged_in. cbv zeta.
  destruct (Z.eqb (Account_ID r) accountID) eqn:E.
  - assert (existsb (fun o => Z.eqb (Account_ID (set_Last_Login now r)) (Account_ID o))
              (filter (fun r => Z.eqb (Account_ID r) accountID) tbl) = true) as ->.
    { apply existsb_exists. exists r. split.
      - apply filter_In. auto.
      - apply Z.eqb_refl. }
    reflexivity.
  - assert (existsb (fun o => Z.eqb (Account_ID r) (Account_ID o))
              (filter (fun r => Z.eqb (Account_ID r) accountID) tbl) = false) as ->.
    { apply existsb_false_iff. intros o Ho. apply filter_In in Ho.
      destruct Ho as [_ Ho]. apply Z.eqb_eq in Ho. rewrite Ho. exact E. }
    reflexivity.
Qed.

Lemma map_logged_in_absent now sqlclock accountID tbl :
  (forall r, In r tbl -> Account_ID r <> accountID) ->
  map (logged_in now sqlclock accountID) tbl = tbl.
Proof.
  intros H. rewrite <- (map_id tbl) at 2. apply map_ext_in. intros r Hr.
  unfold logged_in. rewrite (proj2 (Z.eqb_neq _ _) (H r Hr)). reflexivity.
Qed.

Lemma find_map_logged_in now sqlclock accountID tbl :
  find (fun r => Z.eqb (Account_ID r) accountID) (map (logged_in now sqlclock accountID) tbl)
  = option_map (logged_in now sqlclock accountID)
      (find (fun r => Z.eqb (Account_ID r) accountID) tbl).
Proof.
  induction tbl as [| r tbl IH]; [reflexivity |]. simpl.
  assert (Account_ID (logged_in now sqlclock accountID r) = Account_ID r) as ->.
  { unfold logged_in. destruct (Z.eqb (Account_ID r) accountID); reflexivity. }
  destruct (Z.eqb (Account_ID r) accountID) eqn:E; [reflexivity | exact IH].
Qed.

(** C7.  When the store runs the statement, UpdateLastLogin returns no
    error; every row of the account then holds the current time as its
    last login, so that reading the account back shows it; and when no row
    has the identifier the call still returns no error and the connection
    is as it was. *)
Theorem UpdateLastLogin_best_effort (f : Faults) (now sqlclock : Time)
    (accountID : Z) (c : Conn) :
  f AtPrepareUpdate = None -> f AtExecUpdate = None ->
  let r := UpdateLastLogin f now sqlclock accountID c in
  fst r = None /\
  (forall row, In row (Accounts (disk c)) -> Account_ID row = accountID ->
     exists row', In row' (Accounts (disk (snd r))) /\
                  Account_ID row' = accountID /\ Last_Login row' = Some now) /\
  (forall row', In row' (Accounts (disk (snd r))) -> Account_ID row' = accountID ->
     Last_Login row' = Some now) /\
  (forall g account, GetAccountByID g accountID c = (Some account, None) ->
     exists account', GetAccountByID g accountID (snd r) = (Some account', None) /\
                      LastLogin account' = Some now /\
                      AccountID account' = AccountID account /\
                      AccountUsername account' = AccountUsername account) /\
  (no_account_with_id (disk c) accountID -> snd r = c).
Proof.
  intros Hp He. unfold UpdateLastLogin, Prepare. rewrite Hp, He. cbn [fst snd].
  rewrite UPDATE_last_login. cbn [disk with_Accounts Accounts].
  split; [reflexivity |]. split; [| split; [| split]].
  - intros row Hin Hid. exists (logged_in now sqlclock accountID row).
    split; [apply in_map; exact Hin |].
    unfold logged_in. rewrite (proj2 (Z.eqb_eq _ _) Hid). cbn. auto.
  - intros row' Hin Hid. apply in_map_iff in Hin. destruct Hin as [row [<- Hin]].
    revert Hid. unfold logged_in.
    destruct (Z.eqb (Account_ID row) accountID) eqn:E; cbn; [reflexivity |].
    intros Hid. apply Z.eqb_neq in E. contradiction.
  - intros g account. unfold GetAccountByID, QueryRow_Scan, QueryRow.
    cbn [disk with_Accounts Accounts]. destruct (g AtQueryAccount); [discriminate |].
    rewrite find_map_logged_in.
    destruct (find (fun r => Z.eqb (Account_ID r) accountID) (Accounts (disk c)))
      as [row |] eqn:Hfind; cbn [option_map]; [| discriminate].
    apply find_some in Hfind. destruct Hfind as [_ Hid].
    unfold logged_in. rewrite Hid. unfold scan_Account. cbn.
    destruct (scan_Time "Created_At" (A_Created_At row)) as [e | createdAt];
      [destruct (is_ErrNoRows e); discriminate |].
    destruct (scan_Time "Updated_At" (A_Updated_At row)) as [e | updatedAt];
      [destruct (is_ErrNoRows e); discriminate |].
    destruct (scan_bool "Is_Locked" (Is_Locked row)) as [e | isLocked];
      [destruct (is_ErrNoRows e); discriminate |].
    intros H. injection H as <-. eexists. split; [reflexivity |]. cbn. auto.
  - intros Hnone. rewrite map_logged_in_absent by exact Hnone.
    destruct c as [[ls as_ sl sa fk] t]. reflexivity.
Qed.

(** The login of account 1 is recorded, and a login of account 99999,
    which does not exist, returns no error. *)
Lemma UpdateLastLogin_best_effort_witness :
  fst (UpdateLastLogin no_faults 5000 5000 1 (mkConn one_account_db None)) = None /\
  fst (UpdateLastLogin no_faults 5000 5000 99999 (mkConn one_account_db None)) = None /\
  snd (UpdateLastLogin no_faults 5000 5000 99999 (mkConn one_account_db None))
    = mkConn one_account_db None.
Proof.
  pose proof (UpdateLastLogin_best_effort no_faults 5000 5000 1
                (mkConn one_account_db None) eq_refl eq_refl) as H1.
  pose proof (UpdateLastLogin_best_effort no_faults 5000 5000 99999
                (mkConn one_account_db None) eq_refl eq_refl) as H2.
  cbv zeta in H1, H2.
  destruct H1 as [H1 _]. destruct H2 as [H2 [_ [_ [_ H3]]]].
  split; [exact H1 | split; [exact H2 |]].
  apply H3. intros r [<- | []]. discriminate.
Defined.

(** *** The onboarding transaction *)

Lemma created_intro (d : DB) (now : Time)
    (businessName email phone username passwordHash : string) (interestRate : float)
    (lenderID accountID : Z) (w1 w2 : DB) :
  insert_Lender businessName phone email interestRate now now d = inr (lenderID, w1) ->
  insert_Account lenderID username passwordHash now now w1 = inr (accountID, w2) ->
  created d w2 accountID now businessName email phone username passwordHash interestRate.
Proof.
  intros HL HA.
  apply insert_Lender_inr in HL. destruct HL as [Hlid ->].
  apply insert_Account_inr in HA. cbn [Accounts Lenders seq_Accounts seq_Lenders foreign_keys] in HA.
  destruct HA as [Haid ->].
  assert (forall r, In r (Accounts d) -> Z.eqb (Account_ID r) accountID = false) as Hfa.
  { intros r Hr. apply Z.eqb_neq.
    assert (Account_ID r < accountID); [| lia].
    rewrite Haid. apply NewRowid_fresh. apply in_map. exact Hr. }
  assert (forall l, In l (Lenders d) -> Z.eqb (Lender_ID l) lenderID = false) as Hfl.
  { intros l Hl. apply Z.eqb_neq.
    assert (Lender_ID l < lenderID); [| lia].
    rewrite Hlid. apply NewRowid_fresh. apply in_map. exact Hl. }
  exists lenderID. cbn [Accounts Lenders].
  split; [reflexivity |]. split; [reflexivity |].
  split; [intros r Hr; apply Z.eqb_neq; auto |].
  split; [intros l Hl; apply Z.eqb_neq; auto |].
  split.
  - unfold GetAccountByID, QueryRow_Scan, QueryRow, no_faults. cbn [disk Accounts].
    rewrite find_snoc; [reflexivity | exact Hfa | apply Z.eqb_refl].
  - unfold GetLenderByAccountID, QueryRow_Scan, QueryRow, no_faults. cbn [disk Accounts Lenders].
    rewrite find_snoc; [| exact Hfa | apply Z.eqb_refl].
    cbn [new_account_row A_Lender_ID].
    rewrite find_snoc; [reflexivity | exact Hfl | apply Z.eqb_refl].
Qed.

(** The two ways CreateLenderAndAccount ends: with an error, the visible
    store untouched; or without, both inserts having run on the working
    copy that the commit made visible. *)
Lemma CreateLenderAndAccount_outcome (f : Faults) (now : Time)
    (businessName email phone username passwordHash : string) (interestRate : float)
    (c : Conn) :
  let r := CreateLenderAndAccount f now businessName email phone username passwordHash
             interestRate c in
  (snd (fst r) <> None /\ disk (snd r) = disk c /\ (txn c = None -> txn (snd r) = None)) \/
  (snd (fst r) = None /\ txn c = None /\ txn (snd r) = None /\
   exists lenderID w1,
     insert_Lender businessName phone email interestRate now now (disk c)
       = inr (lenderID, w1) /\
     insert_Account lenderID username passwordHash now now w1
       = inr (fst (fst r), disk (snd r))).
Proof.
  cbv zeta. unfold CreateLenderAndAccount, Begin.
  destruct (f AtBegin) as [code |];
    [left; cbn; repeat split; trivial; discriminate |].
  destruct (txn c) as [open |] eqn:Htxn;
    [left; cbn; repeat split; trivial; discriminate |].
  unfold defer_Rollback, or_return0, pure_step, check, Prepare, tx_Exec, LastInsertId.
  cbn [txn disk].
  destruct (f AtPrepareLender) as [code |];
    [left; cbn; repeat split; trivial; discriminate |].
  destruct (f AtExecLender) as [code |];
    [left; cbn; repeat split; trivial; discriminate |].
  destruct (insert_Lender businessName phone email interestRate now now (disk c))
    as [e | [resLender w1]] eqn:HL;
    [left; cbn; repeat split; trivial; discriminate |].
  cbn [txn disk].
  destruct (f AtLastInsertIdLender) as [code |];
    [left; cbn; repeat split; trivial; discriminate |].
  destruct (f AtPrepareAccount) as [code |];
    [left; cbn; repeat split; trivial; discriminate |].
  destruct (f AtExecAccount) as [code |];
    [left; cbn; repeat split; trivial; discriminate |].
  destruct (insert_Account resLender username passwordHash now now w1)
    as [e | [resAccount w2]] eqn:HA;
    [left; cbn; repeat split; trivial; discriminate |].
  cbn [txn disk].
  destruct (f AtLastInsertIdAccount) as [code |];
    [left; cbn; repeat split; trivial; discriminate |].
  unfold Commit. cbn [txn disk].
  destruct (f AtCommit) as [code |];
    [left; cbn; repeat split; trivial; discriminate |].
  right. cbn [fst snd Rollback txn disk].
  repeat split. exists resLender, w1. split; [reflexivity | exact HA].
Qed.

(** On an idle connection, with inputs that the schema accepts and a store
    that fails at the commit at most, both inserts run and the outcome is
    the commit's. *)
Lemma CreateLenderAndAccount_reaches_commit (f : Faults) (now : Time)
    (businessName email phone username passwordHash : string) (interestRate : float)
    (c : Conn) :
  txn c = None -> fails_only_at_commit f ->
  rate_in_range interestRate ->
  ~ email_taken (disk c) email -> ~ username_taken (disk c) username ->
  exists lenderID w1 accountID w2,
    insert_Lender businessName phone email interestRate now now (disk c)
      = inr (lenderID, w1) /\
    insert_Account lenderID username passwordHash now now w1 = inr (accountID, w2) /\
    CreateLenderAndAccount f now businessName email phone username passwordHash
      interestRate c
    = match f AtCommit with
      | Some code => ((accountID, Some (driver_Error code)), mkConn (disk c) None)
      | None => ((accountID, None), mkConn w2 None)
      end.
Proof.
  intros Htxn Hf Hrate Hemail Huser.
  destruct (insert_Lender_fresh businessName phone email interestRate now now
              (disk c) Hrate Hemail) as [lenderID [w1 HL]].
  pose proof HL as HL'. apply insert_Lender_inr in HL'. destruct HL' as [Hlid Hw1].
  assert (exists accountID w2,
            insert_Account lenderID username passwordHash now now w1
            = inr (accountID, w2)) as [accountID [w2 HA]].
  { apply insert_Account_fresh.
    - rewrite Hw1. exact Huser.
    - rewrite Hw1. cbn [Lenders]. eexists. split.
      + apply in_or_app. right. left. reflexivity.
      + reflexivity. }
  exists lenderID, w1, accountID, w2.
  split; [exact HL | split; [exact HA |]].
  unfold CreateLenderAndAccount, Begin.
  rewrite (Hf AtBegin) by discriminate. rewrite Htxn.
  unfold defer_Rollback, or_return0, pure_step, check, Prepare, tx_Exec, LastInsertId.
  cbn [txn disk].
  rewrite (Hf AtPrepareLender), (Hf AtExecLender) by discriminate.
  rewrite HL. cbn [txn disk].
  rewrite (Hf AtLastInsertIdLender), (Hf AtPrepareAccount), (Hf AtExecAccount)
    by discriminate.
  rewrite HA. cbn [txn disk].
  rewrite (Hf AtLastInsertIdAccount) by discriminate.
  unfold Commit. cbn [txn disk].
  destruct (f AtCommit); reflexivity.
Qed.

(** C1.  Whatever fails in CreateLenderAndAccount (the store at any call,
    a constraint at either insert, the commit), what readers see of the
    store is what it was before the call; an email or a username already
    in use makes the call fail; and when the call returns no error, the
    store holds one lender and one account more, the returned identifier
    is the new account's, both rows are read back through the repository,
    and the transaction is closed.  The call does return no error when
    the connection is idle, the store answers, the rate is in range and
    the email and the username are free. *)
Theorem CreateLenderAndAccount_atomic (f : Faults) (now : Time)
    (businessName email phone username passwordHash : string) (interestRate : float)
    (c : Conn) :
  let r := CreateLenderAndAccount f now businessName email phone username passwordHash
             interestRate c in
  let accountID := fst (fst r) in
  let err := snd (fst r) in
  let c' := snd r in
  (err <> None -> disk c' = disk c) /\
  (email_taken (disk c) email -> err <> None) /\
  (username_taken (disk c) username -> err <> None) /\
  (err = None ->
     txn c' = None /\
     created (disk c) (disk c') accountID now businessName email phone username
       passwordHash interestRate) /\
  (txn c = None -> txn c' = None) /\
  (txn c = None -> store_answers f -> rate_in_range interestRate ->
   ~ email_taken (disk c) email -> ~ username_taken (disk c) username ->
   err = None).
Proof.
  cbv zeta.
  assert (txn c = None -> store_answers f -> rate_in_range interestRate ->
          ~ email_taken (disk c) email -> ~ username_taken (disk c) username ->
          snd (fst (CreateLenderAndAccount f now businessName email phone username
                      passwordHash interestRate c)) = None) as Hsucceeds.
  { intros Htxn Hf Hrate Hemail Huser.
    destruct (CreateLenderAndAccount_reaches_commit f now businessName email phone
                username passwordHash interestRate c Htxn
                (fun s _ => Hf s) Hrate Hemail Huser)
      as [lenderID [w1 [accountID [w2 [_ [_ Hrun]]]]]].
    rewrite Hrun, (Hf AtCommit). reflexivity. }
  destruct (CreateLenderAndAccount_outcome f now businessName email phone username
              passwordHash interestRate c)
    as [[Herr [Hdisk Htx]] | [Herr [Hidle [Htx [lenderID [w1 [HL HA]]]]]]].
  - split; [intros _; exact Hdisk |].
    split; [intros _; exact Herr |].
    split; [intros _; exact Herr |].
    split; [intros Habs; contradiction |].
    split; [exact Htx | exact Hsucceeds].
  - split; [intros; contradiction |].
    split.
    { intros Htaken _.
      destruct (insert_Lender_email_taken businessName phone email interestRate now now
                  (disk c) Htaken) as [e He]. congruence. }
    split.
    { intros Htaken _.
      pose proof HL as HL'. apply insert_Lender_inr in HL'. destruct HL' as [_ Hw1].
      assert (username_taken w1 username) as Htaken' by (rewrite Hw1; exact Htaken).
      destruct (insert_Account_username_taken lenderID username passwordHash now now
                  w1 Htaken') as [e He]. congruence. }
    split; [| split; [intros _; exact Htx | exact Hsucceeds]].
    intros _. split; [exact Htx |].
    exact (created_intro _ _ _ _ _ _ _ _ _ _ _ _ HL HA).
Qed.

(** The first onboarding of the tests, on an empty store: it returns no
    error, and the lender and the account are there, the account under the
    identifier returned. *)
Lemma CreateLenderAndAccount_atomic_witness :
  let r := CreateLenderAndAccount no_faults 1000 "Lender Business" "lender@example.com"
             "123-456-7890" "lenderuser" "hashedpassword" 5 (mkConn empty_db None) in
  snd (fst r) = None /\
  created empty_db (disk (snd r)) (fst (fst r)) 1000 "Lender Business"
    "lender@example.com" "123-456-7890" "lenderuser" "hashedpassword" 5.
Proof.
  cbv zeta.
  pose proof (CreateLenderAndAccount_atomic no_faults 1000 "Lender Business"
                "lender@example.com" "123-456-7890" "lenderuser" "hashedpassword" 5
                (mkConn empty_db None)) as H.
  cbv zeta in H. destruct H as [_ [_ [_ [Hcreated [_ Hsucceeds]]]]].
  assert (snd (fst (CreateLenderAndAccount no_faults 1000 "Lender Business"
                      "lender@example.com" "123-456-7890" "lenderuser" "hashedpassword" 5
                      (mkConn empty_db None))) = None) as Herr.
  { apply Hsucceeds.
    - reflexivity.
    - intros s. reflexivity.
    - repeat split.
    - intros [r [[] _]].
    - intros [r [[] _]]. }
  split; [exact Herr | exact (proj2 (Hcreated Herr))].
Defined.

(** A rate of negative zero is in range; the lender is read back with a
    rate of zero. *)
Example negative_zero_rate_is_read_back_as_zero :
  let r := CreateLenderAndAccount no_faults 1000 "Lender Business" "lender@example.com"
             "123-456-7890" "lenderuser" "hashedpassword" (-0)%float
             (mkConn empty_db None) in
  fst r = (1, None) /\
  GetLenderByAccountID no_faults 1 (snd r)
  = (Some (mkLender 1 "Lender Business" "123-456-7890" "lender@example.com" 0
             1000 1000 true), None) /\
  REAL_affinity (-0)%float <> (-0)%float.
Proof.
  vm_compute. repeat split.
  intros H. apply (f_equal PrimFloat.classify) in H. vm_compute in H. discriminate H.
Qed.

(** C10.  On an idle connection, when everything up to the commit
    succeeds and the commit fails,
    CreateLenderAndAccount returns the commit's error together with the
    identifier the store had given to the account, which is not 0; the
    store is as before the call, and no account has that identifier. *)
Theorem commit_failure_returns_identifier (f : Faults) (now : Time)
    (businessName email phone username passwordHash : string) (interestRate : float)
    (c : Conn) (code : Z) :
  txn c = None ->
  fails_only_at_commit f -> f AtCommit = Some code ->
  rate_in_range interestRate ->
  ~ email_taken (disk c) email -> ~ username_taken (disk c) username ->
  0 <= seq_Accounts (disk c) ->
  let accountID := NewRowid (seq_Accounts (disk c)) (map Account_ID (Accounts (disk c))) in
  CreateLenderAndAccount f now businessName email phone username passwordHash
    interestRate c
  = ((accountID, Some (driver_Error code)), mkConn (disk c) None) /\
  accountID <> 0 /\
  GetAccountByID no_faults accountID (mkConn (disk c) None)
  = (None, Some ErrAccountNotFound).
Proof.
  intros Htxn Hf Hcommit Hrate Hemail Huser Hseq. cbv zeta.
  split; [| split].
  - destruct (CreateLenderAndAccount_reaches_commit f now businessName email phone
                username passwordHash interestRate c Htxn Hf Hrate Hemail Huser)
      as [lenderID [w1 [accountID [w2 [HL [HA Hrun]]]]]].
    rewrite Hrun, Hcommit.
    apply insert_Lender_inr in HL. destruct HL as [_ Hw1].
    apply insert_Account_inr in HA. destruct HA as [-> _].
    rewrite Hw1. reflexivity.
  - pose proof (NewRowid_positive (seq_Accounts (disk c))
                  (map Account_ID (Accounts (disk c))) Hseq). lia.
  - unfold GetAccountByID, QueryRow_Scan. rewrite QueryRow_no_rows; trivial.
    intros r Hr. apply Z.eqb_neq.
    pose proof (NewRowid_fresh (seq_Accounts (disk c))
                  (map Account_ID (Accounts (disk c))) (Account_ID r)
                  (in_map Account_ID _ _ Hr)). lia.
Qed.

(** On the one-account store, with a store that fails the commit with
    code 5: the call returns identifier 2 and the error, and the store
    still holds account 1 only. *)
Lemma commit_failure_returns_identifier_witness :
  CreateLenderAndAccount (commit_fails 5) 2000 "Another Business" "another@example.com"
    "987-654-3210" "anotheruser" "anotherhash" 6 (mkConn one_account_db None)
  = ((2, Some (driver_Error 5)), mkConn one_account_db None).
Proof.
  refine (proj1 (commit_failure_returns_identifier (commit_fails 5) 2000
                   "Another Business" "another@example.com" "987-654-3210"
                   "anotheruser" "anotherhash" 6 (mkConn one_account_db None) 5
                   eq_refl _ eq_refl _ _ _ _)).
  - intros s Hs. destruct s; try reflexivity. contradiction.
  - repeat split.
  - intros [r [[<- | []] He]]. discriminate.
  - intros [r [[<- | []] He]]. discriminate.
  - cbn. lia.
Defined.

(** X1.  On an idle connection and a store that answers, an onboarding
    whose rate is in range and whose email and username are free returns
    no error and an identifier that is not 0, and reading the account back
    by that identifier gives the username that was passed. *)
Theorem CreateLenderAndAccount_succeeds (f : Faults) (now : Time)
    (businessName email phone username passwordHash : string) (interestRate : float)
    (c : Conn) :
  txn c = None -> store_answers f ->
  rate_in_range interestRate ->
  ~ email_taken (disk c) email -> ~ username_taken (disk c) username ->
  0 <= seq_Accounts (disk c) ->
  let r := CreateLenderAndAccount f now businessName email phone username passwordHash
             interestRate c in
  snd (fst r) = None /\
  fst (fst r) <> 0 /\
  exists account,
    GetAccountByID f (fst (fst r)) (snd r) = (Some account, None) /\
    AccountID account = fst (fst r) /\
    AccountUsername account = username /\
    LastLogin account = None.
Proof.
  intros Htxn Hf Hrate Hemail Huser Hseq. cbv zeta.
  destruct (CreateLenderAndAccount_reaches_commit f now businessName email phone
              username passwordHash interestRate c Htxn
              (fun s _ => Hf s) Hrate Hemail Huser)
    as [lenderID [w1 [accountID [w2 [HL [HA Hrun]]]]]].
  rewrite Hrun, (Hf AtCommit). cbn [fst snd].
  split; [reflexivity |]. split.
  - pose proof HL as HL'. apply insert_Lender_inr in HL'. destruct HL' as [_ Hw1].
    pose proof HA as HA'. apply insert_Account_inr in HA'. destruct HA' as [-> _].
    rewrite Hw1. cbn [seq_Accounts Accounts].
    pose proof (NewRowid_positive (seq_Accounts (disk c))
                  (map Account_ID (Accounts (disk c))) Hseq). lia.
  - destruct (created_intro _ _ _ _ _ _ _ _ _ _ _ _ HL HA)
      as [lenderID' [_ [_ [_ [_ [Hget _]]]]]].
    eexists. split.
    + unfold GetAccountByID, QueryRow_Scan, QueryRow in *.
      rewrite (Hf AtQueryAccount). exact Hget.
    + cbn. auto.
Qed.

(** *** Writes and the last-modified timestamp *)

(** C9.  Every write of the repository leaves Updated_At of the rows it
    writes at the time of the write, whatever the arguments of the call.
    The lender and the account that a successful CreateLenderAndAccount
    inserts carry, as Updated_At, the time that the call read from the
    clock, and the rows that were there before are as they were.  An
    UPDATE of Accounts, or of Lenders, that keeps the primary key leaves
    Updated_At of every row it rewrites at the store's CURRENT_TIMESTAMP,
    whatever the statement itself assigns to that column, the other
    columns being as the statement sets them; where keys are not repeated
    the rows it does not select are as they were.  And a successful
    UpdateLastLogin changes, in the rows of the account, Last_Login and
    Updated_At only (identifier, lender, username, password hash,
    created-at and locked flag are copied), and no other row, nor the
    Lenders table. *)
Theorem writes_maintain_Updated_At (f : Faults) (now sqlclock : Time)
    (businessName email phone username passwordHash : string) (interestRate : float)
    (accountID : Z) (c : Conn) :
  (let r := CreateLenderAndAccount f now businessName email phone username passwordHash
              interestRate c in
   snd (fst r) = None ->
   exists l a,
     Lenders (disk (snd r)) = (Lenders (disk c) ++ [l])%list /\
     Accounts (disk (snd r)) = (Accounts (disk c) ++ [a])%list /\
     Account_ID a = fst (fst r) /\ A_Lender_ID a = Lender_ID l /\
     L_Updated_At l = Some now /\ A_Updated_At a = Some now) /\
  (forall (where_ : AccountRow -> bool) (set : AccountRow -> AccountRow)
          (tbl : list AccountRow),
     (forall x, Account_ID (set x) = Account_ID x) ->
     let rewritten r :=
       mkAccountRow (Account_ID r) (A_Lender_ID (set r)) (Username (set r))
         (Password_Hash (set r)) (A_Created_At (set r))
         (Some (CURRENT_TIMESTAMP sqlclock)) (Last_Login (set r)) (Is_Locked (set r)) in
     (forall r, In r tbl -> where_ r = true ->
        In (rewritten r) (UPDATE_Accounts sqlclock where_ set tbl)) /\
     (NoDup (map Account_ID tbl) ->
        UPDATE_Accounts sqlclock where_ set tbl
        = map (fun r => if where_ r then rewritten r else r) tbl)) /\
  (forall (where_ : LenderRow -> bool) (set : LenderRow -> LenderRow)
          (tbl : list LenderRow),
     (forall x, Lender_ID (set x) = Lender_ID x) ->
     let rewritten r :=
       mkLenderRow (Lender_ID r) (Business_Name (set r)) (Phone_Number (set r))
         (Email (set r)) (Interest_Rate_Percent (set r)) (L_Created_At (set r))
         (Some (CURRENT_TIMESTAMP sqlclock)) (Is_Active (set r)) in
     (forall r, In r tbl -> where_ r = true ->
        In (rewritten r) (UPDATE_Lenders sqlclock where_ set tbl)) /\
     (NoDup (map Lender_ID tbl) ->
        UPDATE_Lenders sqlclock where_ set tbl
        = map (fun r => if where_ r then rewritten r else r) tbl)) /\
  (fst (UpdateLastLogin f now sqlclock accountID c) = None ->
   let d' := disk (snd (UpdateLastLogin f now sqlclock accountID c)) in
   Accounts d' = map (logged_in now sqlclock accountID) (Accounts (disk c)) /\
   Lenders d' = Lenders (disk c) /\
   (forall r, In r (Accounts (disk c)) ->
      let r' := logged_in now sqlclock accountID r in
      Account_ID r' = Account_ID r /\ A_Lender_ID r' = A_Lender_ID r /\
      Username r' = Username r /\ Password_Hash r' = Password_Hash r /\
      A_Created_At r' = A_Created_At r /\ Is_Locked r' = Is_Locked r /\
      (Account_ID r = accountID ->
         A_Updated_At r' = Some (CURRENT_TIMESTAMP sqlclock) /\ Last_Login r' = Some now) /\
      (Account_ID r <> accountID -> r' = r))).
Proof.
  split; [| split; [| split]].
  - cbv zeta.
    destruct (CreateLenderAndAccount_outcome f now businessName email phone username
                passwordHash interestRate c)
      as [[Herr _] | [_ [_ [_ [lenderID [w1 [HL HA]]]]]]]; [intros; contradiction |].
    intros _.
    apply insert_Lender_inr in HL. destruct HL as [_ ->].
    apply insert_Account_inr in HA.
    cbn [Accounts Lenders seq_Accounts seq_Lenders foreign_keys] in HA.
    destruct HA as [Hid ->].
    eexists. eexists. cbn [Accounts Lenders].
    split; [reflexivity |]. split; [reflexivity |].
    cbn [Account_ID A_Lender_ID Lender_ID L_Updated_At A_Updated_At].
    repeat split.
  - intros where_ set tbl Hset. cbv zeta. split.
    + intros r Hin Hw. rewrite <- (Hset r).
      exact (UPDATE_stamps Account_ID set_Updated_At (fun _ _ => eq_refl) (fun _ _ => eq_refl)
               sqlclock where_ set tbl r Hset Hin Hw).
    + intros Hnd. unfold UPDATE_Accounts.
      rewrite (UPDATE_unique_keys Account_ID set_Updated_At (fun _ _ => eq_refl)
                 (fun _ _ => eq_refl) sqlclock where_ set tbl Hset Hnd).
      apply map_ext. intros r. destruct (where_ r); [| reflexivity].
      rewrite <- (Hset r). reflexivity.
  - intros where_ set tbl Hset. cbv zeta. split.
    + intros r Hin Hw. rewrite <- (Hset r).
      exact (UPDATE_stamps Lender_ID set_L_Updated_At (fun _ _ => eq_refl) (fun _ _ => eq_refl)
               sqlclock where_ set tbl r Hset Hin Hw).
    + intros Hnd. unfold UPDATE_Lenders.
      rewrite (UPDATE_unique_keys Lender_ID set_L_Updated_At (fun _ _ => eq_refl)
                 (fun _ _ => eq_refl) sqlclock where_ set tbl Hset Hnd).
      apply map_ext. intros r. destruct (where_ r); [| reflexivity].
      rewrite <- (Hset r). reflexivity.
  - unfold UpdateLastLogin, Prepare.
    destruct (f AtPrepareUpdate); [discriminate |].
    destruct (f AtExecUpdate); [discriminate |].
    intros _. cbn [snd disk with_Accounts Accounts Lenders].
    rewrite UPDATE_last_login. split; [reflexivity |]. split; [reflexivity |].
    intros r _. unfold logged_in.
    destruct (Z.eqb (Account_ID r) accountID) eqn:E; cbn.
    + apply Z.eqb_eq in E. repeat split; trivial; intros; contradiction.
    + apply Z.eqb_neq in E. repeat split; trivial; intros; contradiction.
Qed.

(** The onboarding of the tests at 1 s, and then the login of the account
    at 5.3 s with the store's clock at 5.9 s: the two rows are inserted
    with Updated_At 1 s, and after the login the account reads Last_Login
    5.3 s and Updated_At 5 s and is otherwise as before. *)
Lemma writes_maintain_Updated_At_witness :
  let c1 := snd (CreateLenderAndAccount no_faults 1000000000 "Updater Lender"
                   "updater@example.com" "000-111-2222" "updateruser" "hashedpassupdate" 4
                   (mkConn empty_db None)) in
  let c2 := snd (UpdateLastLogin no_faults 5300000000 5900000000 1 c1) in
  map L_Updated_At (Lenders (disk c1)) = [Some 1000000000] /\
  map A_Updated_At (Accounts (disk c1)) = [Some 1000000000] /\
  Accounts (disk c2)
  = [mkAccountRow 1 1 "updateruser" "hashedpassupdate" (Some 1000000000)
       (Some 5000000000) (Some 5300000000) (Some 0)].
Proof.
  cbv zeta.
  destruct (writes_maintain_Updated_At no_faults 1000000000 0 "Updater Lender"
              "updater@example.com" "000-111-2222" "updateruser" "hashedpassupdate" 4
              1 (mkConn empty_db None)) as [Hinsert _].
  destruct (Hinsert eq_refl) as [l [a [HL [HA [_ [_ [HLu HAu]]]]]]].
  rewrite HL, HA. cbn [empty_db disk Lenders Accounts app map]. rewrite HLu, HAu.
  split; [reflexivity |]. split; [reflexivity |].
  destruct (writes_maintain_Updated_At no_faults 5300000000 5900000000 "" "" "" "" "" 0
              1 (snd (CreateLenderAndAccount no_faults 1000000000 "Updater Lender"
                        "updater@example.com" "000-111-2222" "updateruser"
                        "hashedpassupdate" 4 (mkConn empty_db None))))
    as [_ [_ [_ Hlogin]]].
  destruct (Hlogin eq_refl) as [H1 _]. rewrite H1. reflexivity.
Defined.

(** The trigger finds a row by the key it had before the statement: a
    statement that gives a row another key, which the repository never
    does, leaves Updated_At as the statement has it. *)
Example key_change_is_not_stamped :
  UPDATE_Accounts 5900000000 (fun r => Z.eqb (Account_ID r) 1)
    (fun r => mkAccountRow 99 (A_Lender_ID r) (Username r) (Password_Hash r)
                (A_Created_At r) (A_Updated_At r) (Last_Login r) (Is_Locked r))
    (Accounts one_account_db)
  = [mkAccountRow 99 1 "updateruser" "hashedpassupdate" (Some 1000) (Some 1000)
       None (Some 0)].
Proof. reflexivity. Qed.

(** *** The invariant of the store *)

Lemma NoDup_snoc {A : Type} (l : list A) (x : A) :
  NoDup l -> ~ In x l -> NoDup (l ++ [x]).
Proof.
  induction l as [| a l IH]; intros Hl Hx; simpl.
  - constructor; [intros [] | constructor].
  - inversion Hl as [| a' l' Ha Hl']; subst. constructor.
    + intros Hin. apply in_app_or in Hin. destruct Hin as [Hin | [-> | []]].
      * contradiction.
      * apply Hx. left. reflexivity.
    + apply IH; trivial. intros Hin. apply Hx. right. exact Hin.
Qed.

Lemma insert_Lender_inr_free businessName phone email rate t1 t2 d id d' :
  insert_Lender businessName phone email rate t1 t2 d = inr (id, d') ->
  ~ In email (map Email (Lenders d)).
Proof.
  intros H Hin. apply in_map_iff in Hin. destruct Hin as [r [Hr Hin]].
  destruct (insert_Lender_email_taken businessName phone email rate t1 t2 d
              (ex_intro _ r (conj Hin Hr))) as [e He].
  congruence.
Qed.

Lemma insert_Account_inr_free lenderID username passwordHash t1 t2 d id d' :
  insert_Account lenderID username passwordHash t1 t2 d = inr (id, d') ->
  ~ In username (map Username (Accounts d)).
Proof.
  intros H Hin. apply in_map_iff in Hin. destruct Hin as [r [Hr Hin]].
  destruct (insert_Account_username_taken lenderID username passwordHash t1 t2 d
              (ex_intro _ r (conj Hin Hr))) as [e He].
  congruence.
Qed.

Lemma NewRowid_not_in (seq : Z) (ids : list Z) : ~ In (NewRowid seq ids) ids.
Proof. intros Hin. apply (NewRowid_fresh seq) in Hin. lia. Qed.

Lemma logged_in_keeps now sqlclock accountID r :
  Account_ID (logged_in now sqlclock accountID r) = Account_ID r /\
  Username (logged_in now sqlclock accountID r) = Username r /\
  A_Lender_ID (logged_in now sqlclock accountID r) = A_Lender_ID r.
Proof.
  unfold logged_in. destruct (Z.eqb (Account_ID r) accountID); repeat split.
Qed.

(** X2.  The repository keeps the invariant of the store: after
    CreateLenderAndAccount and after UpdateLastLogin, however they end,
    keys, usernames and emails are still not repeated and every account
    still names a lender of the store. *)
Theorem store_invariant_preserved (f : Faults) (now sqlclock : Time)
    (businessName email phone username passwordHash : string) (interestRate : float)
    (accountID : Z) (c : Conn) :
  store_invariant (disk c) ->
  store_invariant
    (disk (snd (CreateLenderAndAccount f now businessName email phone username
                  passwordHash interestRate c))) /\
  store_invariant (disk (snd (UpdateLastLogin f now sqlclock accountID c))).
Proof.
  intros Hinv. split.
  - destruct (CreateLenderAndAccount_outcome f now businessName email phone username
                passwordHash interestRate c)
      as [[_ [Hdisk _]] | [_ [_ [_ [lenderID [w1 [HL HA]]]]]]].
    + rewrite Hdisk. exact Hinv.
    + destruct Hinv as [Haid [Huser [Hlid [Hemail Href]]]].
      pose proof (insert_Lender_inr_free _ _ _ _ _ _ _ _ _ HL) as Hefree.
      pose proof (insert_Account_inr_free _ _ _ _ _ _ _ _ HA) as Hufree.
      apply insert_Lender_inr in HL. destruct HL as [Hl ->].
      apply insert_Account_inr in HA.
      cbn [Accounts Lenders seq_Accounts seq_Lenders foreign_keys] in HA, Hufree.
      destruct HA as [Ha ->].
      unfold store_invariant. cbn [Accounts Lenders].
      rewrite !map_app. cbn [map Account_ID Username Lender_ID Email].
      split; [apply NoDup_snoc; trivial; rewrite Ha; apply NewRowid_not_in |].
      split; [apply NoDup_snoc; trivial |].
      split; [apply NoDup_snoc; trivial; rewrite Hl; apply NewRowid_not_in |].
      split; [apply NoDup_snoc; trivial |].
      intros a Hin. apply in_app_or in Hin. destruct Hin as [Hin | [<- | []]].
      * destruct (Href a Hin) as [l [Hl' Hid]]. exists l. split; trivial.
        apply in_or_app. left. exact Hl'.
      * eexists. split; [apply in_or_app; right; left; reflexivity | reflexivity].
  - unfold UpdateLastLogin, Prepare.
    destruct (f AtPrepareUpdate); [exact Hinv |].
    destruct (f AtExecUpdate); [exact Hinv |].
    cbn [snd disk]. rewrite UPDATE_last_login.
    destruct Hinv as [Haid [Huser [Hlid [Hemail Href]]]].
    unfold store_invariant, with_Accounts. cbn [Accounts Lenders].
    rewrite !map_map.
    rewrite (map_ext _ Account_ID
               (fun r => proj1 (logged_in_keeps now sqlclock accountID r))).
    rewrite (map_ext (fun r => Username (logged_in now sqlclock accountID r)) Username
               (fun r => proj1 (proj2 (logged_in_keeps now sqlclock accountID r)))).
    repeat split; trivial.
    intros a Hin. apply in_map_iff in Hin. destruct Hin as [r [<- Hr]].
    destruct (Href r Hr) as [l [Hl' Hid]]. exists l. split; trivial.
    rewrite (proj2 (proj2 (logged_in_keeps now sqlclock accountID r))). exact Hid.
Qed.

(** The first onboarding of the tests, on an empty store. *)
Lemma CreateLenderAndAccount_succeeds_witness :
  let r := CreateLenderAndAccount no_faults 1000 "Lender Business" "lender@example.com"
             "123-456-7890" "lenderuser" "hashedpassword" 5 (mkConn empty_db None) in
  snd (fst r) = None /\ fst (fst r) <> 0.
Proof.
  cbv zeta.
  destruct (CreateLenderAndAccount_succeeds no_faults 1000 "Lender Business"
              "lender@example.com" "123-456-7890" "lenderuser" "hashedpassword" 5
              (mkConn empty_db None)) as [Herr [Hid _]].
  - reflexivity.
  - intros s. reflexivity.
  - repeat split.
  - intros [r [[] _]].
  - intros [r [[] _]].
  - vm_compute. discriminate.
  - split; [exact Herr | exact Hid].
Defined.

Lemma one_account_db_invariant : store_invariant one_account_db.
Proof.
  unfold store_invariant, one_account_db. cbn [Accounts Lenders map Account_ID Username
    Lender_ID Email].
  repeat split; try (constructor; [intros [] | constructor]).
  intros a [<- | []]. eexists. split; [left; reflexivity | reflexivity].
Qed.

(** The one-account store keeps its invariant through a second
    onboarding and a login. *)
Lemma store_invariant_preserved_witness :
  store_invariant
    (disk (snd (CreateLenderAndAccount no_faults 2000 "Another Business"
                  "another@example.com" "987-654-3210" "anotheruser" "anotherhash" 6
                  (mkConn one_account_db None)))) /\
  store_invariant
    (disk (snd (UpdateLastLogin no_faults 2000 2000 1 (mkConn one_account_db None)))).
Proof.
  exact (store_invariant_preserved no_faults 2000 2000 "Another Business"
           "another@example.com" "987-654-3210" "anotheruser" "anotherhash" 6 1
           (mkConn one_account_db None) one_account_db_invariant).
Defined.

(** The contract test: a second onboarding with the username of the first
    fails, and the store keeps one lender and one account. *)
Example duplicate_username_rolls_back :
  let c1 := snd (CreateLenderAndAccount no_faults 1000 "Lender Business"
                   "lender@example.com" "123-456-7890" "lenderuser" "hashedpassword" 5
                   (mkConn (mkDB [] [] 0 0 false) None)) in
  let r2 := CreateLenderAndAccount no_faults 2000 "Another Business"
              "another@example.com" "987-654-3210" "lenderuser" "anotherhash" 6 c1 in
  fst r2 = (0, Some (sqlite_ErrConstraint UNIQUE_Accounts_Username)) /\
  snd r2 = c1 /\
  List.length (Lenders (disk (snd r2))) = 1%nat /\
  List.length (Accounts (disk (snd r2))) = 1%nat.
Proof. vm_compute. repeat split. Qed.

End CredentialStore.

(** ** Token engine *)

(** *** Strings and segments *)

Lemma append_assoc (a b c : string) : (a ++ b) ++ c = a ++ (b ++ c).
Proof. induction a as [| x a IH]; simpl; [reflexivity | rewrite IH; reflexivity]. Qed.

Lemma append_nil_r (a : string) : a ++ "" = a.
Proof. induction a as [| x a IH]; simpl; [reflexivity | rewrite IH; reflexivity]. Qed.

Lemma no_dot_nil : jwt.no_dot "".
Proof. reflexivity. Qed.

Lemma no_dot_cons (c : ascii) (s : string) :
  jwt.no_dot (String c s) <-> Ascii.eqb c jwt.dot = false /\ jwt.no_dot s.
Proof.
  unfold jwt.no_dot. cbn [list_ascii_of_string existsb].
  rewrite orb_false_iff, (Ascii.eqb_sym jwt.dot c). tauto.
Qed.

Lemma no_dot_app (a b : string) :
  jwt.no_dot (a ++ b) <-> jwt.no_dot a /\ jwt.no_dot b.
Proof.
  induction a as [| x a IH]; simpl.
  - split; [intros H; split; [apply no_dot_nil | exact H] | tauto].
  - rewrite !no_dot_cons, IH. tauto.
Qed.

Lemma Split_no_dot (s : string) : jwt.no_dot s -> jwt.Split s = [s].
Proof.
  induction s as [| c s IH]; intros H; [reflexivity |].
  apply no_dot_cons in H. destruct H as [Hc Hs].
  simpl. rewrite Hc, (IH Hs). reflexivity.
Qed.

Lemma Split_app_dot (a b : string) :
  jwt.no_dot a -> jwt.Split (a ++ "." ++ b) = a :: jwt.Split b.
Proof.
  induction a as [| c a IH]; intros H.
  - reflexivity.
  - apply no_dot_cons in H. destruct H as [Hc Ha].
    simpl. rewrite Hc. simpl in IH. rewrite (IH Ha). reflexivity.
Qed.

Lemma Split_three (a b c : string) :
  jwt.no_dot a -> jwt.no_dot b -> jwt.no_dot c ->
  jwt.Split ((a ++ "." ++ b) ++ "." ++ c) = [a; b; c].
Proof.
  intros Ha Hb Hc. rewrite append_assoc.
  change (("." ++ b) ++ "." ++ c) with ("." ++ (b ++ "." ++ c)).
  rewrite Split_app_dot by exact Ha.
  rewrite Split_app_dot by exact Hb.
  rewrite Split_no_dot by exact Hc. reflexivity.
Qed.

Lemma GetSigningMethod_Alg (m : jwt.SigningMethod) :
  jwt.GetSigningMethod (jwt.Alg m) = Some m.
Proof. destruct m as [[] | [] | [] | [] | |]; reflexivity. Qed.

(** *** Signing, then parsing *)

Section RoundTrip.

Import jwt.

Context {C : Type} `{CodecLaws C}.

(** What the parser makes of a token that [SignedString] wrote under
    [key], when the key function hands out [key']: the signature is
    compared with the MAC under [key'], and then the validator speaks. *)
Lemma ParseWithClaims_signed (h : Hash) (claims : C) (key key' : string)
    (leeway : Z) (now : Time) (keyFunc : Keyfunc C) :
  exact_dates claims ->
  (forall token, Method token = SigningMethodHMAC h -> keyFunc token = inr key') ->
  let text := SigningString (SigningMethodHMAC h) claims in
  ParseWithClaims leeway now (SignedString h claims key) keyFunc =
  if String.eqb (hmac h key text) (hmac h key' text) then
    match Validate leeway now claims with
    | [] => inr (mkToken (SigningMethodHMAC h) (written_header (SigningMethodHMAC h))
                   claims (hmac h key text) true)
    | errs => inl (jwt_error (ErrTokenInvalidClaims :: errs) None)
    end
  else inl (jwt_error [ErrTokenSignatureInvalid; ErrSignatureInvalid] None).
Proof.
  intros Hexact Hkey. cbv zeta.
  unfold ParseWithClaims, ParseUnverified, SignedString, SigningString.
  fold (written_header (SigningMethodHMAC h)).
  rewrite Split_three
    by (first [apply header_no_dot | apply claims_no_dot | apply segment_no_dot]).
  rewrite header_roundtrip, (claims_roundtrip claims Hexact).
  cbn [alg written_header]. rewrite GetSigningMethod_Alg.
  cbn [nth]. rewrite segment_roundtrip.
  rewrite Hkey by reflexivity.
  cbn [Method TokenClaims TokenHeader].
  unfold HMAC_Verify, HMAC_Sign.
  destruct (String.eqb _ _); reflexivity.
Qed.

(** A token signed with an HMAC method parses back, under a key function
    that hands out the signing key, to the claims that were signed,
    provided the validator has nothing against them. *)
Lemma ParseWithClaims_SignedString (h : Hash) (claims : C) (key : string)
    (leeway : Z) (now : Time) (keyFunc : Keyfunc C) :
  exact_dates claims ->
  (forall token, Method token = SigningMethodHMAC h -> keyFunc token = inr key) ->
  Validate leeway now claims = [] ->
  exists token,
    ParseWithClaims leeway now (SignedString h claims key) keyFunc = inr token /\
    TokenClaims token = claims /\ Valid token = true.
Proof.
  intros Hexact Hkey Hvalid.
  unfold ParseWithClaims, ParseUnverified, SignedString, SigningString.
  fold (written_header (SigningMethodHMAC h)).
  rewrite Split_three
    by (first [apply header_no_dot | apply claims_no_dot | apply segment_no_dot]).
  rewrite header_roundtrip, (claims_roundtrip claims Hexact).
  cbn [alg written_header]. rewrite GetSigningMethod_Alg.
  cbn [nth]. rewrite segment_roundtrip.
  rewrite Hkey by reflexivity.
  cbn [Method TokenClaims TokenHeader].
  unfold HMAC_Verify, HMAC_Sign. rewrite String.eqb_refl.
  rewrite Hvalid. eexists. split; [reflexivity |]. split; reflexivity.
Qed.

End RoundTrip.

(** *** The reference codec satisfies the laws *)

Section ReferenceCodec.

Import jwt refcodec.

Lemma dec_pos_enc (p : positive) (rest : string) :
  dec_pos (enc_pos p ++ rest) = Some (p, rest).
Proof.
  induction p as [q IH | q IH |]; simpl; [rewrite IH | rewrite IH |]; reflexivity.
Qed.

Lemma dec_Z_enc (z : Z) (rest : string) : dec_Z (enc_Z z ++ rest) = Some (z, rest).
Proof. destruct z; simpl; [| rewrite dec_pos_enc | rewrite dec_pos_enc]; reflexivity. Qed.

Lemma dec_date_enc (d : option NumericDate) (rest : string) :
  dec_date (enc_date d ++ rest) = Some (d, rest).
Proof. destruct d; simpl; [rewrite dec_Z_enc |]; reflexivity. Qed.

Lemma dec_Registered_enc (r : RegisteredClaims) (rest : string) :
  dec_Registered (enc_Registered r ++ rest) = Some (r, rest).
Proof.
  destruct r as [e n i]. unfold dec_Registered, enc_Registered.
  cbn [ExpiresAt NotBefore IssuedAt].
  rewrite !append_assoc, !dec_date_enc. reflexivity.
Qed.

Lemma no_dot_enc_pos (p : positive) : no_dot (enc_pos p).
Proof.
  induction p as [q IH | q IH |]; simpl;
    [apply no_dot_cons; split; [reflexivity | exact IH]
    | apply no_dot_cons; split; [reflexivity | exact IH]
    | reflexivity].
Qed.

Lemma no_dot_enc_Z (z : Z) : no_dot (enc_Z z).
Proof.
  destruct z; simpl; [reflexivity | |];
    (apply no_dot_cons; split; [reflexivity | apply no_dot_enc_pos]).
Qed.

Lemma no_dot_enc_date (d : option NumericDate) : no_dot (enc_date d).
Proof.
  destruct d; simpl; [| reflexivity].
  apply no_dot_cons; split; [reflexivity | apply no_dot_enc_Z].
Qed.

Lemma no_dot_enc_Registered (r : RegisteredClaims) : no_dot (enc_Registered r).
Proof.
  unfold enc_Registered. rewrite !no_dot_app. auto using no_dot_enc_date.
Qed.

Lemma unbit_bit (b : bool) : unbit (bit b) = Some b.
Proof. destruct b; reflexivity. Qed.

Lemma dec_bytes_enc (b : string) : dec_bytes (enc_bytes b) = Some b.
Proof.
  induction b as [| [b0 b1 b2 b3 b4 b5 b6 b7] b IH]; [reflexivity |].
  cbn [enc_bytes dec_bytes]. rewrite !unbit_bit, IH. reflexivity.
Qed.

Lemma no_dot_bit (b : bool) : Ascii.eqb (bit b) dot = false.
Proof. destruct b; reflexivity. Qed.

Lemma no_dot_enc_bytes (b : string) : no_dot (enc_bytes b).
Proof.
  induction b as [| [b0 b1 b2 b3 b4 b5 b6 b7] b IH]; [reflexivity |].
  cbn [enc_bytes]. repeat (apply no_dot_cons; split; [apply no_dot_bit |]). exact IH.
Qed.

Lemma ref_header_roundtrip (m : SigningMethod) :
  ref_unmarshalHeader (ref_marshalHeader (written_header m)) = Some (written_header m).
Proof. destruct m as [[] | [] | [] | [] | |]; reflexivity. Qed.

Lemma ref_header_no_dot (m : SigningMethod) :
  no_dot (ref_marshalHeader (written_header m)).
Proof. destruct m as [[] | [] | [] | [] | |]; reflexivity. Qed.

Lemma codec_auth_laws : @CodecLaws auth.Claims auth.Claims_jwt codec_auth.
Proof.
  constructor; cbn [marshalHeader unmarshalHeader marshalClaims unmarshalClaims
                    EncodeSegment DecodeSegment codec_auth].
  - apply ref_header_roundtrip.
  - intros [a l r] _. unfold ref_unmarshal_auth, ref_marshal_auth.
    cbn [auth.AccountID auth.LenderID auth.Registered].
    rewrite !dec_Z_enc.
    rewrite <- (append_nil_r (enc_Registered r)), dec_Registered_enc. reflexivity.
  - apply dec_bytes_enc.
  - apply ref_header_no_dot.
  - intros c. unfold ref_marshal_auth. rewrite !no_dot_app.
    auto using no_dot_enc_Z, no_dot_enc_Registered.
  - apply no_dot_enc_bytes.
Qed.

Lemma codec_userid_laws :
  @CodecLaws auth_userid.Claims auth_userid.Claims_jwt codec_userid.
Proof.
  constructor; cbn [marshalHeader unmarshalHeader marshalClaims unmarshalClaims
                    EncodeSegment DecodeSegment codec_userid].
  - apply ref_header_roundtrip.
  - intros [u r] _. unfold ref_unmarshal_userid, ref_marshal_userid.
    cbn [auth_userid.UserID auth_userid.Registered].
    rewrite !dec_Z_enc.
    rewrite <- (append_nil_r (enc_Registered r)), dec_Registered_enc. reflexivity.
  - apply dec_bytes_enc.
  - apply ref_header_no_dot.
  - intros c. unfold ref_marshal_userid. rewrite !no_dot_app.
    auto using no_dot_enc_Z, no_dot_enc_Registered.
  - apply no_dot_enc_bytes.
Qed.

End ReferenceCodec.

(** *** Validity window *)

Section TokenEngine.

Import jwt.

Lemma Truncate_bounds (t : Time) : t - Second < instant (NewNumericDate t) <= t.
Proof.
  unfold instant, NewNumericDate, Second.
  pose proof (Z.div_mod t 1000000000 ltac:(lia)) as Hdm.
  pose proof (Z.mod_pos_bound t 1000000000 ltac:(lia)) as Hm. lia.
Qed.

Lemma NewNumericDate_exact (t : Time) :
  - 2 ^ 62 <= t < 2 ^ 63 -> exact_in_float64 (Some (NewNumericDate t)).
Proof.
  intros Ht. unfold exact_in_float64, NewNumericDate, Second.
  change (2 ^ 62) with 4611686018427387904 in Ht.
  change (2 ^ 63) with 9223372036854775808 in Ht.
  change (2 ^ 53) with 9007199254740992.
  split.
  - apply Z.div_le_lower_bound; lia.
  - apply Z.lt_le_incl. apply Z.div_lt_upper_bound; lia.
Qed.

Lemma NewNumericDate_add_seconds (t n : Z) :
  NewNumericDate (t + n * Second) = NewNumericDate t + n.
Proof. unfold NewNumericDate, Second. apply Z.div_add. lia. Qed.

(** When both readings of the clock are the same instant, the expiry is
    the issue time plus the duration, to the second. *)
Lemma newClaims_one_reading (now : Time) (accountID lenderID : Z) :
  let claims := auth.newClaims auth.AccessTokenDuration now now accountID lenderID in
  exists iat, IssuedAt (auth.Registered claims) = Some iat /\
              ExpiresAt (auth.Registered claims) = Some (iat + 900).
Proof.
  cbv zeta. unfold auth.newClaims. cbn [auth.Registered IssuedAt ExpiresAt].
  exists (NewNumericDate now). split; [reflexivity |].
  change auth.AccessTokenDuration with (900 * Second).
  rewrite NewNumericDate_add_seconds. reflexivity.
Qed.

(** C5.  The claims that GenerateAccessToken makes when the clock reads
    0.999999999 s at its first call and 1.000000000 s at its second:
    expires-at is 900 s and issued-at is 1 s, 899 s apart and not the 900 s
    of the access duration.  The refresh token and the single-identifier
    form read the clock in the same way. *)
Theorem expiry_is_not_issue_plus_duration :
  let access := auth.newClaims auth.AccessTokenDuration 999999999 1000000000 123 456 in
  let refresh := auth.newClaims auth.RefreshTokenDuration 999999999 1000000000 123 456 in
  let access' := auth_userid.newClaims auth_userid.AccessTokenDuration
                   999999999 1000000000 123 in
  auth.AccessTokenDuration = 900 * Second /\
  auth.RefreshTokenDuration = 604800 * Second /\
  ExpiresAt (auth.Registered access) = Some 900 /\
  IssuedAt (auth.Registered access) = Some 1 /\
  ExpiresAt (auth.Registered refresh) = Some 604800 /\
  IssuedAt (auth.Registered refresh) = Some 1 /\
  ExpiresAt (auth_userid.Registered access') = Some 900 /\
  IssuedAt (auth_userid.Registered access') = Some 1 /\
  auth.ValidateToken (H := refcodec.codec_auth) 2000000000
    (fst (auth.GenerateAccessToken (H := refcodec.codec_auth)
            999999999 1000000000 123 456 "supersecretkey")) "supersecretkey"
  = (Some (auth.mkClaims 123 456 (mkRegisteredClaims (Some 900) None (Some 1))), None).
Proof. vm_compute. repeat split. Qed.

(** *** Round trip *)

Lemma keyFunc_auth (secretKey : string) (h : Hash) (token : Token auth.Claims) :
  Method token = SigningMethodHMAC h -> auth.keyFunc secretKey token = inr secretKey.
Proof. unfold auth.keyFunc. intros ->. reflexivity. Qed.

Lemma keyFunc_userid (secretKey : string) (h : Hash) (token : Token auth_userid.Claims) :
  Method token = SigningMethodHMAC h -> auth_userid.keyFunc secretKey token = inr secretKey.
Proof. unfold auth_userid.keyFunc. intros ->. reflexivity. Qed.

Lemma access_window (now1 : Time) :
  now1 < instant (NewNumericDate (now1 + 15 * Minute)) <= now1 + 15 * Minute.
Proof.
  pose proof (Truncate_bounds (now1 + 15 * Minute)) as H.
  unfold Minute, Second in *. lia.
Qed.

(** C4.  An access token issued for an identity under a non-empty secret
    and validated under the same secret, before its fifteen minutes are
    over, validates: the claims returned carry the identity that was
    given, and their expiry lies after the time of issue and at most the
    access duration later.  This holds in the pair form and in the
    single-identifier form. *)
Theorem access_token_round_trip
    {codecA : Codec auth.Claims}
    {lawsA : @CodecLaws auth.Claims auth.Claims_jwt codecA}
    {codecU : Codec auth_userid.Claims}
    {lawsU : @CodecLaws auth_userid.Claims auth_userid.Claims_jwt codecU}
    (now1 now2 now3 : Time) (accountID lenderID userID : Z) (secretKey : string) :
  secretKey <> "" ->
  plausible now1 -> plausible now2 ->
  now3 <= now1 + 15 * Minute - Second ->
  (snd (auth.GenerateAccessToken now1 now2 accountID lenderID secretKey) = None /\
   exists claims exp,
     auth.ValidateToken now3
       (fst (auth.GenerateAccessToken now1 now2 accountID lenderID secretKey)) secretKey
     = (Some claims, None) /\
     auth.AccountID claims = accountID /\ auth.LenderID claims = lenderID /\
     ExpiresAt (auth.Registered claims) = Some exp /\
     now1 < instant exp <= now1 + auth.AccessTokenDuration) /\
  (snd (auth_userid.GenerateAccessToken now1 now2 userID secretKey) = None /\
   exists claims exp,
     auth_userid.ValidateToken now3
       (fst (auth_userid.GenerateAccessToken now1 now2 userID secretKey)) secretKey
     = (Some claims, None) /\
     auth_userid.UserID claims = userID /\
     ExpiresAt (auth_userid.Registered claims) = Some exp /\
     now1 < instant exp <= now1 + auth_userid.AccessTokenDuration +
                                  auth_userid.Leeway).
Proof.
  intros Hsecret [H1lo H1hi] [H2lo H2hi] Hnow3.
  change (2 ^ 62) with 4611686018427387904 in *.
  pose proof (access_window now1) as Hwin.
  pose proof (Truncate_bounds (now1 + 15 * Minute)) as Htr.
  assert (Hx1 : exact_in_float64 (Some (NewNumericDate (now1 + 15 * Minute)))).
  { apply NewNumericDate_exact. unfold Minute, Second.
    change (2 ^ 62) with 4611686018427387904.
    change (2 ^ 63) with 9223372036854775808. lia. }
  assert (Hx2 : exact_in_float64 (Some (NewNumericDate now2))).
  { apply NewNumericDate_exact.
    change (2 ^ 62) with 4611686018427387904.
    change (2 ^ 63) with 9223372036854775808. lia. }
  split.
  - split; [reflexivity |].
    unfold auth.GenerateAccessToken, auth.ValidateToken. cbn [fst].
    destruct (@ParseWithClaims_SignedString auth.Claims auth.Claims_jwt codecA lawsA SHA256
                (auth.newClaims auth.AccessTokenDuration now1 now2 accountID lenderID)
                secretKey 0 now3 (auth.keyFunc secretKey))
      as [token [Hparse [Hclaims Hvalid]]].
    + split; [exact Hx1 | split; [exact I | exact Hx2]].
    + intros token. apply keyFunc_auth.
    + unfold Validate, verifyExpiresAt, verifyNotBefore.
      cbn [GetExpirationTime GetNotBefore auth.Claims_jwt auth.newClaims
           auth.Registered ExpiresAt NotBefore].
      change auth.AccessTokenDuration with (15 * Minute).
      assert (Z.ltb now3 (instant (NewNumericDate (now1 + 15 * Minute)) + 0) = true) as ->
        by (apply Z.ltb_lt; lia).
      reflexivity.
    + rewrite Hparse, Hvalid. cbn [negb].
      exists (TokenClaims token), (NewNumericDate (now1 + 15 * Minute)).
      rewrite Hclaims. repeat split; trivial; apply Hwin.
  - assert (String.eqb secretKey "" = false) as Hne by (apply String.eqb_neq; exact Hsecret).
    unfold auth_userid.GenerateAccessToken, auth_userid.ValidateToken. rewrite Hne.
    split; [reflexivity |]. cbn [fst].
    destruct (@ParseWithClaims_SignedString auth_userid.Claims auth_userid.Claims_jwt
                codecU lawsU SHA256
                (auth_userid.newClaims auth_userid.AccessTokenDuration now1 now2 userID)
                secretKey auth_userid.Leeway now3 (auth_userid.keyFunc secretKey))
      as [token [Hparse [Hclaims Hvalid]]].
    + split; [exact Hx1 | split; [exact I | exact Hx2]].
    + intros token. apply keyFunc_userid.
    + unfold Validate, verifyExpiresAt, verifyNotBefore.
      cbn [GetExpirationTime GetNotBefore auth_userid.Claims_jwt auth_userid.newClaims
           auth_userid.Registered ExpiresAt NotBefore].
      change auth_userid.AccessTokenDuration with (15 * Minute).
      assert (Z.ltb now3 (instant (NewNumericDate (now1 + 15 * Minute))
                          + auth_userid.Leeway) = true) as ->
        by (apply Z.ltb_lt; unfold auth_userid.Leeway, Second in *; lia).
      reflexivity.
    + rewrite Hparse, Hvalid. cbn [negb].
      exists (TokenClaims token), (NewNumericDate (now1 + 15 * Minute)).
      rewrite Hclaims. repeat split; trivial; try apply Hwin.
      unfold auth_userid.Leeway, Second.
      change auth_userid.AccessTokenDuration with (15 * Minute). lia.
Qed.

(** The round trip of the tests: identity 123/456 under "supersecretkey",
    issued at 1700000000 s and validated five seconds later. *)
Lemma access_token_round_trip_witness :
  exists claims,
    auth.ValidateToken (H := refcodec.codec_auth) 1700000005000000000
      (fst (auth.GenerateAccessToken (H := refcodec.codec_auth)
              1700000000000000000 1700000000000000100 123 456 "supersecretkey"))
      "supersecretkey"
    = (Some claims, None) /\
    auth.AccountID claims = 123 /\ auth.LenderID claims = 456.
Proof.
  destruct (access_token_round_trip
              (lawsA := codec_auth_laws) (lawsU := codec_userid_laws)
              1700000000000000000 1700000000000000100 1700000005000000000
              123 456 123 "supersecretkey")
    as [[_ [claims [exp [Hv [Ha [Hl _]]]]]] _].
  - discriminate.
  - unfold plausible. lia.
  - unfold plausible. lia.
  - unfold Minute, Second. lia.
  - exists claims. auto.
Defined.

End TokenEngine.

(** *** Refusals *)

Section Refusals.

Import jwt.

Context {codecA : Codec auth.Claims}
        {lawsA : @CodecLaws auth.Claims auth.Claims_jwt codecA}
        {codecU : Codec auth_userid.Claims}
        {lawsU : @CodecLaws auth_userid.Claims auth_userid.Claims_jwt codecU}.

Lemma newClaims_auth_exact (d now1 now2 : Time) (accountID lenderID : Z) :
  0 <= d < 2 ^ 62 -> plausible now1 -> plausible now2 ->
  exact_dates (auth.newClaims d now1 now2 accountID lenderID).
Proof.
  intros Hd [H1lo H1hi] [H2lo H2hi].
  change (2 ^ 62) with 4611686018427387904 in *.
  split; [| split; [exact I |]]; apply NewNumericDate_exact;
    change (2 ^ 62) with 4611686018427387904;
    change (2 ^ 63) with 9223372036854775808; lia.
Qed.

Lemma newClaims_userid_exact (d now1 now2 : Time) (userID : Z) :
  0 <= d < 2 ^ 62 -> plausible now1 -> plausible now2 ->
  exact_dates (auth_userid.newClaims d now1 now2 userID).
Proof.
  intros Hd [H1lo H1hi] [H2lo H2hi].
  change (2 ^ 62) with 4611686018427387904 in *.
  split; [| split; [exact I |]]; apply NewNumericDate_exact;
    change (2 ^ 62) with 4611686018427387904;
    change (2 ^ 63) with 9223372036854775808; lia.
Qed.

Lemma AccessTokenDuration_range : 0 <= 15 * Minute < 2 ^ 62.
Proof. unfold Minute, Second. change (2 ^ 62) with 4611686018427387904. lia. Qed.

(** X3.  An access token validated under a secret other than the one it
    was signed with, the MAC telling the two apart on this token, is
    refused for its signature: with the invalid-signature error in the
    single-identifier form, with the library's signature errors in the
    pair form. *)
Theorem other_secret_is_refused
    (now1 now2 now3 : Time) (accountID lenderID userID : Z) (key key' : string) :
  key <> "" -> key' <> "" ->
  plausible now1 -> plausible now2 ->
  mac_tells_apart auth.Claims SHA256 key key'
    (SigningString (SigningMethodHMAC SHA256)
       (auth.newClaims auth.AccessTokenDuration now1 now2 accountID lenderID)) ->
  mac_tells_apart auth_userid.Claims SHA256 key key'
    (SigningString (SigningMethodHMAC SHA256)
       (auth_userid.newClaims auth_userid.AccessTokenDuration now1 now2 userID)) ->
  auth.ValidateToken now3
    (fst (auth.GenerateAccessToken now1 now2 accountID lenderID key)) key'
  = (None, Some (jwt_error [ErrTokenSignatureInvalid; ErrSignatureInvalid] None)) /\
  auth_userid.ValidateToken now3
    (fst (auth_userid.GenerateAccessToken now1 now2 userID key)) key'
  = (None, Some auth_userid.ErrInvalidSignature).
Proof.
  intros Hkey Hkey' H1 H2 HmacA HmacU.
  apply String.eqb_neq in Hkey. apply String.eqb_neq in Hkey'.
  apply String.eqb_neq in HmacA. apply String.eqb_neq in HmacU.
  split.
  - unfold auth.ValidateToken, auth.GenerateAccessToken. cbn [fst].
    rewrite (ParseWithClaims_signed SHA256 _ key key' 0 now3 (auth.keyFunc key'));
      [| apply newClaims_auth_exact; trivial; apply AccessTokenDuration_range
       | intros token; apply keyFunc_auth].
    cbv zeta. rewrite HmacA. reflexivity.
  - unfold auth_userid.ValidateToken, auth_userid.GenerateAccessToken.
    rewrite Hkey, Hkey'. cbn [fst].
    rewrite (ParseWithClaims_signed SHA256 _ key key' auth_userid.Leeway now3
               (auth_userid.keyFunc key'));
      [| apply newClaims_userid_exact; trivial; apply AccessTokenDuration_range
       | intros token; apply keyFunc_userid].
    cbv zeta. rewrite HmacU. reflexivity.
Qed.

(** X4.  An access token validated under its secret once its time is
    over is refused as expired: in the pair form from fifteen minutes
    after the issue on, in the single-identifier form from five seconds
    later on. *)
Theorem expired_token_is_refused
    (now1 now2 now3 : Time) (accountID lenderID userID : Z) (key : string) :
  key <> "" ->
  plausible now1 -> plausible now2 ->
  (now1 + 15 * Minute <= now3 ->
   auth.ValidateToken now3
     (fst (auth.GenerateAccessToken now1 now2 accountID lenderID key)) key
   = (None, Some (jwt_error [ErrTokenInvalidClaims; ErrTokenExpired] None))) /\
  (now1 + 15 * Minute + auth_userid.Leeway <= now3 ->
   auth_userid.ValidateToken now3
     (fst (auth_userid.GenerateAccessToken now1 now2 userID key)) key
   = (None, Some auth_userid.ErrExpired)).
Proof.
  intros Hkey H1 H2.
  apply String.eqb_neq in Hkey.
  pose proof (access_window now1) as Hwin.
  split; intros Hnow3.
  - unfold auth.ValidateToken, auth.GenerateAccessToken. cbn [fst].
    rewrite (ParseWithClaims_signed SHA256 _ key key 0 now3 (auth.keyFunc key));
      [| apply newClaims_auth_exact; trivial; apply AccessTokenDuration_range
       | intros token; apply keyFunc_auth].
    cbv zeta. rewrite String.eqb_refl.
    unfold Validate, verifyExpiresAt, verifyNotBefore.
    cbn [GetExpirationTime GetNotBefore auth.Claims_jwt auth.newClaims
         auth.Registered ExpiresAt NotBefore].
    change auth.AccessTokenDuration with (15 * Minute).
    assert (Z.ltb now3 (instant (NewNumericDate (now1 + 15 * Minute)) + 0) = false) as ->
      by (apply Z.ltb_ge; lia).
    reflexivity.
  - unfold auth_userid.ValidateToken, auth_userid.GenerateAccessToken.
    rewrite Hkey. cbn [fst].
    rewrite (ParseWithClaims_signed SHA256 _ key key auth_userid.Leeway now3
               (auth_userid.keyFunc key));
      [| apply newClaims_userid_exact; trivial; apply AccessTokenDuration_range
       | intros token; apply keyFunc_userid].
    cbv zeta. rewrite String.eqb_refl.
    unfold Validate, verifyExpiresAt, verifyNotBefore.
    cbn [GetExpirationTime GetNotBefore auth_userid.Claims_jwt auth_userid.newClaims
         auth_userid.Registered ExpiresAt NotBefore].
    change auth_userid.AccessTokenDuration with (15 * Minute).
    assert (Z.ltb now3 (instant (NewNumericDate (now1 + 15 * Minute))
                        + auth_userid.Leeway) = false) as ->
      by (apply Z.ltb_ge; lia).
    reflexivity.
Qed.

End Refusals.

Section RefusalsOnTheReferenceCodec.

Import jwt.

(** A token signed under "supersecretkey" and validated under
    "wrongsecretkey", as in TestValidateToken_InvalidSignature. *)
Lemma other_secret_is_refused_witness :
  auth_userid.ValidateToken (H := refcodec.codec_userid) 1700000005000000000
    (fst (auth_userid.GenerateAccessToken (H := refcodec.codec_userid)
            1700000000000000000 1700000000000000100 123 "supersecretkey"))
    "wrongsecretkey"
  = (None, Some auth_userid.ErrInvalidSignature).
Proof.
  refine (proj2 (other_secret_is_refused
                   (lawsA := codec_auth_laws) (lawsU := codec_userid_laws)
                   1700000000000000000 1700000000000000100 1700000005000000000
                   123 456 123 "supersecretkey" "wrongsecretkey" _ _ _ _ _ _)).
  - discriminate.
  - discriminate.
  - unfold plausible. lia.
  - unfold plausible. lia.
  - intros Heq. vm_compute in Heq. discriminate Heq.
  - intros Heq. vm_compute in Heq. discriminate Heq.
Defined.

(** A token validated sixteen minutes after its issue. *)
Lemma expired_token_is_refused_witness :
  auth_userid.ValidateToken (H := refcodec.codec_userid) 1700000960000000000
    (fst (auth_userid.GenerateAccessToken (H := refcodec.codec_userid)
            1700000000000000000 1700000000000000100 123 "supersecretkey"))
    "supersecretkey"
  = (None, Some auth_userid.ErrExpired).
Proof.
  refine (proj2 (expired_token_is_refused
                   (lawsA := codec_auth_laws) (lawsU := codec_userid_laws)
                   1700000000000000000 1700000000000000100 1700000960000000000
                   123 456 123 "supersecretkey" _ _ _) _);
    first [discriminate
          | unfold plausible, auth_userid.Leeway, Minute, Second; lia].
Defined.

End RefusalsOnTheReferenceCodec.

(** *** Empty secret *)

Section EmptySecret.

Import jwt.

(** C3.  In the single-identifier form the three issuing operations and
    ValidateToken (and ExtractUserID through it) return the empty-secret
    error when the secret is empty, before anything else and whatever the
    token.  In the pair form (internal/auth/jwt.go) there is no such
    check: with an empty secret the three issuing operations return a
    token and no error, and ValidateToken accepts that token. *)
Theorem empty_secret_guard
    {codecU : Codec auth_userid.Claims} {codecA : Codec auth.Claims}
    (now1 now2 now3 now4 : Time) (userID accountID lenderID : Z) (tokenString : string) :
  (auth_userid.GenerateAccessToken now1 now2 userID ""
     = ("", Some auth_userid.ErrEmptySecret) /\
   auth_userid.GenerateRefreshToken now1 now2 userID ""
     = ("", Some auth_userid.ErrEmptySecret) /\
   auth_userid.GenerateTokenPair now1 now2 now3 now4 userID ""
     = (None, Some auth_userid.ErrEmptySecret) /\
   auth_userid.ValidateToken now1 tokenString ""
     = (None, Some auth_userid.ErrEmptySecret) /\
   auth_userid.ExtractUserID now1 tokenString ""
     = (0, Some auth_userid.ErrEmptySecret)) /\
  (snd (auth.GenerateAccessToken now1 now2 accountID lenderID "") = None /\
   snd (auth.GenerateRefreshToken now1 now2 accountID lenderID "") = None /\
   snd (auth.GenerateTokenPair now1 now2 now3 now4 accountID lenderID "") = None /\
   fst (auth.GenerateTokenPair now1 now2 now3 now4 accountID lenderID "") <> None) /\
  auth.ValidateToken (H := refcodec.codec_auth) 0
    (fst (auth.GenerateAccessToken (H := refcodec.codec_auth) 0 0 123 456 "")) ""
  = (Some (auth.mkClaims 123 456 (mkRegisteredClaims (Some 900) None (Some 0))), None).
Proof.
  split; [| split].
  - repeat split.
  - repeat split. discriminate.
  - vm_compute. reflexivity.
Qed.

End EmptySecret.

(** *** The failures of ValidateToken *)

Section Taxonomy.

Import jwt.

Lemma GetSigningMethod_name (name : string) (m : SigningMethod) :
  GetSigningMethod name = Some m -> Alg m = name.
Proof.
  unfold GetSigningMethod. intros Hm. apply find_some in Hm.
  destruct Hm as [_ Hm]. apply String.eqb_eq. exact Hm.
Qed.

Section TaxonomyOfTheParser.

Context {C : Type} `{Claims C} `{Codec C}.

(** What the validator collects, by the state of the validity window. *)
Lemma Validate_window (leeway : Z) (now : Time) (c : C) :
  (expired_at leeway now c -> ~ not_yet_valid leeway now c ->
     Validate leeway now c = [ErrTokenExpired]) /\
  (expired_at leeway now c -> not_yet_valid leeway now c ->
     Validate leeway now c = [ErrTokenExpired; ErrTokenNotValidYet]) /\
  (~ expired_at leeway now c -> not_yet_valid leeway now c ->
     Validate leeway now c = [ErrTokenNotValidYet]) /\
  (~ expired_at leeway now c -> ~ not_yet_valid leeway now c ->
     Validate leeway now c = []).
Proof.
  assert (expired_at leeway now c -> verifyExpiresAt leeway now c = [ErrTokenExpired]) as He.
  { intros [exp [Hexp Hle]]. unfold verifyExpiresAt. rewrite Hexp.
    destruct (Z.ltb_spec now (instant exp + leeway)); [lia | reflexivity]. }
  assert (~ expired_at leeway now c -> verifyExpiresAt leeway now c = []) as Hne.
  { intros Hn. unfold verifyExpiresAt. destruct (GetExpirationTime c) as [exp |] eqn:Hexp;
      [| reflexivity].
    destruct (Z.ltb_spec now (instant exp + leeway)); [reflexivity |].
    exfalso. apply Hn. exists exp. split; [exact Hexp | assumption]. }
  assert (not_yet_valid leeway now c -> verifyNotBefore leeway now c = [ErrTokenNotValidYet])
    as Hy.
  { intros [nbf [Hnbf Hlt]]. unfold verifyNotBefore. rewrite Hnbf.
    destruct (Z.ltb_spec now (instant nbf - leeway)); [reflexivity | lia]. }
  assert (~ not_yet_valid leeway now c -> verifyNotBefore leeway now c = []) as Hny.
  { intros Hn. unfold verifyNotBefore. destruct (GetNotBefore c) as [nbf |] eqn:Hnbf;
      [| reflexivity].
    destruct (Z.ltb_spec now (instant nbf - leeway)); [| reflexivity].
    exfalso. apply Hn. exists nbf. split; [exact Hnbf | assumption]. }
  unfold Validate.
  split; [| split; [| split]]; intros H1 H2.
  - rewrite (He H1), (Hny H2). reflexivity.
  - rewrite (He H1), (Hy H2). reflexivity.
  - rewrite (Hne H1), (Hy H2). reflexivity.
  - rewrite (Hne H1), (Hny H2). reflexivity.
Qed.

(** The parser, check by check, for a key function that hands out [key]
    to the HMAC methods. *)
Lemma ParseWithClaims_checks (leeway : Z) (now : Time) (tokenString : string)
    (keyFunc : Keyfunc C) (key : string) :
  (forall token hash, Method token = SigningMethodHMAC hash -> keyFunc token = inr key) ->
  let r := ParseWithClaims leeway now tokenString keyFunc in
  ((forall h c p2 text, ~ segments tokenString h c p2 text) ->
     r = inl (jwt_error [ErrTokenMalformed] None)) /\
  (forall h c p2 text, segments tokenString h c p2 text ->
     (declared_method h = None -> r = inl (jwt_error [ErrTokenUnverifiable] None)) /\
     (forall m, declared_method h = Some m ->
        (DecodeSegment p2 = None -> r = inl (jwt_error [ErrTokenMalformed] None)) /\
        (forall sig, DecodeSegment p2 = Some sig ->
           (forall cause, keyFunc (mkToken m h c sig false) = inl cause ->
              r = inl (jwt_error [ErrTokenUnverifiable] (Some cause))) /\
           (forall hash, m = SigningMethodHMAC hash ->
              (sig <> hmac hash key text ->
                 r = inl (jwt_error [ErrTokenSignatureInvalid; ErrSignatureInvalid] None)) /\
              (sig = hmac hash key text ->
                 r = match Validate leeway now c with
                     | [] => inr (mkToken m h c sig true)
                     | errs => inl (jwt_error (ErrTokenInvalidClaims :: errs) None)
                     end))))).
Proof.
  intros Hkey. cbv zeta. unfold ParseWithClaims, ParseUnverified. split.
  - intros Hnone.
    destruct (Split tokenString) as [| p0 [| p1 [| p2 [| p3 ps]]]] eqn:Hsplit;
      try reflexivity.
    destruct (unmarshalHeader p0) as [h |] eqn:Hh; [| reflexivity].
    destruct (unmarshalClaims p1) as [c |] eqn:Hc; [| reflexivity].
    exfalso. apply (Hnone h c p2 (p0 ++ "." ++ p1)).
    exists p0, p1. repeat split; trivial.
  - intros h c p2 text [p0 [p1 [Hsplit [Hh [Hc Htext]]]]].
    rewrite Hsplit, Hh, Hc. unfold declared_method. split.
    { destruct (alg h) as [name |]; [intros ->; reflexivity | reflexivity]. }
    intros m Hm. destruct (alg h) as [name |]; [| discriminate].
    rewrite Hm. cbn [nth]. split; [intros ->; reflexivity |].
    intros sig ->. cbn [Method TokenClaims TokenHeader]. split.
    { intros cause ->. reflexivity. }
    intros hash ->.
    rewrite (Hkey (mkToken (SigningMethodHMAC hash) h c sig false) hash eq_refl).
    unfold HMAC_Verify. rewrite <- Htext. split.
    + intros Hsig. apply String.eqb_neq in Hsig. rewrite Hsig. reflexivity.
    + intros ->. rewrite String.eqb_refl. reflexivity.
Qed.

(** Every error of the parser is one of these, and a token that it
    returns is marked valid. *)
Lemma ParseWithClaims_errors (leeway : Z) (now : Time) (tokenString : string)
    (keyFunc : Keyfunc C) :
  match ParseWithClaims leeway now tokenString keyFunc with
  | inr token => Valid token = true
  | inl err =>
    err = jwt_error [ErrTokenMalformed] None \/
    (exists cause, err = jwt_error [ErrTokenUnverifiable] cause) \/
    (exists e, err = jwt_error [ErrTokenSignatureInvalid; e] None /\
               In e [ErrSignatureInvalid; ErrInvalidKeyType;
                     NoneSignatureTypeDisallowedError]) \/
    In err [jwt_error [ErrTokenInvalidClaims; ErrTokenExpired] None;
            jwt_error [ErrTokenInvalidClaims; ErrTokenExpired; ErrTokenNotValidYet] None;
            jwt_error [ErrTokenInvalidClaims; ErrTokenNotValidYet] None]
  end.
Proof.
  unfold ParseWithClaims, ParseUnverified.
  destruct (Split tokenString) as [| p0 [| p1 [| p2 [| p3 ps]]]];
    try solve [left; reflexivity].
  destruct (unmarshalHeader p0) as [h |]; [| left; reflexivity].
  destruct (unmarshalClaims p1) as [c |]; [| left; reflexivity].
  destruct (alg h) as [name |]; [| right; left; eexists; reflexivity].
  destruct (GetSigningMethod name) as [m |]; [| right; left; eexists; reflexivity].
  cbn [nth]. destruct (DecodeSegment p2) as [sig |]; [| left; reflexivity].
  cbn [Method TokenHeader TokenClaims].
  destruct (keyFunc (mkToken m h c sig false)) as [cause | key];
    [right; left; eexists; reflexivity |].
  destruct m as [hash | hash | hash | hash | |];
    try solve [right; right; left; eexists; split; [reflexivity | cbn; tauto]].
  unfold HMAC_Verify.
  destruct (String.eqb sig (hmac hash key (p0 ++ "." ++ p1)));
    [| right; right; left; eexists; split; [reflexivity | cbn; tauto]].
  unfold Validate, verifyExpiresAt, verifyNotBefore.
  destruct (GetExpirationTime c) as [exp |];
    [destruct (Z.ltb now (instant exp + leeway)) |];
    (destruct (GetNotBefore c) as [nbf |];
     [destruct (Z.ltb now (instant nbf - leeway)) |]);
    cbn [app]; first [reflexivity | right; right; right; cbn; tauto].
Qed.

(** A validator that hands on or renames the errors of the parser
    answers by the table of its errors. *)
Lemma answers_of_the_parser (a : Answers) (leeway : Z) (now : Time)
    (tokenString key : string) (keyFunc : Keyfunc C)
    (post : error + Token C -> option C * option error) :
  (forall token hash, Method token = SigningMethodHMAC hash -> keyFunc token = inr key) ->
  (forall m h c sig, ~ hmac_family m -> alg h = Some (Alg m) ->
     exists cause,
       keyFunc (mkToken m h c sig false) = inl cause /\
       post (inl (jwt_error [ErrTokenUnverifiable] (Some cause)))
       = (None, Some (for_other_method a (Alg m)))) ->
  post (inl (jwt_error [ErrTokenMalformed] None)) = (None, Some (for_malformed a)) ->
  post (inl (jwt_error [ErrTokenUnverifiable] None)) = (None, Some (for_unknown_method a)) ->
  post (inl (jwt_error [ErrTokenSignatureInvalid; ErrSignatureInvalid] None))
    = (None, Some (for_wrong_signature a)) ->
  post (inl (jwt_error [ErrTokenInvalidClaims; ErrTokenExpired] None))
    = (None, Some (for_expired a)) ->
  post (inl (jwt_error [ErrTokenInvalidClaims; ErrTokenExpired; ErrTokenNotValidYet] None))
    = (None, Some (for_expired_and_early a)) ->
  post (inl (jwt_error [ErrTokenInvalidClaims; ErrTokenNotValidYet] None))
    = (None, Some (for_early a)) ->
  (forall token, Valid token = true -> post (inr token) = (Some (TokenClaims token), None)) ->
  answers a leeway now tokenString key
    (post (ParseWithClaims leeway now tokenString keyFunc)).
Proof.
  intros Hkey Hother Hmal Hunk Hsig Hexp Hboth Hearly Hok.
  destruct (ParseWithClaims_checks leeway now tokenString keyFunc key Hkey)
    as [Pnone Pseg].
  split.
  - intros Hnone. rewrite (Pnone Hnone). exact Hmal.
  - intros h c p2 text Hs.
    destruct (Pseg h c p2 text Hs) as [Punk Pm]. split.
    { intros Hd. rewrite (Punk Hd). exact Hunk. }
    intros m Hd. destruct (Pm m Hd) as [Pbad Pdec]. split.
    { intros Hn. rewrite (Pbad Hn). exact Hmal. }
    intros sig Hdec. destruct (Pdec sig Hdec) as [Pcause Phmac]. split.
    { intros Hnot.
      assert (alg h = Some (Alg m)) as Halg.
      { unfold declared_method in Hd. destruct (alg h) as [name |]; [| discriminate].
        rewrite (GetSigningMethod_name name m Hd). reflexivity. }
      destruct (Hother m h c sig Hnot Halg) as [cause [Hcause Hpost]].
      rewrite (Pcause cause Hcause). exact Hpost. }
    intros hash Hm. destruct (Phmac hash Hm) as [Pwrong Pright]. split.
    { intros Hne. rewrite (Pwrong Hne). exact Hsig. }
    intros Heq. rewrite (Pright Heq).
    destruct (Validate_window leeway now c) as [W1 [W2 [W3 W4]]].
    split; [| split; [| split]]; intros H1 H2.
    + rewrite (W1 H1 H2). exact Hexp.
    + rewrite (W2 H1 H2). exact Hboth.
    + rewrite (W3 H1 H2). exact Hearly.
    + rewrite (W4 H1 H2). apply (Hok (mkToken m h c sig true)). reflexivity.
Qed.

End TaxonomyOfTheParser.

Context {codecU : Codec auth_userid.Claims} {codecA : Codec auth.Claims}.

(** C2, as the code has it.  For a non-empty secret, ValidateToken
    answers a text that does not split into three segments with a header
    and claims that decode, or whose signature segment does not decode,
    as malformed; a header that declares no method the library knows, or
    one that is not an HMAC, as unverifiable, and not as an invalid
    signature; a signature that is not the HMAC of the first two segments
    under the secret as an invalid signature; a token whose signature is
    right, from the instant of its expiry plus the leeway on, as expired;
    a token that has not expired and whose not-before lies more than the
    leeway ahead as not yet valid; and it returns the decoded claims
    otherwise.  The single-identifier form allows five seconds of leeway
    and makes the errors for an expired token and for an invalid signature
    itself; the pair form allows no leeway and hands on the errors of the
    library.  Every error of the single-identifier form is of exactly one
    of the five kinds; so is every error of the pair form, but that of a
    token that has expired and is not yet valid, which is of both these
    kinds there; and each answer is recognised as the kind it stands
    for. *)
Theorem ValidateToken_taxonomy (now : Time) (tokenString secretKey : string) :
  secretKey <> "" ->
  answers answers_of_the_single_form auth_userid.Leeway now tokenString secretKey
    (auth_userid.ValidateToken now tokenString secretKey) /\
  answers answers_of_the_pair_form 0 now tokenString secretKey
    (auth.ValidateToken now tokenString secretKey) /\
  (forall e, snd (auth_userid.ValidateToken now tokenString secretKey) = Some e ->
     exists kind, filter (recognised_userid e) failures = [kind]) /\
  (forall e, snd (auth.ValidateToken now tokenString secretKey) = Some e ->
     (exists kind, filter (recognised_pair e) failures = [kind]) \/
     filter (recognised_pair e) failures = [Expired; NotValidYet]) /\
  (forall name,
     let a := answers_of_the_single_form in
     map (fun e => filter (recognised_userid e) failures)
       [for_malformed a; for_unknown_method a; for_other_method a name;
        for_wrong_signature a; for_expired a; for_expired_and_early a; for_early a]
     = [[Malformed]; [Unverifiable]; [Unverifiable];
        [InvalidSignature]; [Expired]; [Expired]; [NotValidYet]]) /\
  (forall name,
     let a := answers_of_the_pair_form in
     map (fun e => filter (recognised_pair e) failures)
       [for_malformed a; for_unknown_method a; for_other_method a name;
        for_wrong_signature a; for_expired a; for_expired_and_early a; for_early a]
     = [[Malformed]; [Unverifiable]; [Unverifiable];
        [InvalidSignature]; [Expired]; [Expired; NotValidYet]; [NotValidYet]]).
Proof.
  intros Hsecret.
  assert (String.eqb secretKey "" = false) as Hne by (apply String.eqb_neq; exact Hsecret).
  split; [| split; [| split; [| split; [| split; intros name; reflexivity]]]].
  - unfold auth_userid.ValidateToken. rewrite Hne.
    apply (answers_of_the_parser answers_of_the_single_form auth_userid.Leeway now
             tokenString secretKey (auth_userid.keyFunc secretKey)
             (fun parsed =>
                match parsed with
                | inl err =>
                  if errors_Is err ErrTokenExpired then (None, Some auth_userid.ErrExpired)
                  else if errors_Is err ErrTokenSignatureInvalid
                       then (None, Some auth_userid.ErrInvalidSignature)
                       else (None, Some err)
                | inr token =>
                  if negb (Valid token) then (None, Some auth_userid.ErrInvalidToken)
                  else (Some (TokenClaims token), None)
                end)); try reflexivity.
    + intros token hash Hm. unfold auth_userid.keyFunc. rewrite Hm. reflexivity.
    + intros m h c sig Hnot _. unfold auth_userid.keyFunc. cbn [Method].
      destruct m as [hash | | | | |]; try (eexists; split; reflexivity).
      exfalso. apply Hnot. exists hash. reflexivity.
    + intros token ->. reflexivity.
  - unfold auth.ValidateToken.
    apply (answers_of_the_parser answers_of_the_pair_form 0 now
             tokenString secretKey (auth.keyFunc secretKey)
             (fun parsed =>
                match parsed with
                | inl err => (None, Some err)
                | inr token =>
                  if negb (Valid token) then (None, Some (errors_New "invalid token"))
                  else (Some (TokenClaims token), None)
                end)); try reflexivity.
    + intros token hash Hm. unfold auth.keyFunc. rewrite Hm. reflexivity.
    + intros m h c sig Hnot Halg. unfold auth.keyFunc. cbn [Method TokenHeader].
      rewrite Halg.
      destruct m as [hash | | | | |]; try (eexists; split; reflexivity).
      exfalso. apply Hnot. exists hash. reflexivity.
    + intros token ->. reflexivity.
  - intros e. unfold auth_userid.ValidateToken. rewrite Hne.
    pose proof (ParseWithClaims_errors auth_userid.Leeway now tokenString
                  (auth_userid.keyFunc secretKey)) as Herr.
    destruct (ParseWithClaims auth_userid.Leeway now tokenString
                (auth_userid.keyFunc secretKey)) as [err | token].
    + destruct Herr as [-> | [[cause ->] | [[s [-> Hs]] | Hc]]].
      * intros He. injection He as <-. eexists. reflexivity.
      * intros He. injection He as <-. eexists. reflexivity.
      * destruct Hs as [<- | [<- | [<- | []]]];
          intros He; injection He as <-; eexists; reflexivity.
      * destruct Hc as [<- | [<- | [<- | []]]];
          intros He; injection He as <-; eexists; reflexivity.
    + rewrite Herr. discriminate.
  - intros e. unfold auth.ValidateToken.
    pose proof (ParseWithClaims_errors 0 now tokenString (auth.keyFunc secretKey)) as Herr.
    destruct (ParseWithClaims 0 now tokenString (auth.keyFunc secretKey)) as [err | token].
    + intros He. injection He as <-.
      destruct Herr as [-> | [[cause ->] | [[s [-> Hs]] | Hc]]].
      * left. eexists. reflexivity.
      * left. eexists. reflexivity.
      * left. destruct Hs as [<- | [<- | [<- | []]]]; eexists; reflexivity.
      * destruct Hc as [<- | [<- | [<- | []]]];
          first [right; reflexivity | left; eexists; reflexivity].
    + rewrite Herr. discriminate.
Qed.

End Taxonomy.

Section TaxonomyOnTheReferenceCodec.

Import jwt.

Lemma rs256_token_segments :
  segments (H := refcodec.codec_userid) rs256_token
    (mkHeader (Some "JWT") (Some "RS256"))
    (auth_userid.mkClaims 0 (mkRegisteredClaims None None None))
    "" "RS256.zNNN".
Proof. exists "RS256", "zNNN". repeat split. Qed.

Lemma rs256_not_hmac : ~ hmac_family (SigningMethodRSA SHA256).
Proof. intros [hash H]. discriminate H. Qed.

(** A token whose header declares RS256: ValidateToken answers with the
    library's unverifiable error, which wraps the text of the key
    function, and not with the invalid-signature error. *)
Example rs256_token_is_unverifiable :
  auth_userid.ValidateToken (H := refcodec.codec_userid) 0 rs256_token "secret"
  = (None, Some (jwt_error [ErrTokenUnverifiable] (Some "unexpected signing method"))) /\
  auth.ValidateToken (H := refcodec.codec_auth) 0 "RS256.zzNNN." "secret"
  = (None, Some (jwt_error [ErrTokenUnverifiable]
                   (Some "unexpected signing method: RS256"))).
Proof. split; reflexivity. Qed.

(** C2 as stated fails: it is not so that every token that declares a
    signing method outside the HMAC family is answered with the
    invalid-signature error. *)
Lemma other_algorithm_is_not_invalid_signature :
  ~ (forall (now : Time) (tokenString secretKey : string),
       secretKey <> "" ->
       declares_other_family (H := refcodec.codec_userid) tokenString ->
       snd (auth_userid.ValidateToken (H := refcodec.codec_userid)
              now tokenString secretKey)
       = Some auth_userid.ErrInvalidSignature).
Proof.
  intros Hclaim.
  assert (snd (auth_userid.ValidateToken (H := refcodec.codec_userid)
                 0 rs256_token "secret")
          = Some auth_userid.ErrInvalidSignature) as H.
  { apply Hclaim; [discriminate |].
    exists (mkHeader (Some "JWT") (Some "RS256")),
           (auth_userid.mkClaims 0 (mkRegisteredClaims None None None)),
           "", "RS256.zNNN", (SigningMethodRSA SHA256).
    split; [exact rs256_token_segments | split; [reflexivity | exact rs256_not_hmac]]. }
  vm_compute in H. discriminate H.
Qed.

Lemma rs256_pair_token_segments :
  segments (H := refcodec.codec_auth) "RS256.zzNNN."
    (mkHeader (Some "JWT") (Some "RS256"))
    (auth.mkClaims 0 0 (mkRegisteredClaims None None None))
    "" "RS256.zzNNN".
Proof. exists "RS256", "zzNNN". repeat split. Qed.

(** The same token under the theorem, and its like in the pair form:
    unverifiable, with the text of the key function, and not an invalid
    signature. *)
Lemma ValidateToken_taxonomy_witness :
  auth_userid.ValidateToken (H := refcodec.codec_userid) 0 rs256_token "secret"
  = (None, Some (jwt_error [ErrTokenUnverifiable] (Some "unexpected signing method"))) /\
  auth.ValidateToken (H := refcodec.codec_auth) 0 "RS256.zzNNN." "secret"
  = (None, Some (jwt_error [ErrTokenUnverifiable]
                   (Some "unexpected signing method: RS256"))).
Proof.
  assert ("secret" <> "") as Hsecret by discriminate.
  split.
  - destruct (ValidateToken_taxonomy (codecU := refcodec.codec_userid)
                (codecA := refcodec.codec_auth) 0 rs256_token "secret" Hsecret)
      as [[_ H] _].
    destruct (H _ _ _ _ rs256_token_segments) as [_ Hm].
    destruct (Hm (SigningMethodRSA SHA256) eq_refl) as [_ Hsig].
    destruct (Hsig "" eq_refl) as [Hother _].
    exact (Hother rs256_not_hmac).
  - destruct (ValidateToken_taxonomy (codecU := refcodec.codec_userid)
                (codecA := refcodec.codec_auth) 0 "RS256.zzNNN." "secret" Hsecret)
      as [_ [[_ H] _]].
    destruct (H _ _ _ _ rs256_pair_token_segments) as [_ Hm].
    destruct (Hm (SigningMethodRSA SHA256) eq_refl) as [_ Hsig].
    destruct (Hsig "" eq_refl) as [Hother _].
    exact (Hother rs256_not_hmac).
Defined.

(** The table of TestValidateToken (internal/auth/jwt_test.go), with the
    clock at 1700000000 s: a valid token, a token that expired a minute
    ago, a token signed under another secret, a text that is no token, and
    an empty secret. *)
Example ValidateToken_contract_tests :
  let now := 1700000000 * Second in
  let validate := auth_userid.ValidateToken (H := refcodec.codec_userid) now in
  let validToken :=
    fst (auth_userid.GenerateAccessToken (H := refcodec.codec_userid)
           now now 123 "supersecretkey") in
  let expiredToken :=
    SignedString (H0 := refcodec.codec_userid) SHA256
      (auth_userid.mkClaims 123
         (mkRegisteredClaims (Some (NewNumericDate (now - 1 * Minute))) None
            (Some (NewNumericDate (now - 5 * Minute)))))
      "supersecretkey" in
  let tokenWithWrongSecret :=
    fst (auth_userid.GenerateAccessToken (H := refcodec.codec_userid)
           now now 123 "wrongsecret") in
  validate validToken "supersecretkey"
    = (Some (auth_userid.mkClaims 123
               (mkRegisteredClaims (Some 1700000900) None (Some 1700000000))), None) /\
  validate expiredToken "supersecretkey" = (None, Some auth_userid.ErrExpired) /\
  validate tokenWithWrongSecret "supersecretkey"
    = (None, Some auth_userid.ErrInvalidSignature) /\
  fails_with ErrTokenMalformed (validate "not a token" "supersecretkey") /\
  validate validToken "" = (None, Some auth_userid.ErrEmptySecret).
Proof.
  vm_compute. repeat split. eexists. split; reflexivity.
Qed.

(** A token that is not valid before 1700003600 s is refused at
    1700000000 s although its signature is right and it has not expired:
    the claims are not returned. *)
Example not_yet_valid_token_is_refused :
  let now := 1700000000 * Second in
  let token :=
    SignedString (H0 := refcodec.codec_userid) SHA256
      (auth_userid.mkClaims 123
         (mkRegisteredClaims (Some 1700007200) (Some 1700003600) (Some 1700000000)))
      "supersecretkey" in
  auth_userid.ValidateToken (H := refcodec.codec_userid) now token "supersecretkey"
  = (None, Some (jwt_error [ErrTokenInvalidClaims; ErrTokenNotValidYet] None)).
Proof. vm_compute. reflexivity. Qed.

(** The two forms differ in leeway: three seconds after the expiry, the
    single-identifier form (five seconds of leeway) still accepts the
    token, and the pair form (none) answers that it has expired. *)
Example leeway_of_the_two_forms :
  let issued := 1700000000 * Second in
  let now := issued + 15 * Minute + 3 * Second in
  snd (auth_userid.ValidateToken (H := refcodec.codec_userid) now
         (fst (auth_userid.GenerateAccessToken (H := refcodec.codec_userid)
                 issued issued 123 "supersecretkey")) "supersecretkey")
  = None /\
  snd (auth.ValidateToken (H := refcodec.codec_auth) now
         (fst (auth.GenerateAccessToken (H := refcodec.codec_auth)
                 issued issued 123 456 "supersecretkey")) "supersecretkey")
  = Some (jwt_error [ErrTokenInvalidClaims; ErrTokenExpired] None).
Proof. vm_compute. split; reflexivity. Qed.

End TaxonomyOnTheReferenceCodec.

(** ** Credential store: lookups, refusals and sequences *)

Section CredentialStoreCompositions.

Import database models repository.

(** *** The not-found sentinels *)

Lemma scan_Account_inl (r : AccountRow) (err : error) :
  scan_Account r = inl err -> exists column, err = convert_Error column.
Proof.
  unfold scan_Account, scan_Time, scan_bool.
  destruct (A_Created_At r); [| intros H; injection H as <-; eauto].
  destruct (A_Updated_At r); [| intros H; injection H as <-; eauto].
  destruct (Is_Locked r) as [[| [p | p |] | p] |]; try discriminate;
    intros H; injection H as <-; eauto.
Qed.

Lemma scan_Lender_inl (r : LenderRow) (err : error) :
  scan_Lender r = inl err -> exists column, err = convert_Error column.
Proof.
  unfold scan_Lender, scan_Time, scan_bool.
  destruct (L_Created_At r); [| intros H; injection H as <-; eauto].
  destruct (L_Updated_At r); [| intros H; injection H as <-; eauto].
  destruct (Is_Active r) as [[| [p | p |] | p] |]; try discriminate;
    intros H; injection H as <-; eauto.
Qed.


Lemma QueryRow_Scan_account_not_found (f : Faults) (tbl : list AccountRow)
    (where_ : AccountRow -> bool) :
  (match QueryRow_Scan f AtQueryAccount tbl where_ scan_Account with
   | inl err => if is_ErrNoRows err then (None, Some ErrAccountNotFound)
                else (None, Some err)
   | inr account => (Some account, None)
   end) = (None, Some ErrAccountNotFound) <->
  f AtQueryAccount = None /\ forall r, In r tbl -> where_ r = false.
Proof.
  unfold QueryRow_Scan, QueryRow.
  destruct (f AtQueryAccount) as [code |].
  { cbn. split; [discriminate | intros [Habs _]; discriminate]. }
  destruct (find where_ tbl) as [r |] eqn:Hfind.
  - split.
    + destruct (scan_Account r) as [err | a] eqn:Hs; [| discriminate].
      destruct (scan_Account_inl r err Hs) as [column ->]. discriminate.
    + intros [_ Hn]. apply find_some in Hfind. destruct Hfind as [Hr Hw].
      rewrite (Hn r Hr) in Hw. discriminate.
  - cbn. split; [| reflexivity]. intros _. split; [reflexivity |].
    exact (proj1 (find_none_iff _ _) Hfind).
Qed.

(** X7.  The not-found sentinels are exact.  A lookup answers
    ErrAccountNotFound only when the store answered the query and holds no
    such account, and GetLenderByAccountID answers ErrLenderNotFound only
    when the account is there and the lender it names is not; a failure of
    the store is handed on as it is, never as not-found. *)
Theorem not_found_only_when_absent (f : Faults) (c : Conn) :
  (forall username,
     GetAccountByUsername f username c = (None, Some ErrAccountNotFound) <->
     f AtQueryAccount = None /\ no_account_named (disk c) username) /\
  (forall accountID,
     GetAccountByID f accountID c = (None, Some ErrAccountNotFound) <->
     f AtQueryAccount = None /\ no_account_with_id (disk c) accountID) /\
  (forall accountID,
     GetLenderByAccountID f accountID c = (None, Some ErrAccountNotFound) <->
     f AtQueryAccount = None /\ no_account_with_id (disk c) accountID) /\
  (forall accountID,
     GetLenderByAccountID f accountID c = (None, Some ErrLenderNotFound) <->
     f AtQueryAccount = None /\ f AtQueryLender = None /\
     exists r, account_row (disk c) accountID = Some r /\
               no_lender_with_id (disk c) (A_Lender_ID r)) /\
  (forall code username accountID,
     f AtQueryAccount = Some code ->
     GetAccountByUsername f username c = (None, Some (driver_Error code)) /\
     GetAccountByID f accountID c = (None, Some (driver_Error code)) /\
     GetLenderByAccountID f accountID c = (None, Some (driver_Error code))).
Proof.
  split; [| split; [| split; [| split]]].
  - intros username. unfold GetAccountByUsername.
    rewrite QueryRow_Scan_account_not_found. unfold no_account_named.
    split; intros [Hf Hn]; (split; [exact Hf |]); intros r Hr.
    + apply String.eqb_neq. exact (Hn r Hr).
    + apply String.eqb_neq. exact (Hn r Hr).
  - intros accountID. unfold GetAccountByID.
    rewrite QueryRow_Scan_account_not_found. unfold no_account_with_id.
    split; intros [Hf Hn]; (split; [exact Hf |]); intros r Hr.
    + apply Z.eqb_neq. exact (Hn r Hr).
    + apply Z.eqb_neq. exact (Hn r Hr).
  - intros accountID. unfold GetLenderByAccountID, QueryRow_Scan, QueryRow, no_account_with_id.
    destruct (f AtQueryAccount) as [code |].
    { cbn. split; [discriminate | intros [Habs _]; discriminate]. }
    destruct (find (fun r => Z.eqb (Account_ID r) accountID) (Accounts (disk c)))
      as [r |] eqn:Hfind.
    + apply find_some in Hfind. destruct Hfind as [Hr Hid]. apply Z.eqb_eq in Hid.
      split.
      * destruct (f AtQueryLender) as [code |]; [cbn; discriminate |].
        destruct (find (fun r0 => Z.eqb (Lender_ID r0) (A_Lender_ID r)) (Lenders (disk c)))
          as [l |]; [| cbn; discriminate].
        destruct (scan_Lender l) as [err | lender] eqn:Hs; [| discriminate].
        destruct (scan_Lender_inl l err Hs) as [column ->]. discriminate.
      * intros [_ Hn]. exfalso. exact (Hn r Hr Hid).
    + cbn. split; [| reflexivity]. intros _. split; [reflexivity |].
      intros r Hr. apply Z.eqb_neq. exact (proj1 (find_none_iff _ _) Hfind r Hr).
  - intros accountID. unfold GetLenderByAccountID, QueryRow_Scan, QueryRow, account_row,
      no_lender_with_id.
    destruct (f AtQueryAccount) as [code |].
    { cbn. split; [discriminate | intros [Habs _]; discriminate]. }
    destruct (find (fun r => Z.eqb (Account_ID r) accountID) (Accounts (disk c)))
      as [r |] eqn:Hfind.
    + destruct (f AtQueryLender) as [code |].
      { cbn. split; [discriminate | intros [_ [Habs _]]; discriminate]. }
      destruct (find (fun r0 => Z.eqb (Lender_ID r0) (A_Lender_ID r)) (Lenders (disk c)))
        as [l |] eqn:Hl.
      * split.
        -- destruct (scan_Lender l) as [err | lender] eqn:Hs; [| discriminate].
           destruct (scan_Lender_inl l err Hs) as [column ->]. discriminate.
        -- intros [_ [_ [r' [Hr' Hn]]]]. injection Hr' as <-.
           apply find_some in Hl. destruct Hl as [Hin Hid]. apply Z.eqb_eq in Hid.
           exfalso. exact (Hn l Hin Hid).
      * cbn. split; [| reflexivity]. intros _.
        split; [reflexivity |]. split; [reflexivity |].
        exists r. split; [reflexivity |].
        intros l Hin. apply Z.eqb_neq. exact (proj1 (find_none_iff _ _) Hl l Hin).
    + cbn. split; [discriminate |]. intros [_ [_ [r [Habs _]]]]. discriminate.
  - intros code username accountID Hf.
    unfold GetAccountByUsername, GetAccountByID, GetLenderByAccountID, QueryRow_Scan, QueryRow.
    rewrite Hf. repeat split.
Qed.

(** *** Lookups by name and by identifier *)

Lemma find_by_key {A K : Type} (key : A -> K) (eqb : K -> K -> bool) (l : list A) (r : A) :
  (forall a b, eqb a b = true <-> a = b) ->
  NoDup (map key l) -> In r l ->
  find (fun x => eqb (key x) (key r)) l = Some r.
Proof.
  intros Heqb. induction l as [| a l IH]; intros Hnd Hin; [destruct Hin |].
  cbn [map] in Hnd. inversion Hnd as [| k ks Hnotin Hnd']; subst.
  cbn [find]. destruct Hin as [-> | Hin].
  - rewrite (proj2 (Heqb (key r) (key r)) eq_refl). reflexivity.
  - destruct (eqb (key a) (key r)) eqn:E.
    + apply Heqb in E. exfalso. apply Hnotin. rewrite E. apply in_map. exact Hin.
    + apply IH; trivial.
Qed.

Lemma scan_Account_inr (r : AccountRow) (account : Account) :
  scan_Account r = inr account ->
  AccountID account = Account_ID r /\ AccountUsername account = Username r /\
  AccountLenderID account = A_Lender_ID r.
Proof.
  unfold scan_Account.
  destruct (scan_Time "Created_At" (A_Created_At r)); [discriminate |].
  destruct (scan_Time "Updated_At" (A_Updated_At r)); [discriminate |].
  destruct (scan_bool "Is_Locked" (Is_Locked r)); [discriminate |].
  intros H. injection H as <-. repeat split.
Qed.

Lemma scan_Lender_inr (l : LenderRow) (lender : Lender) :
  scan_Lender l = inr lender -> LenderID lender = Lender_ID l.
Proof.
  unfold scan_Lender.
  destruct (scan_Time "Created_At" (L_Created_At l)); [discriminate |].
  destruct (scan_Time "Updated_At" (L_Updated_At l)); [discriminate |].
  destruct (scan_bool "Is_Active" (Is_Active l)); [discriminate |].
  intros H. injection H as <-. reflexivity.
Qed.

(** What a lookup that returns an account has read. *)
Lemma lookup_inr (f : Faults) (tbl : list AccountRow) (where_ : AccountRow -> bool)
    (account : Account) :
  (match QueryRow_Scan f AtQueryAccount tbl where_ scan_Account with
   | inl err => if is_ErrNoRows err then (None, Some ErrAccountNotFound)
                else (None, Some err)
   | inr account => (Some account, None)
   end) = (Some account, None) <->
  f AtQueryAccount = None /\
  exists r, find where_ tbl = Some r /\ scan_Account r = inr account.
Proof.
  unfold QueryRow_Scan, QueryRow.
  destruct (f AtQueryAccount) as [code |].
  { cbn. split; [discriminate | intros [Habs _]; discriminate]. }
  destruct (find where_ tbl) as [r |].
  - destruct (scan_Account r) as [err | a] eqn:Hscan.
    + split; [destruct (is_ErrNoRows err); discriminate |].
      intros [_ [r' [Hr' Habs]]]. injection Hr' as <-. congruence.
    + split.
      * intros H. injection H as ->. split; [reflexivity |]. eauto.
      * intros [_ [r' [Hr' Hs]]]. injection Hr' as <-. congruence.
  - cbn. split; [discriminate |]. intros [_ [r [Habs _]]]. discriminate.
Qed.

(** X8.  In a store whose account identifiers and usernames are not
    repeated, the two lookups of an account agree: the account found under
    a username is the one found under its identifier, and conversely; and
    the lender that GetLenderByAccountID returns is the one the account
    names. *)
Theorem lookups_agree (f : Faults) (c : Conn) :
  NoDup (map Account_ID (Accounts (disk c))) ->
  NoDup (map Username (Accounts (disk c))) ->
  (forall username account,
     GetAccountByUsername f username c = (Some account, None) ->
     AccountUsername account = username /\
     GetAccountByID f (AccountID account) c = (Some account, None)) /\
  (forall accountID account,
     GetAccountByID f accountID c = (Some account, None) ->
     AccountID account = accountID /\
     GetAccountByUsername f (AccountUsername account) c = (Some account, None)) /\
  (forall accountID account lender,
     GetAccountByID f accountID c = (Some account, None) ->
     GetLenderByAccountID f accountID c = (Some lender, None) ->
     LenderID lender = AccountLenderID account).
Proof.
  intros Hid Huser. split; [| split].
  - intros username account Hget. unfold GetAccountByUsername in Hget.
    apply lookup_inr in Hget. destruct Hget as [Hf [r [Hfind Hscan]]].
    apply find_some in Hfind. destruct Hfind as [Hin Hname]. apply String.eqb_eq in Hname.
    destruct (scan_Account_inr r account Hscan) as [Ha [Hu _]].
    split; [congruence |].
    unfold GetAccountByID. apply lookup_inr. split; [exact Hf |].
    exists r. split; [| exact Hscan]. rewrite Ha.
    apply (find_by_key Account_ID Z.eqb); trivial. apply Z.eqb_eq.
  - intros accountID account Hget. unfold GetAccountByID in Hget.
    apply lookup_inr in Hget. destruct Hget as [Hf [r [Hfind Hscan]]].
    apply find_some in Hfind. destruct Hfind as [Hin Hname]. apply Z.eqb_eq in Hname.
    destruct (scan_Account_inr r account Hscan) as [Ha [Hu _]].
    split; [congruence |].
    unfold GetAccountByUsername. apply lookup_inr. split; [exact Hf |].
    exists r. split; [| exact Hscan]. rewrite Hu.
    apply (find_by_key Username String.eqb); trivial. apply String.eqb_eq.
  - intros accountID account lender Hget Hlender. unfold GetAccountByID in Hget.
    apply lookup_inr in Hget. destruct Hget as [Hf [r [Hfind Hscan]]].
    destruct (scan_Account_inr r account Hscan) as [_ [_ Hl]].
    revert Hlender. unfold GetLenderByAccountID, QueryRow_Scan, QueryRow.
    rewrite Hf, Hfind.
    destruct (f AtQueryLender); [cbn; discriminate |].
    destruct (find (fun r0 => Z.eqb (Lender_ID r0) (A_Lender_ID r)) (Lenders (disk c)))
      as [l |] eqn:Hl'; [| cbn; discriminate].
    destruct (scan_Lender l) as [err | lender'] eqn:Hs;
      [destruct (is_ErrNoRows err); discriminate |].
    intros H. injection H as ->.
    apply find_some in Hl'. destruct Hl' as [_ Hl']. apply Z.eqb_eq in Hl'.
    rewrite (scan_Lender_inr l lender Hs). congruence.
Qed.

(** On the one-account store, account 1 is "updateruser" both ways. *)
Lemma lookups_agree_witness :
  GetAccountByID no_faults 1 (mkConn one_account_db None)
  = (Some (mkAccount 1 1 "updateruser" "hashedpassupdate" 1000 1000 None false), None).
Proof.
  refine (proj2 (proj1 (lookups_agree no_faults (mkConn one_account_db None) _ _)
                   "updateruser"
                   (mkAccount 1 1 "updateruser" "hashedpassupdate" 1000 1000 None false)
                   eq_refl)).
  - cbn. constructor; [intros [] | constructor].
  - cbn. constructor; [intros [] | constructor].
Defined.

(** *** What an onboarding is refused for *)

(** X9.  On an idle connection and a store that answers,
    CreateLenderAndAccount is refused by the first constraint that the
    inputs break, in the order: a rate that is not a number (NOT NULL), a
    rate outside 0..100 (CHECK), an email in use (UNIQUE), a username in
    use (UNIQUE); it returns identifier 0 with the constraint's error and
    leaves the connection as it was. *)
Theorem CreateLenderAndAccount_refusals (f : Faults) (now : Time)
    (businessName email phone username passwordHash : string) (interestRate : float)
    (c : Conn) :
  txn c = None -> store_answers f ->
  let r := CreateLenderAndAccount f now businessName email phone username passwordHash
             interestRate c in
  let refused k := r = ((0, Some (sqlite_ErrConstraint k)), c) in
  (PrimFloat.is_nan interestRate = true ->
     refused NOTNULL_Lenders_Interest_Rate_Percent) /\
  (PrimFloat.is_nan interestRate = false ->
   check_Interest_Rate_Percent interestRate = false ->
     refused CHECK_Lenders_Interest_Rate_Percent) /\
  (rate_in_range interestRate -> email_taken (disk c) email ->
     refused UNIQUE_Lenders_Email) /\
  (rate_in_range interestRate -> ~ email_taken (disk c) email ->
   username_taken (disk c) username ->
     refused UNIQUE_Accounts_Username).
Proof.
  intros Htxn Hf. cbv zeta.
  assert (mkConn (disk c) None = c) as Hc by (destruct c; cbn in *; congruence).
  unfold CreateLenderAndAccount, Begin. rewrite (Hf AtBegin), Htxn.
  unfold defer_Rollback, or_return0, pure_step, check, Prepare, tx_Exec, LastInsertId.
  cbn [txn disk]. rewrite (Hf AtPrepareLender), (Hf AtExecLender).
  split; [| split; [| split]].
  - intros Hnan. unfold insert_Lender. rewrite Hnan. cbn. rewrite Hc. reflexivity.
  - intros Hnan Hcheck. unfold insert_Lender. rewrite Hnan, Hcheck. cbn.
    rewrite Hc. reflexivity.
  - intros [Hnan [H0 H100]] [row [Hin Hemail]]. unfold insert_Lender.
    rewrite Hnan. unfold check_Interest_Rate_Percent. rewrite H0, H100. cbn [andb negb].
    assert (existsb (fun r => String.eqb (Email r) email) (Lenders (disk c)) = true) as ->.
    { apply existsb_exists. exists row. split; trivial. apply String.eqb_eq. exact Hemail. }
    cbn. rewrite Hc. reflexivity.
  - intros Hrate Hemail [row [Hin Huser]].
    destruct (insert_Lender_fresh businessName phone email interestRate now now (disk c)
                Hrate Hemail) as [lenderID [w1 HL]].
    rewrite HL. cbn [txn disk].
    rewrite (Hf AtLastInsertIdLender), (Hf AtPrepareAccount), (Hf AtExecAccount).
    apply insert_Lender_inr in HL. destruct HL as [_ ->].
    unfold insert_Account. cbn [Accounts].
    assert (existsb (fun r => String.eqb (Username r) username) (Accounts (disk c)) = true)
      as ->.
    { apply existsb_exists. exists row. split; trivial. apply String.eqb_eq. exact Huser. }
    cbn. rewrite Hc. reflexivity.
Qed.

(** A second onboarding under the username of the first, on the
    one-account store: refused for the username, the lender that was
    inserted before it is gone again. *)
Lemma CreateLenderAndAccount_refusals_witness :
  CreateLenderAndAccount no_faults 2000 "Another Business" "another@example.com"
    "987-654-3210" "updateruser" "anotherhash" 6 (mkConn one_account_db None)
  = ((0, Some (sqlite_ErrConstraint UNIQUE_Accounts_Username)), mkConn one_account_db None).
Proof.
  refine (proj2 (proj2 (proj2 (CreateLenderAndAccount_refusals no_faults 2000
            "Another Business" "another@example.com" "987-654-3210" "updateruser"
            "anotherhash" 6 (mkConn one_account_db None) eq_refl (fun s => eq_refl))))
            _ _ _).
  - repeat split.
  - intros [r [[<- | []] He]]. discriminate.
  - eexists. split; [left; reflexivity | reflexivity].
Defined.

(** *** After a commit that failed *)

(** X10.  The identifier that CreateLenderAndAccount returns together
    with the error of a failed commit is not reserved: the next onboarding
    that succeeds on the connection, whoever it is for, gets the same
    identifier, and a lookup by it then returns the other account. *)
Theorem failed_commit_identifier_is_reused (f g : Faults) (now now' : Time)
    (businessName email phone username passwordHash : string) (interestRate : float)
    (businessName' email' phone' username' passwordHash' : string) (interestRate' : float)
    (c : Conn) (code : Z) :
  txn c = None ->
  fails_only_at_commit f -> f AtCommit = Some code -> store_answers g ->
  rate_in_range interestRate ->
  ~ email_taken (disk c) email -> ~ username_taken (disk c) username ->
  rate_in_range interestRate' ->
  ~ email_taken (disk c) email' -> ~ username_taken (disk c) username' ->
  let r := CreateLenderAndAccount f now businessName email phone username passwordHash
             interestRate c in
  let r' := CreateLenderAndAccount g now' businessName' email' phone' username'
              passwordHash' interestRate' (snd r) in
  snd (fst r) = Some (driver_Error code) /\
  snd (fst r') = None /\
  fst (fst r') = fst (fst r) /\
  exists account,
    GetAccountByID g (fst (fst r)) (snd r') = (Some account, None) /\
    AccountUsername account = username'.
Proof.
  intros Htxn Hf Hcommit Hg Hrate Hemail Huser Hrate' Hemail' Huser'. cbv zeta.
  destruct (CreateLenderAndAccount_reaches_commit f now businessName email phone
              username passwordHash interestRate c Htxn Hf Hrate Hemail Huser)
    as [lenderID [w1 [accountID [w2 [HL [HA Hrun]]]]]].
  rewrite Hrun, Hcommit. cbn [fst snd].
  destruct (CreateLenderAndAccount_reaches_commit g now' businessName' email' phone'
              username' passwordHash' interestRate' (mkConn (disk c) None) eq_refl
              (fun s _ => Hg s) Hrate' Hemail' Huser')
    as [lenderID' [w1' [accountID' [w2' [HL' [HA' Hrun']]]]]].
  rewrite Hrun', (Hg AtCommit). cbn [fst snd].
  split; [reflexivity |]. split; [reflexivity |].
  assert (accountID' = accountID) as Hsame.
  { pose proof HL as H1. apply insert_Lender_inr in H1. destruct H1 as [_ Hw1].
    pose proof HL' as H2. apply insert_Lender_inr in H2. destruct H2 as [_ Hw2].
    pose proof HA as H3. apply insert_Account_inr in H3. destruct H3 as [-> _].
    pose proof HA' as H4. apply insert_Account_inr in H4. destruct H4 as [-> _].
    rewrite Hw1, Hw2. reflexivity. }
  split; [exact Hsame |].
  cbn [disk] in HL'.
  destruct (created_intro _ _ _ _ _ _ _ _ _ _ _ _ HL' HA')
    as [lid [_ [_ [_ [_ [Hget _]]]]]].
  eexists. split.
  - rewrite <- Hsame. unfold GetAccountByID, QueryRow_Scan, QueryRow in *.
    rewrite (Hg AtQueryAccount). exact Hget.
  - reflexivity.
Qed.

(** On the one-account store: the commit of the onboarding of
    "anotheruser" fails and returns identifier 2; the onboarding of
    "thirduser" that follows returns identifier 2 as well. *)
Lemma failed_commit_identifier_is_reused_witness :
  let r := CreateLenderAndAccount (commit_fails 5) 2000 "Another Business"
             "another@example.com" "987-654-3210" "anotheruser" "anotherhash" 6
             (mkConn one_account_db None) in
  let r' := CreateLenderAndAccount no_faults 3000 "Third Business" "third@example.com"
              "555-000-1111" "thirduser" "thirdhash" 7 (snd r) in
  fst (fst r') = fst (fst r).
Proof.
  refine (proj1 (proj2 (proj2 (failed_commit_identifier_is_reused (commit_fails 5)
            no_faults 2000 3000
            "Another Business" "another@example.com" "987-654-3210" "anotheruser"
            "anotherhash" 6
            "Third Business" "third@example.com" "555-000-1111" "thirduser" "thirdhash" 7
            (mkConn one_account_db None) 5 eq_refl _ eq_refl (fun s => eq_refl)
            _ _ _ _ _ _)))).
  - intros s Hs. destruct s; try reflexivity. contradiction.
  - repeat split.
  - intros [r [[<- | []] He]]. discriminate.
  - intros [r [[<- | []] He]]. discriminate.
  - repeat split.
  - intros [r [[<- | []] He]]. discriminate.
  - intros [r [[<- | []] He]]. discriminate.
Defined.

(** *** Logins in sequence *)

Lemma logged_in_twice now1 clk1 now2 clk2 accountID r :
  logged_in now2 clk2 accountID (logged_in now1 clk1 accountID r)
  = logged_in now2 clk2 accountID r.
Proof.
  unfold logged_in. destruct (Z.eqb (Account_ID r) accountID) eqn:E; cbn [Account_ID].
  - rewrite E. reflexivity.
  - rewrite E. reflexivity.
Qed.

Lemma logged_in_commute now1 clk1 now2 clk2 id1 id2 r :
  id1 <> id2 ->
  logged_in now2 clk2 id2 (logged_in now1 clk1 id1 r)
  = logged_in now1 clk1 id1 (logged_in now2 clk2 id2 r).
Proof.
  intros Hne. unfold logged_in.
  destruct (Z.eqb (Account_ID r) id1) eqn:E1;
    destruct (Z.eqb (Account_ID r) id2) eqn:E2;
    cbn [Account_ID]; rewrite ?E1, ?E2; try reflexivity.
  apply Z.eqb_eq in E1, E2. congruence.
Qed.

Lemma UpdateLastLogin_runs (f : Faults) (now sqlclock : Time) (accountID : Z) (c : Conn) :
  f AtPrepareUpdate = None -> f AtExecUpdate = None ->
  UpdateLastLogin f now sqlclock accountID c
  = (None, mkConn (with_Accounts (map (logged_in now sqlclock accountID)
                                    (Accounts (disk c))) (disk c)) (txn c)).
Proof.
  intros Hp He. unfold UpdateLastLogin, Prepare. rewrite Hp, He, UPDATE_last_login.
  reflexivity.
Qed.

(** X11.  Logins compose.  Of two logins of the same account the later
    one is what the store keeps: the store is as if the earlier had not
    happened; and logins of two different accounts can be swapped without
    changing the store. *)
Theorem UpdateLastLogin_in_sequence (f : Faults) (now1 clk1 now2 clk2 : Time)
    (id1 id2 : Z) (c : Conn) :
  f AtPrepareUpdate = None -> f AtExecUpdate = None ->
  snd (UpdateLastLogin f now2 clk2 id1 (snd (UpdateLastLogin f now1 clk1 id1 c)))
  = snd (UpdateLastLogin f now2 clk2 id1 c) /\
  (id1 <> id2 ->
   snd (UpdateLastLogin f now2 clk2 id2 (snd (UpdateLastLogin f now1 clk1 id1 c)))
   = snd (UpdateLastLogin f now1 clk1 id1 (snd (UpdateLastLogin f now2 clk2 id2 c)))).
Proof.
  intros Hp He. rewrite !UpdateLastLogin_runs by assumption.
  cbn [snd disk txn with_Accounts Accounts Lenders seq_Lenders seq_Accounts foreign_keys].
  rewrite !map_map. split.
  - unfold with_Accounts. cbn. f_equal. f_equal.
    apply map_ext. intros r. apply logged_in_twice.
  - intros Hne. unfold with_Accounts. cbn. f_equal. f_equal.
    apply map_ext. intros r. apply logged_in_commute. exact Hne.
Qed.

(** Account 1 logs in at 5 s and again at 9 s: the store keeps 9 s. *)
Lemma UpdateLastLogin_in_sequence_witness :
  snd (UpdateLastLogin no_faults 9000000000 9000000000 1
         (snd (UpdateLastLogin no_faults 5000000000 5000000000 1
                 (mkConn one_account_db None))))
  = snd (UpdateLastLogin no_faults 9000000000 9000000000 1 (mkConn one_account_db None)).
Proof.
  exact (proj1 (UpdateLastLogin_in_sequence no_faults 5000000000 5000000000
                  9000000000 9000000000 1 2 (mkConn one_account_db None) eq_refl eq_refl)).
Defined.

End CredentialStoreCompositions.

(** ** Token engine: what is accepted, and when *)

(** *** Refresh tokens *)

Section RefreshTokens.

Import jwt.

Context {codecA : Codec auth.Claims}
        {lawsA : @CodecLaws auth.Claims auth.Claims_jwt codecA}
        {codecU : Codec auth_userid.Claims}
        {lawsU : @CodecLaws auth_userid.Claims auth_userid.Claims_jwt codecU}.

Lemma RefreshTokenDuration_range : 0 <= 7 * 24 * Hour < 2 ^ 62.
Proof. unfold Hour, Minute, Second. change (2 ^ 62) with 4611686018427387904. lia. Qed.

(** X12.  ValidateToken does not tell a refresh token from an access
    token: a refresh token validates like any token, under the secret it
    was signed with, until its seven days are over, and the extracting
    operations read the identity from it; so it is still accepted when
    the access token of the same issue has expired. *)
Theorem refresh_token_is_accepted
    (now1 now2 now3 : Time) (accountID lenderID userID : Z) (secretKey : string) :
  secretKey <> "" ->
  plausible now1 -> plausible now2 ->
  now3 <= now1 + 7 * 24 * Hour - Second ->
  (auth.ValidateToken now3
     (fst (auth.GenerateRefreshToken now1 now2 accountID lenderID secretKey)) secretKey
   = (Some (auth.newClaims auth.RefreshTokenDuration now1 now2 accountID lenderID), None) /\
   auth.ExtractAccountID now3
     (fst (auth.GenerateRefreshToken now1 now2 accountID lenderID secretKey)) secretKey
   = (accountID, None) /\
   auth.ExtractLenderID now3
     (fst (auth.GenerateRefreshToken now1 now2 accountID lenderID secretKey)) secretKey
   = (lenderID, None)) /\
  (auth_userid.ValidateToken now3
     (fst (auth_userid.GenerateRefreshToken now1 now2 userID secretKey)) secretKey
   = (Some (auth_userid.newClaims auth_userid.RefreshTokenDuration now1 now2 userID), None) /\
   auth_userid.ExtractUserID now3
     (fst (auth_userid.GenerateRefreshToken now1 now2 userID secretKey)) secretKey
   = (userID, None)).
Proof.
  intros Hsecret H1 H2 Hnow3.
  apply String.eqb_neq in Hsecret.
  pose proof (Truncate_bounds (now1 + 7 * 24 * Hour)) as Htr.
  assert (auth.ValidateToken now3
            (fst (auth.GenerateRefreshToken now1 now2 accountID lenderID secretKey)) secretKey
          = (Some (auth.newClaims auth.RefreshTokenDuration now1 now2 accountID lenderID),
             None)) as HA.
  { unfold auth.ValidateToken, auth.GenerateRefreshToken. cbn [fst].
    rewrite (ParseWithClaims_signed SHA256 _ secretKey secretKey 0 now3
               (auth.keyFunc secretKey));
      [| apply newClaims_auth_exact; trivial; apply RefreshTokenDuration_range
       | intros token; apply keyFunc_auth].
    cbv zeta. rewrite String.eqb_refl.
    unfold Validate, verifyExpiresAt, verifyNotBefore.
    cbn [GetExpirationTime GetNotBefore auth.Claims_jwt auth.newClaims
         auth.Registered ExpiresAt NotBefore].
    change auth.RefreshTokenDuration with (7 * 24 * Hour).
    assert (Z.ltb now3 (instant (NewNumericDate (now1 + 7 * 24 * Hour)) + 0) = true) as ->
      by (apply Z.ltb_lt; lia).
    reflexivity. }
  assert (auth_userid.ValidateToken now3
            (fst (auth_userid.GenerateRefreshToken now1 now2 userID secretKey)) secretKey
          = (Some (auth_userid.newClaims auth_userid.RefreshTokenDuration now1 now2 userID),
             None)) as HU.
  { unfold auth_userid.ValidateToken, auth_userid.GenerateRefreshToken.
    rewrite Hsecret. cbn [fst].
    rewrite (ParseWithClaims_signed SHA256 _ secretKey secretKey auth_userid.Leeway now3
               (auth_userid.keyFunc secretKey));
      [| apply newClaims_userid_exact; trivial; apply RefreshTokenDuration_range
       | intros token; apply keyFunc_userid].
    cbv zeta. rewrite String.eqb_refl.
    unfold Validate, verifyExpiresAt, verifyNotBefore.
    cbn [GetExpirationTime GetNotBefore auth_userid.Claims_jwt auth_userid.newClaims
         auth_userid.Registered ExpiresAt NotBefore].
    change auth_userid.RefreshTokenDuration with (7 * 24 * Hour).
    assert (Z.ltb now3 (instant (NewNumericDate (now1 + 7 * 24 * Hour))
                        + auth_userid.Leeway) = true) as ->
      by (apply Z.ltb_lt; unfold auth_userid.Leeway, Second in *; lia).
    reflexivity. }
  split; [split; [exact HA | split] | split; [exact HU |]].
  - unfold auth.ExtractAccountID. rewrite HA. reflexivity.
  - unfold auth.ExtractLenderID. rewrite HA. reflexivity.
  - unfold auth_userid.ExtractUserID. rewrite HU. reflexivity.
Qed.

End RefreshTokens.

(** A day after the issue the refresh token still gives the identity. *)
Lemma refresh_token_is_accepted_witness :
  auth.ExtractAccountID (H := refcodec.codec_auth) (1700086400 * jwt.Second)
    (fst (auth.GenerateRefreshToken (H := refcodec.codec_auth)
            (1700000000 * jwt.Second) (1700000000 * jwt.Second) 123 456 "supersecretkey"))
    "supersecretkey"
  = (123, None).
Proof.
  refine (proj1 (proj2 (proj1 (refresh_token_is_accepted
                   (lawsA := codec_auth_laws) (lawsU := codec_userid_laws)
                   (1700000000 * jwt.Second) (1700000000 * jwt.Second)
                   (1700086400 * jwt.Second)
                   123 456 123 "supersecretkey" _ _ _ _))));
    first [discriminate
          | unfold plausible, jwt.Hour, jwt.Minute, jwt.Second; lia].
Defined.

(** *** What ValidateToken accepts *)

Section Acceptance.

Import jwt.

Section AcceptanceOfTheParser.

Context {C : Type} `{Claims C} `{Codec C}.

Lemma Validate_nil_iff (leeway : Z) (now : Time) (c : C) :
  Validate leeway now c = [] <-> ~ expired_at leeway now c /\ ~ not_yet_valid leeway now c.
Proof.
  unfold Validate, verifyExpiresAt, verifyNotBefore, expired_at, not_yet_valid.
  destruct (GetExpirationTime c) as [exp |]; destruct (GetNotBefore c) as [nbf |].
  - destruct (Z.ltb_spec now (instant exp + leeway));
      destruct (Z.ltb_spec now (instant nbf - leeway)); cbn [app]; split;
      try discriminate; try (intros _; split; intros [x [Hx Hb]]; injection Hx as <-; lia);
      intros [He Hn]; exfalso;
      first [apply He; eexists; split; [reflexivity | lia]
            | apply Hn; eexists; split; [reflexivity | lia]].
  - destruct (Z.ltb_spec now (instant exp + leeway)); cbn [app]; split;
      try discriminate;
      try (intros _; split; intros [x [Hx Hb]]; try discriminate; injection Hx as <-; lia).
    intros [He _]. exfalso. apply He. eexists. split; [reflexivity | lia].
  - destruct (Z.ltb_spec now (instant nbf - leeway)); cbn [app]; split;
      try discriminate;
      try (intros _; split; intros [x [Hx Hb]]; try discriminate; injection Hx as <-; lia).
    intros [_ Hn]. exfalso. apply Hn. eexists. split; [reflexivity | lia].
  - split; [| reflexivity].
    intros _. split; intros [x [Hx _]]; discriminate.
Qed.

Lemma ParseWithClaims_inr_iff (leeway : Z) (now : Time) (tokenString : string)
    (keyFunc : Keyfunc C) (key : string) (token : Token C) :
  hmac_only keyFunc key ->
  ParseWithClaims leeway now tokenString keyFunc = inr token <->
  exists h p2 text hash,
    segments tokenString h (TokenClaims token) p2 text /\
    declared_method h = Some (SigningMethodHMAC hash) /\
    DecodeSegment p2 = Some (hmac hash key text) /\
    ~ expired_at leeway now (TokenClaims token) /\
    ~ not_yet_valid leeway now (TokenClaims token) /\
    token = mkToken (SigningMethodHMAC hash) h (TokenClaims token) (hmac hash key text) true.
Proof.
  intros Hk. unfold ParseWithClaims, ParseUnverified. split.
  - destruct (Split tokenString) as [| p0 [| p1 [| p2 [| p3 ps]]]] eqn:Hsplit;
      try discriminate.
    destruct (unmarshalHeader p0) as [h |] eqn:Hh; [| discriminate].
    destruct (unmarshalClaims p1) as [c |] eqn:Hc; [| discriminate].
    destruct (alg h) as [name |] eqn:Halg; [| discriminate].
    destruct (GetSigningMethod name) as [m |] eqn:Hm; [| discriminate].
    cbn [nth]. destruct (DecodeSegment p2) as [sig |] eqn:Hsig; [| discriminate].
    cbn [Method TokenHeader TokenClaims].
    pose proof (Hk (mkToken m h c sig false)) as Hkey. cbn [Method] in Hkey.
    destruct m as [hash | hash | hash | hash | |];
      [| destruct Hkey as [cause Hcause]; rewrite Hcause; discriminate .. ].
    rewrite Hkey. unfold HMAC_Verify.
    destruct (String.eqb_spec sig (hmac hash key (p0 ++ "." ++ p1))) as [-> | Hne];
      [| discriminate].
    destruct (Validate leeway now c) as [| e es] eqn:Hv; [| discriminate].
    intros Heq. injection Heq as <-. cbn [TokenClaims].
    apply Validate_nil_iff in Hv. destruct Hv as [He Hn].
    exists h, p2, (p0 ++ "." ++ p1), hash.
    split; [exists p0, p1; repeat split; trivial |].
    split; [unfold declared_method; rewrite Halg; exact Hm |].
    repeat split; trivial.
  - intros [h [p2 [text [hash [[p0 [p1 [Hsplit [Hh [Hc Htext]]]]]
                                 [Hm [Hsig [He [Hn Htok]]]]]]]]].
    rewrite Hsplit, Hh, Hc. unfold declared_method in Hm.
    destruct (alg h) as [name |]; [| discriminate].
    rewrite Hm. cbn [nth]. rewrite Hsig. cbn [Method TokenHeader TokenClaims].
    pose proof (Hk (mkToken (SigningMethodHMAC hash) h (TokenClaims token)
                      (hmac hash key text) false)) as Hkey.
    cbn [Method] in Hkey. rewrite Hkey.
    unfold HMAC_Verify. rewrite <- Htext, String.eqb_refl.
    rewrite (proj2 (Validate_nil_iff leeway now (TokenClaims token)) (conj He Hn)).
    f_equal. symmetry. exact Htok.
Qed.

End AcceptanceOfTheParser.

Lemma hmac_only_auth {codec : Codec auth.Claims} (secretKey : string) :
  hmac_only (auth.keyFunc secretKey) secretKey.
Proof.
  intros token. unfold auth.keyFunc.
  destruct (Method token); first [reflexivity | eexists; reflexivity].
Qed.

Lemma hmac_only_userid {codec : Codec auth_userid.Claims} (secretKey : string) :
  hmac_only (auth_userid.keyFunc secretKey) secretKey.
Proof.
  intros token. unfold auth_userid.keyFunc.
  destruct (Method token); first [reflexivity | eexists; reflexivity].
Qed.

Context {codecA : Codec auth.Claims} {codecU : Codec auth_userid.Claims}.

(** X13.  ValidateToken returns claims exactly for the texts of three
    segments whose header declares an HMAC method, whose claims decode,
    whose third segment is the encoding of the HMAC of the first two under
    the secret, and whose claims are inside their validity window at the
    reading of the clock; the claims returned are the decoded ones.  It
    never returns claims together with an error, nor neither. *)
Theorem ValidateToken_accepts_exactly (now : Time) (tokenString secretKey : string) :
  (forall c,
     auth.ValidateToken now tokenString secretKey = (Some c, None) <->
     exists h p2 text hash,
       segments tokenString h c p2 text /\
       declared_method h = Some (SigningMethodHMAC hash) /\
       DecodeSegment (C := auth.Claims) p2
         = Some (hmac (C := auth.Claims) hash secretKey text) /\
       ~ expired_at 0 now c /\ ~ not_yet_valid 0 now c) /\
  (forall c,
     auth_userid.ValidateToken now tokenString secretKey = (Some c, None) <->
     secretKey <> "" /\
     exists h p2 text hash,
       segments tokenString h c p2 text /\
       declared_method h = Some (SigningMethodHMAC hash) /\
       DecodeSegment (C := auth_userid.Claims) p2
         = Some (hmac (C := auth_userid.Claims) hash secretKey text) /\
       ~ expired_at auth_userid.Leeway now c /\
       ~ not_yet_valid auth_userid.Leeway now c) /\
  (fst (auth.ValidateToken now tokenString secretKey) = None <->
   snd (auth.ValidateToken now tokenString secretKey) <> None) /\
  (fst (auth_userid.ValidateToken now tokenString secretKey) = None <->
   snd (auth_userid.ValidateToken now tokenString secretKey) <> None).
Proof.
  split; [| split; [| split]].
  - intros c. unfold auth.ValidateToken.
    destruct (ParseWithClaims 0 now tokenString (auth.keyFunc secretKey))
      as [err | token] eqn:Hparse.
    + split; [discriminate |].
      intros [h [p2 [text [hash [Hseg [Hm [Hsig [He Hn]]]]]]]].
      assert (ParseWithClaims 0 now tokenString (auth.keyFunc secretKey)
              = inr (mkToken (SigningMethodHMAC hash) h c
                       (hmac (C := auth.Claims) hash secretKey text) true))
        as Hok.
      { apply (ParseWithClaims_inr_iff 0 now tokenString _ secretKey _
                 (hmac_only_auth secretKey)).
        exists h, p2, text, hash. cbn [TokenClaims].
        split; [exact Hseg | split; [exact Hm | split; [exact Hsig |
          split; [exact He | split; [exact Hn | reflexivity]]]]]. }
      congruence.
    + apply (ParseWithClaims_inr_iff 0 now tokenString _ secretKey _
               (hmac_only_auth secretKey)) in Hparse.
      destruct Hparse as [h [p2 [text [hash [Hseg [Hm [Hsig [He [Hn Htok]]]]]]]]].
      rewrite Htok. cbn [Valid TokenClaims negb]. split.
      * intros Heq. injection Heq as <-. exists h, p2, text, hash.
        split; [exact Hseg | split; [exact Hm | split; [exact Hsig |
          split; [exact He | exact Hn]]]].
      * intros [h' [p2' [text' [hash' [[p0 [p1 [Hsplit [Hh [Hc Htext]]]]] _]]]]].
        destruct Hseg as [q0 [q1 [Hsplit' [Hh' [Hc' Htext']]]]].
        rewrite Hsplit in Hsplit'. injection Hsplit' as <- <- <-.
        rewrite Hc in Hc'. injection Hc' as ->. reflexivity.
  - intros c. unfold auth_userid.ValidateToken.
    destruct (String.eqb_spec secretKey "") as [-> | Hne].
    { split; [discriminate | intros [Habs _]; contradiction]. }
    destruct (ParseWithClaims auth_userid.Leeway now tokenString
                (auth_userid.keyFunc secretKey)) as [err | token] eqn:Hparse.
    + split.
      { destruct (errors_Is err ErrTokenExpired); [discriminate |].
        destruct (errors_Is err ErrTokenSignatureInvalid); discriminate. }
      intros [_ [h [p2 [text [hash [Hseg [Hm [Hsig [He Hn]]]]]]]]].
      assert (ParseWithClaims auth_userid.Leeway now tokenString
                (auth_userid.keyFunc secretKey)
              = inr (mkToken (SigningMethodHMAC hash) h c
                       (hmac (C := auth_userid.Claims) hash secretKey text) true))
        as Hok.
      { apply (ParseWithClaims_inr_iff auth_userid.Leeway now tokenString _ secretKey _
                 (hmac_only_userid secretKey)).
        exists h, p2, text, hash. cbn [TokenClaims].
        split; [exact Hseg | split; [exact Hm | split; [exact Hsig |
          split; [exact He | split; [exact Hn | reflexivity]]]]]. }
      congruence.
    + apply (ParseWithClaims_inr_iff auth_userid.Leeway now tokenString _ secretKey _
               (hmac_only_userid secretKey)) in Hparse.
      destruct Hparse as [h [p2 [text [hash [Hseg [Hm [Hsig [He [Hn Htok]]]]]]]]].
      rewrite Htok. cbn [Valid TokenClaims negb]. split.
      * intros Heq. injection Heq as <-. split; [exact Hne |].
        exists h, p2, text, hash.
        split; [exact Hseg | split; [exact Hm | split; [exact Hsig |
          split; [exact He | exact Hn]]]].
      * intros [_ [h' [p2' [text' [hash' [[p0 [p1 [Hsplit [Hh [Hc Htext]]]]] _]]]]]].
        destruct Hseg as [q0 [q1 [Hsplit' [Hh' [Hc' Htext']]]]].
        rewrite Hsplit in Hsplit'. injection Hsplit' as <- <- <-.
        rewrite Hc in Hc'. injection Hc' as ->. reflexivity.
  - unfold auth.ValidateToken.
    destruct (ParseWithClaims 0 now tokenString (auth.keyFunc secretKey)) as [err | token];
      [| destruct (negb (Valid token))]; cbn [fst snd];
      split; intros; congruence.
  - unfold auth_userid.ValidateToken.
    destruct (String.eqb secretKey ""); [cbn [fst snd]; split; intros; congruence |].
    destruct (ParseWithClaims auth_userid.Leeway now tokenString
                (auth_userid.keyFunc secretKey)) as [err | token].
    + destruct (errors_Is err ErrTokenExpired);
        [| destruct (errors_Is err ErrTokenSignatureInvalid)];
        cbn [fst snd]; split; intros; congruence.
    + destruct (negb (Valid token)); cbn [fst snd]; split; intros; congruence.
Qed.

End Acceptance.

(** *** ValidateToken and the clock *)

Section Clock.

Import jwt.

Section ClockOfTheParser.

Context {C : Type} `{Claims C} `{Codec C}.

Lemma verifyExpiresAt_cases (leeway : Z) (now : Time) (c : C) :
  (verifyExpiresAt leeway now c = [] /\
   forall t, t <= now -> verifyExpiresAt leeway t c = []) \/
  (verifyExpiresAt leeway now c = [ErrTokenExpired] /\
   forall t, now <= t -> verifyExpiresAt leeway t c = [ErrTokenExpired]).
Proof.
  unfold verifyExpiresAt. destruct (GetExpirationTime c) as [exp |].
  - destruct (Z.ltb_spec now (instant exp + leeway)) as [Hlt | Hge].
    + left. split; [reflexivity |]. intros t Ht.
      destruct (Z.ltb_spec t (instant exp + leeway)); [reflexivity | lia].
    + right. split; [reflexivity |]. intros t Ht.
      destruct (Z.ltb_spec t (instant exp + leeway)); [lia | reflexivity].
  - left. split; [reflexivity | intros; reflexivity].
Qed.

Lemma verifyNotBefore_cases (leeway : Z) (now : Time) (c : C) :
  verifyNotBefore leeway now c = [] \/
  (verifyNotBefore leeway now c = [ErrTokenNotValidYet] /\ GetNotBefore c <> None).
Proof.
  unfold verifyNotBefore. destruct (GetNotBefore c) as [nbf |]; [| left; reflexivity].
  destruct (Z.ltb now (instant nbf - leeway)); [right; split; [reflexivity | discriminate]
                                               | left; reflexivity].
Qed.

Lemma verifyNotBefore_absent (leeway : Z) (now : Time) (c : C) :
  GetNotBefore c = None -> verifyNotBefore leeway now c = [].
Proof. unfold verifyNotBefore. intros ->. reflexivity. Qed.

(** The parser reads the clock in the validator only: either it fails
    before it, with the same error whatever the time, or it reaches it
    with a token that does not depend on the time. *)
Lemma ParseWithClaims_clock (leeway : Z) (tokenString : string) (keyFunc : Keyfunc C) :
  (exists chain cause,
     (forall t, ParseWithClaims leeway t tokenString keyFunc = inl (jwt_error chain cause)) /\
     existsb (Sentinel_eqb ErrTokenInvalidClaims) chain = false /\
     existsb (Sentinel_eqb ErrTokenExpired) chain = false /\
     existsb (Sentinel_eqb ErrTokenNotValidYet) chain = false) \/
  (exists token,
     Valid token = true /\
     forall t, ParseWithClaims leeway t tokenString keyFunc =
               match Validate leeway t (TokenClaims token) with
               | [] => inr token
               | errs => inl (jwt_error (ErrTokenInvalidClaims :: errs) None)
               end).
Proof.
  unfold ParseWithClaims, ParseUnverified.
  destruct (Split tokenString) as [| p0 [| p1 [| p2 [| p3 ps]]]];
    try solve [left; exists [ErrTokenMalformed], None; repeat split].
  destruct (unmarshalHeader p0) as [h |];
    [| left; exists [ErrTokenMalformed], None; repeat split].
  destruct (unmarshalClaims p1) as [c |];
    [| left; exists [ErrTokenMalformed], None; repeat split].
  destruct (alg h) as [name |];
    [| left; exists [ErrTokenUnverifiable], None; repeat split].
  destruct (GetSigningMethod name) as [m |];
    [| left; exists [ErrTokenUnverifiable], None; repeat split].
  cbn [nth]. destruct (DecodeSegment p2) as [sig |];
    [| left; exists [ErrTokenMalformed], None; repeat split].
  cbn [Method TokenHeader TokenClaims].
  destruct (keyFunc (mkToken m h c sig false)) as [cause | key];
    [left; exists [ErrTokenUnverifiable], (Some cause); repeat split |].
  destruct m as [hash | hash | hash | hash | |];
    try solve [left; eexists [ErrTokenSignatureInvalid; _], None; repeat split].
  unfold HMAC_Verify.
  destruct (String.eqb sig (hmac hash key (p0 ++ "." ++ p1)));
    [| left; exists [ErrTokenSignatureInvalid; ErrSignatureInvalid], None; repeat split].
  right. exists (mkToken (SigningMethodHMAC hash) h c sig true).
  split; [reflexivity |]. intros t. reflexivity.
Qed.

End ClockOfTheParser.

Context {codecA : Codec auth.Claims} {codecU : Codec auth_userid.Claims}.

(** X14.  The clock enters ValidateToken through the validity window
    only.  A token refused as expired is refused as expired at every later
    time; a token refused as malformed, as unverifiable or for its
    signature gets the same answer at every time; and issued-at is not
    checked: a token without a not-before that is accepted at some time is
    accepted at every earlier time, with the same claims. *)
Theorem ValidateToken_and_the_clock (now now' : Time) (tokenString secretKey : string) :
  now <= now' ->
  (fails_with ErrTokenExpired (auth.ValidateToken now tokenString secretKey) ->
   fails_with ErrTokenExpired (auth.ValidateToken now' tokenString secretKey)) /\
  (auth_userid.ValidateToken now tokenString secretKey
     = (None, Some auth_userid.ErrExpired) ->
   auth_userid.ValidateToken now' tokenString secretKey
     = (None, Some auth_userid.ErrExpired)) /\
  (fails_with ErrTokenMalformed (auth.ValidateToken now tokenString secretKey) \/
   fails_with ErrTokenUnverifiable (auth.ValidateToken now tokenString secretKey) \/
   fails_with ErrTokenSignatureInvalid (auth.ValidateToken now tokenString secretKey) ->
   forall t, auth.ValidateToken t tokenString secretKey
             = auth.ValidateToken now tokenString secretKey) /\
  (fails_with ErrTokenMalformed (auth_userid.ValidateToken now tokenString secretKey) \/
   fails_with ErrTokenUnverifiable (auth_userid.ValidateToken now tokenString secretKey) \/
   auth_userid.ValidateToken now tokenString secretKey
     = (None, Some auth_userid.ErrInvalidSignature) ->
   forall t, auth_userid.ValidateToken t tokenString secretKey
             = auth_userid.ValidateToken now tokenString secretKey) /\
  (forall c, NotBefore (auth.Registered c) = None ->
     auth.ValidateToken now' tokenString secretKey = (Some c, None) ->
     auth.ValidateToken now tokenString secretKey = (Some c, None)) /\
  (forall c, NotBefore (auth_userid.Registered c) = None ->
     auth_userid.ValidateToken now' tokenString secretKey = (Some c, None) ->
     auth_userid.ValidateToken now tokenString secretKey = (Some c, None)).
Proof.
  intros Hle.
  pose proof (ParseWithClaims_clock 0 tokenString (auth.keyFunc secretKey)) as HA.
  pose proof (ParseWithClaims_clock auth_userid.Leeway tokenString
                (auth_userid.keyFunc secretKey)) as HU.
  unfold auth_userid.ValidateToken, auth.ValidateToken, fails_with.
  split; [| split; [| split; [| split; [| split]]]].
  - destruct HA as [[chain [cause [Hp [_ [Hexp _]]]]] | [token [Hvalid Hp]]];
      rewrite !Hp.
    + cbn [fst snd]. intros [_ [e [He His]]]. injection He as <-.
      cbn [errors_Is] in His. congruence.
    + unfold Validate.
      destruct (verifyExpiresAt_cases 0 now (TokenClaims token)) as [[He _] | [He Hlater]].
      * rewrite He. cbn [app].
        destruct (verifyNotBefore_cases 0 now (TokenClaims token)) as [Hn | [Hn _]];
          rewrite Hn; [rewrite Hvalid |]; cbn [negb fst snd].
        -- intros [Habs _]. discriminate.
        -- intros [_ [e [Heq His]]]. injection Heq as <-. discriminate His.
      * intros _. rewrite (Hlater now' Hle). cbn [app fst snd].
        split; [reflexivity |]. eexists. split; [reflexivity | reflexivity].
  - destruct (String.eqb secretKey ""); [discriminate |].
    destruct HU as [[chain [cause [Hp [_ [Hexp _]]]]] | [token [Hvalid Hp]]];
      rewrite !Hp.
    + cbn [errors_Is]. rewrite Hexp.
      destruct (existsb (Sentinel_eqb ErrTokenSignatureInvalid) chain); discriminate.
    + unfold Validate.
      destruct (verifyExpiresAt_cases auth_userid.Leeway now (TokenClaims token))
        as [[He _] | [He Hlater]].
      * rewrite He. cbn [app].
        destruct (verifyNotBefore_cases auth_userid.Leeway now (TokenClaims token))
          as [Hn | [Hn _]]; rewrite Hn; [rewrite Hvalid |]; cbn [negb]; discriminate.
      * intros _. rewrite (Hlater now' Hle). reflexivity.
  - intros Hkind t.
    destruct HA as [[chain [cause [Hp _]]] | [token [Hvalid Hp]]]; rewrite !Hp;
      [reflexivity |].
    exfalso. rewrite Hp in Hkind. unfold Validate in Hkind.
    destruct (verifyExpiresAt_cases 0 now (TokenClaims token)) as [[He _] | [He _]];
      destruct (verifyNotBefore_cases 0 now (TokenClaims token)) as [Hn | [Hn _]];
      rewrite He, Hn in Hkind; cbn [app negb fst snd] in Hkind;
      try rewrite Hvalid in Hkind; cbn [negb fst snd] in Hkind;
      destruct Hkind as [[Hf [e [Heq His]]] | [[Hf [e [Heq His]]] | [Hf [e [Heq His]]]]];
      try discriminate Hf; injection Heq as <-; discriminate His.
  - intros Hkind t.
    destruct (String.eqb secretKey ""); [reflexivity |].
    destruct HU as [[chain [cause [Hp _]]] | [token [Hvalid Hp]]]; rewrite !Hp;
      [reflexivity |].
    exfalso. rewrite Hp in Hkind. unfold Validate in Hkind.
    destruct (verifyExpiresAt_cases auth_userid.Leeway now (TokenClaims token))
      as [[He _] | [He _]];
      destruct (verifyNotBefore_cases auth_userid.Leeway now (TokenClaims token))
        as [Hn | [Hn _]];
      rewrite He, Hn in Hkind; cbn [app negb fst snd errors_Is existsb Sentinel_eqb orb]
        in Hkind;
      try rewrite Hvalid in Hkind; cbn [negb fst snd] in Hkind;
      destruct Hkind as [[Hf [e [Heq His]]] | [[Hf [e [Heq His]]] | Heq]];
      try discriminate Hf; try discriminate Heq; injection Heq as <-; discriminate His.
  - intros c Hnbf.
    destruct HA as [[chain [cause [Hp _]]] | [token [Hvalid Hp]]]; rewrite !Hp;
      [discriminate |].
    unfold Validate.
    destruct (verifyExpiresAt_cases 0 now' (TokenClaims token)) as [[He Hearlier] | [He _]];
      rewrite He; cbn [app].
    + destruct (verifyNotBefore_cases 0 now' (TokenClaims token)) as [Hn | [Hn _]];
        rewrite Hn; [| discriminate].
      rewrite Hvalid. cbn [negb]. intros Heq. injection Heq as Heq.
      rewrite (Hearlier now Hle). cbn [app].
      rewrite verifyNotBefore_absent; [rewrite Hvalid, Heq; reflexivity |].
      rewrite Heq. exact Hnbf.
    + discriminate.
  - intros c Hnbf.
    destruct (String.eqb secretKey ""); [discriminate |].
    destruct HU as [[chain [cause [Hp _]]] | [token [Hvalid Hp]]]; rewrite !Hp.
    { destruct (errors_Is (jwt_error chain cause) ErrTokenExpired); [discriminate |].
      destruct (errors_Is (jwt_error chain cause) ErrTokenSignatureInvalid); discriminate. }
    unfold Validate.
    destruct (verifyExpiresAt_cases auth_userid.Leeway now' (TokenClaims token))
      as [[He Hearlier] | [He _]]; rewrite He; cbn [app].
    + destruct (verifyNotBefore_cases auth_userid.Leeway now' (TokenClaims token))
        as [Hn | [Hn _]]; rewrite Hn; [| discriminate].
      rewrite Hvalid. cbn [negb]. intros Heq. injection Heq as Heq.
      rewrite (Hearlier now Hle). cbn [app].
      rewrite verifyNotBefore_absent; [rewrite Hvalid, Heq; reflexivity |].
      rewrite Heq. exact Hnbf.
    + discriminate.
Qed.

End Clock.

(** A token issued at 1700000000 s is refused as expired sixteen minutes
    later, and so it is a day later. *)
Lemma ValidateToken_and_the_clock_witness :
  auth_userid.ValidateToken (H := refcodec.codec_userid) (1700086400 * jwt.Second)
    (fst (auth_userid.GenerateAccessToken (H := refcodec.codec_userid)
            (1700000000 * jwt.Second) (1700000000 * jwt.Second) 123 "supersecretkey"))
    "supersecretkey"
  = (None, Some auth_userid.ErrExpired).
Proof.
  refine (proj1 (proj2 (ValidateToken_and_the_clock
                   (codecA := refcodec.codec_auth) (codecU := refcodec.codec_userid)
                   (1700000960 * jwt.Second) (1700086400 * jwt.Second)
                   (fst (auth_userid.GenerateAccessToken (H := refcodec.codec_userid)
                           (1700000000 * jwt.Second) (1700000000 * jwt.Second) 123
                           "supersecretkey"))
                   "supersecretkey" _)) _).
  - unfold jwt.Second. lia.
  - vm_compute. reflexivity.
Defined.

(** *** The lifetime that a token records *)

Section RecordedLifetime.

Import jwt.

Lemma lifetime_bounds (k now1 now2 : Z) :
  now1 <= now2 ->
  let lifetime := NewNumericDate (now1 + k * Second) - NewNumericDate now2 in
  lifetime <= k /\
  (now2 < now1 + Second -> k - 1 <= lifetime) /\
  (NewNumericDate now1 = NewNumericDate now2 -> lifetime = k).
Proof.
  intros Hle. cbv zeta. rewrite NewNumericDate_add_seconds.
  unfold NewNumericDate, Second.
  pose proof (Z.div_le_mono now1 now2 1000000000 ltac:(lia) Hle) as Hmono.
  split; [lia |]. split; [| lia].
  intros Hclose.
  assert (now2 / 1000000000 <= now1 / 1000000000 + 1); [| lia].
  replace (now1 / 1000000000 + 1) with ((now1 + 1 * 1000000000) / 1000000000)
    by (rewrite Z.div_add by lia; reflexivity).
  apply Z.div_le_mono; lia.
Qed.

(** X15.  The lifetime written into a token, expiry minus issue time in
    seconds, is never more than the duration; it is the duration when the
    two readings of the clock fall into the same second, and one second
    less at most when they are less than a second apart.  So it is for
    access and refresh tokens, in both forms. *)
Theorem recorded_lifetime (now1 now2 : Time) (accountID lenderID userID : Z) :
  now1 <= now2 ->
  let lifetime (r : RegisteredClaims) :=
    match ExpiresAt r, IssuedAt r with
    | Some exp, Some iat => Some (exp - iat)
    | _, _ => None
    end in
  let bounded (duration : Z) (r : RegisteredClaims) :=
    exists l, lifetime r = Some l /\ l <= duration /\
              (now2 < now1 + Second -> duration - 1 <= l) /\
              (NewNumericDate now1 = NewNumericDate now2 -> l = duration) in
  bounded 900
    (auth.Registered (auth.newClaims auth.AccessTokenDuration now1 now2 accountID lenderID)) /\
  bounded 604800
    (auth.Registered (auth.newClaims auth.RefreshTokenDuration now1 now2 accountID lenderID)) /\
  bounded 900
    (auth_userid.Registered
       (auth_userid.newClaims auth_userid.AccessTokenDuration now1 now2 userID)) /\
  bounded 604800
    (auth_userid.Registered
       (auth_userid.newClaims auth_userid.RefreshTokenDuration now1 now2 userID)).
Proof.
  intros Hle. cbv zeta.
  unfold auth.newClaims, auth_userid.newClaims.
  cbn [auth.Registered auth_userid.Registered ExpiresAt IssuedAt].
  change auth.AccessTokenDuration with (900 * Second).
  change auth.RefreshTokenDuration with (604800 * Second).
  change auth_userid.AccessTokenDuration with (900 * Second).
  change auth_userid.RefreshTokenDuration with (604800 * Second).
  pose proof (lifetime_bounds 900 now1 now2 Hle) as Ha.
  pose proof (lifetime_bounds 604800 now1 now2 Hle) as Hr.
  cbv zeta in Ha, Hr.
  repeat split; eexists; (split; [reflexivity |]); first [exact Ha | exact Hr].
Qed.

(** The clock reads 1700000000.2 s and then 1700000000.7 s: the access
    token records a lifetime of 900 s. *)
Lemma recorded_lifetime_witness :
  exists l,
    match ExpiresAt (auth.Registered (auth.newClaims auth.AccessTokenDuration
                                        1700000000200000000 1700000000700000000 123 456)),
          IssuedAt (auth.Registered (auth.newClaims auth.AccessTokenDuration
                                       1700000000200000000 1700000000700000000 123 456))
    with
    | Some exp, Some iat => Some (exp - iat)
    | _, _ => None
    end = Some l /\ l <= 900.
Proof.
  destruct (recorded_lifetime 1700000000200000000 1700000000700000000 123 456 123)
    as [[l [Hl [Hle _]]] _].
  - lia.
  - exists l. split; [exact Hl | exact Hle].
Defined.

End RecordedLifetime.

(** *** The failures of ValidateToken, pair form *)

Section TaxonomyOfThePairForm.

Import jwt.

Context {codec : Codec auth.Claims}.

(** X16.  ValidateToken of the pair form hands on the errors of the
    library, to be told apart with errors.Is.  It fails as malformed when
    the text does not split into three segments with a header and claims
    that decode, or when the signature segment does not decode; as
    unverifiable when the header declares no method the library knows or
    one that is not an HMAC; as signature-invalid when the signature is
    not the HMAC of the first two segments under the secret; as expired
    from the instant of the expiry on, without leeway; as not yet valid
    before a not-before; and it returns the decoded claims otherwise.
    Every error it returns is of exactly one of the four kinds malformed,
    unverifiable, signature-invalid, invalid-claims. *)
Theorem ValidateToken_pair_taxonomy (now : Time) (tokenString secretKey : string) :
  let r := auth.ValidateToken now tokenString secretKey in
  ((forall h c p2 text, ~ segments tokenString h c p2 text) ->
     fails_with ErrTokenMalformed r) /\
  (forall h c p2 text, segments tokenString h c p2 text ->
     (declared_method h = None -> fails_with ErrTokenUnverifiable r) /\
     (forall m, declared_method h = Some m ->
        (DecodeSegment p2 = None -> fails_with ErrTokenMalformed r) /\
        (forall sig, DecodeSegment p2 = Some sig ->
           (~ hmac_family m -> fails_with ErrTokenUnverifiable r) /\
           (forall hash, m = SigningMethodHMAC hash ->
              (sig <> hmac hash secretKey text ->
                 r = (None, Some (jwt_error [ErrTokenSignatureInvalid; ErrSignatureInvalid]
                                    None))) /\
              (sig = hmac hash secretKey text ->
                 (expired_at 0 now c ->
                    fails_with ErrTokenExpired r /\ fails_with ErrTokenInvalidClaims r) /\
                 (~ expired_at 0 now c -> not_yet_valid 0 now c ->
                    fails_with ErrTokenNotValidYet r /\ fails_with ErrTokenInvalidClaims r) /\
                 (~ expired_at 0 now c -> ~ not_yet_valid 0 now c ->
                    r = (Some c, None))))))) /\
  (forall e, snd r = Some e ->
     List.length (filter (errors_Is e)
                    [ErrTokenMalformed; ErrTokenUnverifiable; ErrTokenSignatureInvalid;
                     ErrTokenInvalidClaims]) = 1%nat).
Proof.
  cbv zeta. unfold auth.ValidateToken, ParseWithClaims, ParseUnverified.
  split; [| split].
  - intros Hnone.
    destruct (Split tokenString) as [| p0 [| p1 [| p2 [| p3 ps]]]] eqn:Hsplit;
      try (split; [reflexivity | eexists; split; reflexivity]).
    destruct (unmarshalHeader p0) as [h |] eqn:Hh;
      [| split; [reflexivity | eexists; split; reflexivity]].
    destruct (unmarshalClaims p1) as [c |] eqn:Hc;
      [| split; [reflexivity | eexists; split; reflexivity]].
    exfalso. apply (Hnone h c p2 (p0 ++ "." ++ p1)).
    exists p0, p1. repeat split; trivial.
  - intros h c p2 text [p0 [p1 [Hsplit [Hh [Hc Htext]]]]].
    rewrite Hsplit, Hh, Hc. unfold declared_method.
    split.
    { destruct (alg h) as [name |];
        [intros ->; split; [reflexivity | eexists; split; reflexivity]
        | intros _; split; [reflexivity | eexists; split; reflexivity]]. }
    intros m Hm. destruct (alg h) as [name |] eqn:Halg; [| discriminate].
    rewrite Hm. cbn [nth]. split.
    { intros ->. split; [reflexivity | eexists; split; reflexivity]. }
    intros sig ->. cbn [Method TokenClaims TokenHeader]. split.
    { intros Hother. unfold auth.keyFunc. cbn [Method].
      destruct m as [hash | | | | |];
        try (split; [reflexivity | eexists; split; reflexivity]).
      exfalso. apply Hother. exists hash. reflexivity. }
    intros hash ->. unfold auth.keyFunc. cbn [Method].
    unfold HMAC_Verify. rewrite <- Htext. split.
    { intros Hsig. apply String.eqb_neq in Hsig. rewrite Hsig. reflexivity. }
    intros ->. rewrite String.eqb_refl.
    unfold Validate, verifyExpiresAt, verifyNotBefore, expired_at, not_yet_valid.
    split; [| split].
    + intros [exp [-> Hexp]].
      assert (Z.ltb now (instant exp + 0) = false) as -> by (apply Z.ltb_ge; exact Hexp).
      destruct (GetNotBefore c) as [nbf |];
        [destruct (Z.ltb now (instant nbf - 0)) |];
        (split; split; [reflexivity | eexists; split; reflexivity
                       | reflexivity | eexists; split; reflexivity]).
    + intros Hlive [nbf [-> Hnbf]].
      assert (Z.ltb now (instant nbf - 0) = true) as -> by (apply Z.ltb_lt; exact Hnbf).
      destruct (GetExpirationTime c) as [exp |]; cbn [app].
      * destruct (Z.ltb_spec now (instant exp + 0)) as [Hlt | Hge].
        -- split; split; [reflexivity | eexists; split; reflexivity
                         | reflexivity | eexists; split; reflexivity].
        -- exfalso. apply Hlive. exists exp. split; [reflexivity | exact Hge].
      * split; split; [reflexivity | eexists; split; reflexivity
                      | reflexivity | eexists; split; reflexivity].
    + intros Hlive Hstarted.
      assert ((match GetExpirationTime c with
               | Some exp => if Z.ltb now (instant exp + 0) then [] else [ErrTokenExpired]
               | None => []
               end) = []) as ->.
      { destruct (GetExpirationTime c) as [exp |]; [| reflexivity].
        destruct (Z.ltb_spec now (instant exp + 0)) as [Hlt | Hge]; [reflexivity |].
        exfalso. apply Hlive. exists exp. split; [reflexivity | exact Hge]. }
      assert ((match GetNotBefore c with
               | Some nbf => if Z.ltb now (instant nbf - 0)
                             then [ErrTokenNotValidYet] else []
               | None => []
               end) = []) as ->.
      { destruct (GetNotBefore c) as [nbf |]; [| reflexivity].
        destruct (Z.ltb_spec now (instant nbf - 0)) as [Hlt | Hge]; [| reflexivity].
        exfalso. apply Hstarted. exists nbf. split; [reflexivity | exact Hlt]. }
      reflexivity.
  - intros e.
    destruct (Split tokenString) as [| p0 [| p1 [| p2 [| p3 ps]]]];
      try (intros H; injection H as <-; reflexivity).
    destruct (unmarshalHeader p0) as [h |]; [| intros H; injection H as <-; reflexivity].
    destruct (unmarshalClaims p1) as [c |]; [| intros H; injection H as <-; reflexivity].
    destruct (alg h) as [name |]; [| intros H; injection H as <-; reflexivity].
    destruct (GetSigningMethod name) as [m |];
      [| intros H; injection H as <-; reflexivity].
    cbn [nth]. destruct (DecodeSegment p2) as [sig |];
      [| intros H; injection H as <-; reflexivity].
    cbn [Method TokenHeader TokenClaims]. unfold auth.keyFunc. cbn [Method].
    destruct m as [hash | hash | hash | hash | |];
      try (intros H; injection H as <-; reflexivity).
    unfold HMAC_Verify.
    destruct (String.eqb sig (hmac hash secretKey (p0 ++ "." ++ p1)));
      [| intros H; injection H as <-; reflexivity].
    unfold Validate, verifyExpiresAt, verifyNotBefore.
    destruct (GetExpirationTime c) as [exp |];
      [destruct (Z.ltb now (instant exp + 0)) |];
      (destruct (GetNotBefore c) as [nbf |];
       [destruct (Z.ltb now (instant nbf - 0)) |]);
      cbn [app Valid negb snd]; intros H; try discriminate H;
      injection H as <-; reflexivity.
Qed.

End TaxonomyOfThePairForm.

(** *** Tokens and the claims they carry *)

Section TokensAndClaims.

Import jwt.

Section SignedStringOfTheLibrary.

Context {C : Type} `{CodecLaws C}.

(** The text of a token determines the claims that were signed. *)
Lemma SignedString_claims (h h' : Hash) (claims claims' : C) (key key' : string) :
  exact_dates claims -> exact_dates claims' ->
  SignedString h claims key = SignedString h' claims' key' -> claims = claims'.
Proof.
  intros Hx Hx' Heq.
  assert (Split (SignedString h claims key) = Split (SignedString h' claims' key')) as Hs
    by (rewrite Heq; reflexivity).
  unfold SignedString, SigningString in Hs.
  fold (written_header (SigningMethodHMAC h)) in Hs.
  fold (written_header (SigningMethodHMAC h')) in Hs.
  rewrite !Split_three in Hs
    by (first [apply header_no_dot | apply claims_no_dot | apply segment_no_dot]).
  injection Hs as _ Hc _.
  pose proof (claims_roundtrip claims Hx) as Hr.
  pose proof (claims_roundtrip claims' Hx') as Hr'.
  rewrite Hc in Hr. congruence.
Qed.

End SignedStringOfTheLibrary.

Context {codecA : Codec auth.Claims}
        {lawsA : @CodecLaws auth.Claims auth.Claims_jwt codecA}
        {codecU : Codec auth_userid.Claims}
        {lawsU : @CodecLaws auth_userid.Claims auth_userid.Claims_jwt codecU}.

(** X17.  A token stands for one identity: two issues that return the
    same text, access or refresh, under whatever secrets, were made for
    the same identifiers; and the two tokens of a pair are never the same
    text, the refresh token expiring later than the access token. *)
Theorem tokens_tell_identities_apart
    (now1 now2 now3 now4 : Time) (accountID lenderID accountID' lenderID' : Z)
    (userID userID' : Z) (key key' : string) :
  plausible now1 -> plausible now2 -> plausible now3 -> plausible now4 ->
  key <> "" -> key' <> "" ->
  (fst (auth.GenerateAccessToken now1 now2 accountID lenderID key)
   = fst (auth.GenerateAccessToken now3 now4 accountID' lenderID' key') ->
   accountID = accountID' /\ lenderID = lenderID') /\
  (fst (auth.GenerateRefreshToken now1 now2 accountID lenderID key)
   = fst (auth.GenerateRefreshToken now3 now4 accountID' lenderID' key') ->
   accountID = accountID' /\ lenderID = lenderID') /\
  (fst (auth_userid.GenerateAccessToken now1 now2 userID key)
   = fst (auth_userid.GenerateAccessToken now3 now4 userID' key') ->
   userID = userID') /\
  (fst (auth_userid.GenerateRefreshToken now1 now2 userID key)
   = fst (auth_userid.GenerateRefreshToken now3 now4 userID' key') ->
   userID = userID') /\
  (now1 <= now3 ->
   (forall pair,
      fst (auth.GenerateTokenPair now1 now2 now3 now4 accountID lenderID key) = Some pair ->
      auth.AccessToken pair <> auth.RefreshToken pair) /\
   (forall pair,
      fst (auth_userid.GenerateTokenPair now1 now2 now3 now4 userID key) = Some pair ->
      auth_userid.AccessToken pair <> auth_userid.RefreshToken pair)).
Proof.
  intros H1 H2 H3 H4 Hkey Hkey'.
  apply String.eqb_neq in Hkey. apply String.eqb_neq in Hkey'.
  pose proof AccessTokenDuration_range as Hda.
  pose proof RefreshTokenDuration_range as Hdr.
  unfold auth.GenerateTokenPair, auth_userid.GenerateTokenPair,
    auth.GenerateAccessToken, auth.GenerateRefreshToken,
    auth_userid.GenerateAccessToken, auth_userid.GenerateRefreshToken.
  rewrite Hkey, Hkey'. cbn [fst].
  split; [| split; [| split; [| split]]].
  - intros Heq. apply SignedString_claims in Heq;
      [| apply newClaims_auth_exact; assumption ..].
    unfold auth.newClaims in Heq. injection Heq as Ha Hl _ _. auto.
  - intros Heq. apply SignedString_claims in Heq;
      [| apply newClaims_auth_exact; assumption ..].
    unfold auth.newClaims in Heq. injection Heq as Ha Hl _ _. auto.
  - intros Heq. apply SignedString_claims in Heq;
      [| apply newClaims_userid_exact; assumption ..].
    unfold auth_userid.newClaims in Heq. injection Heq as Hu _ _. exact Hu.
  - intros Heq. apply SignedString_claims in Heq;
      [| apply newClaims_userid_exact; assumption ..].
    unfold auth_userid.newClaims in Heq. injection Heq as Hu _ _. exact Hu.
  - intros Hle.
    assert (NewNumericDate (now1 + 15 * Minute) <> NewNumericDate (now3 + 7 * 24 * Hour))
      as Hexp.
    { change (15 * Minute) with (900 * Second).
      change (7 * 24 * Hour) with (604800 * Second).
      rewrite !NewNumericDate_add_seconds. unfold NewNumericDate, Second.
      pose proof (Z.div_le_mono now1 now3 1000000000 ltac:(lia) Hle). lia. }
    split; intros pair Hpair; injection Hpair as <-;
      cbn [auth.AccessToken auth.RefreshToken
           auth_userid.AccessToken auth_userid.RefreshToken]; intros Heq.
    + apply SignedString_claims in Heq;
        [| apply newClaims_auth_exact; assumption ..].
      unfold auth.newClaims in Heq. injection Heq as Heq. contradiction.
    + apply SignedString_claims in Heq;
        [| apply newClaims_userid_exact; assumption ..].
      unfold auth_userid.newClaims in Heq. injection Heq as Heq. contradiction.
Qed.

End TokensAndClaims.

(** The pair of the tests: its two tokens differ. *)
Lemma tokens_tell_identities_apart_witness :
  exists pair,
    fst (auth.GenerateTokenPair (H := refcodec.codec_auth)
           (1700000000 * jwt.Second) (1700000000 * jwt.Second)
           (1700000000 * jwt.Second) (1700000000 * jwt.Second) 123 456 "supersecretkey")
    = Some pair /\
    auth.AccessToken pair <> auth.RefreshToken pair.
Proof.
  eexists. split; [reflexivity |].
  refine (proj1 (proj2 (proj2 (proj2 (proj2 (tokens_tell_identities_apart
            (lawsA := codec_auth_laws) (lawsU := codec_userid_laws)
            (1700000000 * jwt.Second) (1700000000 * jwt.Second)
            (1700000000 * jwt.Second) (1700000000 * jwt.Second)
            123 456 123 456 123 123 "supersecretkey" "supersecretkey"
            _ _ _ _ _ _)))) _) _ eq_refl);
    first [discriminate | unfold plausible, jwt.Second; lia].
Defined.

(** ** Password policy: extension *)

Section PasswordExtension.

Import utils.

Lemma list_ascii_of_string_app (a b : string) :
  list_ascii_of_string (a ++ b) = (list_ascii_of_string a ++ list_ascii_of_string b)%list.
Proof. induction a as [| c a IH]; [reflexivity |]. cbn. rewrite IH. reflexivity. Qed.

Lemma String_length_app (a b : string) :
  String.length (a ++ b) = (String.length a + String.length b)%nat.
Proof. induction a as [| c a IH]; [reflexivity |]. cbn. rewrite IH. reflexivity. Qed.

Lemma MatchString_app (lo hi : ascii) (a b : string) :
  MatchString lo hi (a ++ b) = MatchString lo hi a || MatchString lo hi b.
Proof. unfold MatchString. rewrite list_ascii_of_string_app. apply existsb_app. Qed.

(** X18.  The policy has no upper bound and forbids no character: a
    password that ValidatePassword accepts is still accepted when
    anything is written before and after it. *)
Theorem ValidatePassword_extension (password before after : string) :
  ValidatePassword password = None ->
  ValidatePassword (before ++ password ++ after) = None.
Proof.
  unfold ValidatePassword. rewrite !String_length_app, !MatchString_app.
  destruct (Nat.ltb_spec (String.length password) 8) as [Hlt | Hge]; [discriminate |].
  destruct (MatchString "A" "Z" password); [| discriminate].
  destruct (MatchString "0" "9" password); [| discriminate].
  intros _.
  destruct (Nat.ltb_spec (String.length before + (String.length password + String.length after)) 8);
    [lia |].
  rewrite !orb_true_r. reflexivity.
Qed.

Lemma ValidatePassword_extension_witness :
  ValidatePassword ("my " ++ "StrongPass123" ++ " is long") = None.
Proof. exact (ValidatePassword_extension "StrongPass123" "my " " is long" eq_refl). Defined.

End PasswordExtension.

(** ** Configuration *)

(** *** Reading a number *)

Section Numerals.

Import strconv.

Lemma byte_range (c : ascii) : 0 <= byte c < 256.
Proof.
  unfold byte. pose proof (N_ascii_bounded c) as H. lia.
Qed.

Lemma is_digit_iff (c : ascii) : is_digit c = true <-> 48 <= byte c <= 57.
Proof.
  unfold is_digit. rewrite andb_true_iff, !Z.leb_le. tauto.
Qed.

Lemma Atoi_loop_spec (s : string) (n : Z) :
  Atoi_loop s n = if all_digits s then Some (digits_value s n) else None.
Proof.
  revert n. induction s as [| c s IH]; intros n; [reflexivity |].
  cbn [Atoi_loop all_digits digits_value].
  pose proof (byte_range c) as Hb.
  destruct (is_digit c) eqn:Hd; cbn [andb].
  - apply is_digit_iff in Hd.
    assert ((byte c - 48) mod 256 = byte c - 48) as -> by (apply Z.mod_small; lia).
    assert (Z.ltb 9 (byte c - 48) = false) as -> by (apply Z.ltb_ge; lia).
    apply IH.
  - assert (~ 48 <= byte c <= 57) as Hn
      by (intro H; apply is_digit_iff in H; congruence).
    assert (Z.ltb 9 ((byte c - 48) mod 256) = true) as ->; [| reflexivity].
    apply Z.ltb_lt.
    destruct (Z_lt_le_dec (byte c) 48) as [Hlt | Hge].
    + assert ((byte c - 48) mod 256 = byte c - 48 + 256) as ->; [| lia].
      symmetry. apply (Z.mod_unique _ _ (-1)); lia.
    + rewrite Z.mod_small by lia. lia.
Qed.

Lemma digits_value_bounds (s : string) (n : Z) :
  all_digits s = true -> 0 <= n ->
  n * 10 ^ Z.of_nat (String.length s) <= digits_value s n
  < (n + 1) * 10 ^ Z.of_nat (String.length s).
Proof.
  revert n. induction s as [| c s IH]; intros n Hall Hn.
  - cbn. lia.
  - cbn [all_digits] in Hall. apply andb_true_iff in Hall. destruct Hall as [Hd Hall].
    apply is_digit_iff in Hd.
    cbn [digits_value String.length]. rewrite Nat2Z.inj_succ, Z.pow_succ_r by lia.
    specialize (IH (n * 10 + (byte c - 48)) Hall ltac:(lia)).
    assert (0 < 10 ^ Z.of_nat (String.length s)) as Hpos by (apply Z.pow_pos_nonneg; lia).
    nia.
Qed.

Lemma digits_value_ge (s : string) (n : Z) :
  all_digits s = true -> 0 <= n -> n <= digits_value s n.
Proof.
  intros Hall Hn. pose proof (digits_value_bounds s n Hall Hn) as [H _].
  assert (1 <= 10 ^ Z.of_nat (String.length s)) by (apply Z.lt_pred_le, Z.pow_pos_nonneg; lia).
  nia.
Qed.

Lemma ParseUint_loop_cases (s : string) (n : Z) :
  0 <= n <= maxUint64 ->
  (all_digits s = true /\ digits_value s n <= maxUint64 /\
   ParseUint_loop s n = (digits_value s n, None)) \/
  (all_digits s = true /\ maxUint64 < digits_value s n /\
   ParseUint_loop s n = (maxUint64, Some ErrRange)) \/
  (all_digits s = false /\
   (ParseUint_loop s n = (0, Some ErrSyntax) \/
    ParseUint_loop s n = (maxUint64, Some ErrRange))).
Proof.
  revert n. induction s as [| c s IH]; intros n Hn.
  - left. cbn [all_digits digits_value ParseUint_loop]. repeat split. lia.
  - cbn [ParseUint_loop all_digits digits_value].
    pose proof (byte_range c) as Hb.
    destruct (is_digit c) eqn:Hd; cbn [andb].
    + pose proof Hd as Hd'. apply is_digit_iff in Hd'.
      unfold is_digit in Hd. rewrite Hd.
      assert (Z.leb 10 (byte c - 48) = false) as -> by (apply Z.leb_gt; lia).
      unfold cutoff, uint64, maxUint64 in *.
      change (2 ^ 64) with 18446744073709551616 in *.
      change ((18446744073709551616 - 1) / 10 + 1) with 1844674407370955162.
      destruct (Z.leb_spec 1844674407370955162 n) as [Hcut | Hcut].
      * destruct (all_digits s) eqn:Hall.
        -- right. left. repeat split.
           pose proof (digits_value_ge s (n * 10 + (byte c - 48)) Hall ltac:(lia)). lia.
        -- right. right. split; [reflexivity |]. right. reflexivity.
      * destruct (Z_le_gt_dec (n * 10 + (byte c - 48)) 18446744073709551615)
          as [Hfit | Hover].
        -- rewrite (Z.mod_small (n * 10 + (byte c - 48))) by lia.
           assert (Z.ltb (n * 10 + (byte c - 48)) (n * 10) = false) as ->
             by (apply Z.ltb_ge; lia).
           assert (Z.ltb (18446744073709551616 - 1) (n * 10 + (byte c - 48)) = false) as ->
             by (apply Z.ltb_ge; lia).
           cbn [orb]. apply IH. lia.
        -- assert ((n * 10 + (byte c - 48)) mod 18446744073709551616
                   = n * 10 + (byte c - 48) - 18446744073709551616) as ->
             by (symmetry; apply (Z.mod_unique _ _ 1); lia).
           assert (Z.ltb (n * 10 + (byte c - 48) - 18446744073709551616) (n * 10) = true)
             as -> by (apply Z.ltb_lt; lia).
           cbn [orb].
           destruct (all_digits s) eqn:Hall.
           ++ right. left. repeat split.
              pose proof (digits_value_ge s (n * 10 + (byte c - 48)) Hall ltac:(lia)). lia.
           ++ right. right. split; [reflexivity |]. right. reflexivity.
    + right. right. split; [reflexivity |]. left.
      unfold is_digit in Hd. rewrite Hd.
      destruct (Z.leb 97 (lower (byte c)) && Z.leb (lower (byte c)) 122) eqn:Hletter;
        [| reflexivity].
      apply andb_true_iff in Hletter. destruct Hletter as [H1 _]. apply Z.leb_le in H1.
      assert (Z.leb 10 (lower (byte c) - 97 + 10) = true) as -> by (apply Z.leb_le; lia).
      reflexivity.
Qed.

Lemma int64_small (z : Z) : - 2 ^ 63 <= z < 2 ^ 63 -> int64 z = z.
Proof.
  intros Hz. unfold int64. change (2 ^ 63) with 9223372036854775808 in *.
  change (2 ^ 64) with 18446744073709551616. rewrite Z.mod_small by lia. lia.
Qed.

(** [ParseInt] on a text that is not empty. *)
Lemma ParseInt_numeral (s : string) :
  s <> "" ->
  match numeral s with
  | Some n =>
    (fits_int n -> ParseInt s = (n, None)) /\
    (~ fits_int n -> snd (ParseInt s) = Some (mkNumError "ParseInt" s ErrRange))
  | None => exists kind, snd (ParseInt s) = Some (mkNumError "ParseInt" s kind)
  end.
Proof.
  destruct s as [| c0 rest]; [congruence |]. intros _.
  unfold numeral, ParseInt, fits_int.
  set (digits := if Ascii.eqb c0 "+" || Ascii.eqb c0 "-" then rest else String c0 rest).
  unfold ParseUint.
  destruct digits as [| d ds] eqn:Hdigits; [eexists; reflexivity |].
  rewrite <- Hdigits.
  change (2 ^ 63) with 9223372036854775808.
  destruct (ParseUint_loop_cases digits 0) as [[Hall [Hfit Hrun]] | [[Hall [Hover Hrun]] | [Hall Hrun]]];
    [unfold maxUint64; lia | | |]; rewrite Hall.
  - rewrite Hrun.
    pose proof (digits_value_ge digits 0 Hall ltac:(lia)) as Hpos.
    unfold maxUint64 in Hfit. change (2 ^ 64 - 1) with 18446744073709551615 in Hfit.
    destruct (Ascii.eqb c0 "-"); cbn [negb andb].
    + destruct (Z.ltb_spec 9223372036854775808 (digits_value digits 0)) as [Hbig | Hsmall].
      * split; [lia | reflexivity].
      * split; [| lia]. intros _. f_equal.
        unfold int64. change (2 ^ 63) with 9223372036854775808.
        change (2 ^ 64) with 18446744073709551616.
        destruct (Z.eq_dec (digits_value digits 0) 9223372036854775808) as [-> | Hne].
        -- reflexivity.
        -- rewrite (Z.mod_small (digits_value digits 0 + 9223372036854775808)) by lia.
           replace (digits_value digits 0 + 9223372036854775808 - 9223372036854775808)
             with (digits_value digits 0) by lia.
           rewrite Z.mod_small by lia. lia.
    + destruct (Z.leb_spec 9223372036854775808 (digits_value digits 0)) as [Hbig | Hsmall].
      * split; [lia | reflexivity].
      * split; [| lia]. intros _. f_equal. apply int64_small.
        change (2 ^ 63) with 9223372036854775808. lia.
  - rewrite Hrun. cbn [rangeError].
    pose proof (digits_value_ge digits 0 Hall ltac:(lia)) as Hpos.
    unfold maxUint64 in *. change (2 ^ 64 - 1) with 18446744073709551615 in *.
    destruct (Ascii.eqb c0 "-"); cbn [negb andb];
      (split; [lia | reflexivity]).
  - destruct Hrun as [-> | ->].
    + eexists. reflexivity.
    + unfold maxUint64. change (2 ^ 64 - 1) with 18446744073709551615.
      destruct (Ascii.eqb c0 "-"); cbn; eexists; reflexivity.
Qed.

Lemma Atoi_numeral (s : string) :
  match numeral s with
  | Some n =>
    (fits_int n -> Atoi s = (n, None)) /\
    (~ fits_int n -> snd (Atoi s) = Some (mkNumError "Atoi" s ErrRange))
  | None => exists kind, snd (Atoi s) = Some (mkNumError "Atoi" s kind)
  end.
Proof.
  unfold Atoi.
  destruct ((0 <? String.length s)%nat && (String.length s <? 19)%nat) eqn:Hfast.
  - apply andb_true_iff in Hfast. destruct Hfast as [_ Hlen]. apply Nat.ltb_lt in Hlen.
    destruct s as [| c0 rest]; [eexists; reflexivity |].
    unfold numeral.
    rewrite (orb_comm (Ascii.eqb c0 "-") (Ascii.eqb c0 "+")).
    set (signed := Ascii.eqb c0 "+" || Ascii.eqb c0 "-").
    set (digits := if signed then rest else String c0 rest).
    assert (String.length digits <= 18)%nat as Hdlen.
    { unfold digits. destruct signed; cbn [String.length] in *; lia. }
    destruct digits as [| d ds] eqn:Hdigits.
    + destruct signed eqn:Hsigned; [| discriminate Hdigits].
      cbn. eexists. reflexivity.
    + rewrite <- Hdigits in *.
      assert (signed && (String.length digits <? 1)%nat = false) as ->.
      { rewrite Hdigits. cbn. apply andb_false_r. }
      rewrite Atoi_loop_spec.
      destruct (all_digits digits) eqn:Hall; [| eexists; reflexivity].
      pose proof (digits_value_bounds digits 0 Hall ltac:(lia)) as Hb.
      assert (10 ^ Z.of_nat (String.length digits) <= 10 ^ 18) as Hpow
        by (apply Z.pow_le_mono_r; lia).
      change (10 ^ 18) with 1000000000000000000 in Hpow.
      unfold fits_int. change (2 ^ 63) with 9223372036854775808.
      split; [reflexivity |]. intros Hout. exfalso. apply Hout.
      destruct (Ascii.eqb c0 "-"); lia.
  - destruct s as [| c0 rest]; [eexists; reflexivity |].
    pose proof (ParseInt_numeral (String c0 rest) ltac:(discriminate)) as Hp.
    destruct (numeral (String c0 rest)) as [n |].
    + destruct Hp as [Hfit Hout]. split.
      * intros H. rewrite (Hfit H). reflexivity.
      * intros H. specialize (Hout H).
        destruct (ParseInt (String c0 rest)) as [i64 err]. cbn [snd] in *.
        rewrite Hout. reflexivity.
    + destruct Hp as [kind Hp].
      destruct (ParseInt (String c0 rest)) as [i64 err]. cbn [snd] in *.
      rewrite Hp. eexists. reflexivity.
Qed.

End Numerals.

Section Configuration.

Import strconv config.

(** *** Writing a number *)

Lemma byte_digit_char (d : Z) : 0 <= d <= 9 -> byte (digit_char d) = 48 + d.
Proof.
  intros Hd. unfold byte, digit_char.
  rewrite N_ascii_embedding by lia. lia.
Qed.

Lemma is_digit_digit_char (d : Z) : 0 <= d <= 9 -> is_digit (digit_char d) = true.
Proof. intros Hd. apply is_digit_iff. rewrite byte_digit_char by lia. lia. Qed.

Lemma formatBits_value (fuel : nat) (u : Z) (a : string) :
  0 <= u < 10 ^ Z.of_nat fuel ->
  digits_value (formatBits fuel u a) 0 = digits_value a u.
Proof.
  revert u a. induction fuel as [| fuel IH]; intros u a Hu.
  - cbn in Hu. assert (u = 0) as -> by lia. reflexivity.
  - rewrite Nat2Z.inj_succ, Z.pow_succ_r in Hu by lia.
    cbn [formatBits].
    pose proof (Z.mod_pos_bound u 10 ltac:(lia)) as Hm.
    pose proof (Z.div_mod u 10 ltac:(lia)) as Hdm.
    destruct (Z.ltb_spec u 10) as [Hlt | Hge].
    + cbn [digits_value]. rewrite byte_digit_char by lia.
      rewrite Z.mod_small by lia. f_equal. lia.
    + rewrite IH.
      * cbn [digits_value]. rewrite byte_digit_char by lia. f_equal. lia.
      * split; [apply Z.div_pos; lia | apply Z.div_lt_upper_bound; lia].
Qed.

Lemma formatBits_digits (fuel : nat) (u : Z) (a : string) :
  0 <= u -> all_digits a = true -> all_digits (formatBits fuel u a) = true.
Proof.
  revert u a. induction fuel as [| fuel IH]; intros u a Hu Ha; [exact Ha |].
  cbn [formatBits].
  pose proof (Z.mod_pos_bound u 10 ltac:(lia)) as Hm.
  assert (all_digits (String (digit_char (u mod 10)) a) = true) as Ha'.
  { cbn [all_digits]. rewrite is_digit_digit_char by lia. exact Ha. }
  destruct (Z.ltb u 10); [exact Ha' |].
  apply IH; [apply Z.div_pos; lia | exact Ha'].
Qed.

Lemma formatBits_not_empty (fuel : nat) (u : Z) (a : string) :
  a <> "" \/ fuel <> O -> formatBits fuel u a <> "".
Proof.
  revert u a. induction fuel as [| fuel IH]; intros u a Hne.
  - destruct Hne as [Hne | Hne]; [exact Hne | congruence].
  - cbn [formatBits]. destruct (Z.ltb u 10); [discriminate |].
    apply IH. left. discriminate.
Qed.

Lemma digit_is_no_sign (c : ascii) :
  is_digit c = true -> Ascii.eqb c "+" = false /\ Ascii.eqb c "-" = false.
Proof.
  intros Hd. apply is_digit_iff in Hd.
  split; apply Ascii.eqb_neq; intros ->.
  - change (byte "+") with 43 in Hd. lia.
  - change (byte "-") with 45 in Hd. lia.
Qed.

Lemma numeral_digits (s : string) :
  s <> "" -> all_digits s = true -> numeral s = Some (digits_value s 0).
Proof.
  destruct s as [| c0 rest]; [congruence |]. intros _ Hall.
  unfold numeral. pose proof Hall as Hall'.
  cbn [all_digits] in Hall'. apply andb_true_iff in Hall'. destruct Hall' as [Hd _].
  destruct (digit_is_no_sign c0 Hd) as [-> ->]. cbn [orb].
  rewrite Hall. reflexivity.
Qed.

Lemma numeral_Itoa (i : Z) : fits_int i -> numeral (Itoa i) = Some i.
Proof.
  unfold fits_int, Itoa, uint64.
  change (2 ^ 63) with 9223372036854775808.
  change (2 ^ 64) with 18446744073709551616. intros Hi.
  assert (18446744073709551616 < 10 ^ Z.of_nat 20) as Hpow by (vm_compute; reflexivity).
  destruct (Z.ltb_spec i 0) as [Hneg | Hpos].
  - rewrite Z.mod_small by lia.
    unfold numeral. cbn [Ascii.eqb Bool.eqb orb andb].
    change (Ascii.eqb "-" "+") with false. change (Ascii.eqb "-" "-") with true.
    cbn [orb].
    assert (formatBits 20 (- i) "" <> "") as Hne
      by (apply formatBits_not_empty; right; discriminate).
    destruct (formatBits 20 (- i) "") as [| d ds] eqn:Hf; [congruence |].
    rewrite <- Hf.
    rewrite formatBits_digits by (first [lia | reflexivity]).
    rewrite formatBits_value by lia. cbn [digits_value]. f_equal. lia.
  - rewrite Z.mod_small by lia.
    rewrite numeral_digits.
    + rewrite formatBits_value by lia. reflexivity.
    + apply formatBits_not_empty. right. discriminate.
    + apply formatBits_digits; [lia | reflexivity].
Qed.

Lemma Atoi_Itoa (i : Z) : fits_int i -> Atoi (Itoa i) = (i, None).
Proof.
  intros Hi. pose proof (Atoi_numeral (Itoa i)) as H.
  rewrite (numeral_Itoa i Hi) in H. exact (proj1 H Hi).
Qed.

(** What [Atoi] returns without an error is in the range of [int]. *)
Lemma Atoi_fits (s : string) (n : Z) : Atoi s = (n, None) -> fits_int n.
Proof.
  intros Ha. pose proof (Atoi_numeral s) as H.
  destruct (numeral s) as [m |].
  - destruct H as [Hfit Hout].
    destruct (Z_le_dec (- 2 ^ 63) m) as [Hlo | Hlo];
      [destruct (Z_lt_dec m (2 ^ 63)) as [Hhi | Hhi] |].
    + rewrite (Hfit (conj Hlo Hhi)) in Ha. injection Ha as <-. split; assumption.
    + rewrite Ha in Hout. cbn in Hout. discriminate Hout. intros [_ Habs]. contradiction.
    + rewrite Ha in Hout. cbn in Hout. discriminate Hout. intros [Habs _]. contradiction.
  - destruct H as [kind H]. rewrite Ha in H. discriminate H.
Qed.

(** *** Load *)

Lemma getEnv_godotenv (dotenv : option Environ) (env : Environ) (key defaultValue : string) :
  getEnv (snd (godotenv_Load dotenv env)) key defaultValue
  = setting dotenv env key defaultValue.
Proof.
  unfold getEnv, godotenv_Load, setting.
  destruct dotenv as [envMap |]; cbn [snd]; destruct (env key); reflexivity.
Qed.

Lemma Load_Atoi (dotenv : option Environ) (env : Environ) :
  fst (Load dotenv env)
  = match Atoi (setting dotenv env "SERVER_PORT" "8080") with
    | (_, Some err) => (None, Some err)
    | (serverPort, None) =>
      (Some (mkConfig serverPort
               (setting dotenv env "ENVIRONMENT" "development")
               (setting dotenv env "JWT_SECRET" "your-secret-key")
               (setting dotenv env "DB_PATH" "wisetech_lms.db")), None)
    end.
Proof.
  unfold Load. rewrite <- !getEnv_godotenv.
  destruct (godotenv_Load dotenv env) as [err env']. cbn [snd].
  destruct (Atoi (getEnv env' "SERVER_PORT" "8080")) as [n [e |]]; reflexivity.
Qed.

(** X19.  Load takes each setting from the process environment when the
    variable is set there (even to the empty text), else from the file
    .env, else from the default built into the program.  It fails for the
    port only: when the text of SERVER_PORT is an optionally signed decimal
    numeral within the range of int, Load returns the configuration with
    that number as the port; otherwise it returns the error of Atoi, a
    range error when the text is a numeral.  When SERVER_PORT is set
    nowhere the port is 8080 and Load does not fail: a missing JWT_SECRET
    is no error, the secret is then the text built into the program. *)
Theorem Load_reads_the_settings (dotenv : option Environ) (env : Environ) :
  let port := setting dotenv env "SERVER_PORT" "8080" in
  let r := fst (Load dotenv env) in
  (forall n, numeral port = Some n -> fits_int n ->
     r = (Some (mkConfig n
                  (setting dotenv env "ENVIRONMENT" "development")
                  (setting dotenv env "JWT_SECRET" "your-secret-key")
                  (setting dotenv env "DB_PATH" "wisetech_lms.db")), None)) /\
  (forall n, numeral port = Some n -> ~ fits_int n ->
     r = (None, Some (mkNumError "Atoi" port ErrRange))) /\
  (numeral port = None ->
     exists kind, r = (None, Some (mkNumError "Atoi" port kind))) /\
  (env "SERVER_PORT" = None ->
   (forall envMap, dotenv = Some envMap -> envMap "SERVER_PORT" = None) ->
     exists cfg, r = (Some cfg, None) /\ ServerPort cfg = 8080) /\
  (env "JWT_SECRET" = None ->
   (forall envMap, dotenv = Some envMap -> envMap "JWT_SECRET" = None) ->
   forall cfg, r = (Some cfg, None) -> JWTSecret cfg = "your-secret-key") /\
  (forall cfg, r = (Some cfg, None) -> env "JWT_SECRET" = Some "" -> JWTSecret cfg = "").
Proof.
  cbv zeta. rewrite Load_Atoi.
  pose proof (Atoi_numeral (setting dotenv env "SERVER_PORT" "8080")) as Hatoi.
  split; [| split; [| split; [| split; [| split]]]].
  - intros n Hn Hfit. rewrite Hn in Hatoi. rewrite (proj1 Hatoi Hfit). reflexivity.
  - intros n Hn Hout. rewrite Hn in Hatoi. pose proof (proj2 Hatoi Hout) as H.
    destruct (Atoi (setting dotenv env "SERVER_PORT" "8080")) as [i err].
    cbn [snd] in H. rewrite H. reflexivity.
  - intros Hn. rewrite Hn in Hatoi. destruct Hatoi as [kind H].
    destruct (Atoi (setting dotenv env "SERVER_PORT" "8080")) as [i err].
    cbn [snd] in H. rewrite H. eexists. reflexivity.
  - intros Henv Hfile.
    assert (setting dotenv env "SERVER_PORT" "8080" = "8080") as ->.
    { unfold setting. rewrite Henv. destruct dotenv as [envMap |]; [| reflexivity].
      rewrite (Hfile envMap eq_refl). reflexivity. }
    eexists. split; reflexivity.
  - intros Henv Hfile cfg.
    assert (setting dotenv env "JWT_SECRET" "your-secret-key" = "your-secret-key") as ->.
    { unfold setting. rewrite Henv. destruct dotenv as [envMap |]; [| reflexivity].
      rewrite (Hfile envMap eq_refl). reflexivity. }
    destruct (Atoi (setting dotenv env "SERVER_PORT" "8080")) as [i [e |]];
      [discriminate |].
    intros H. injection H as <-. reflexivity.
  - intros cfg Hr Henv.
    assert (setting dotenv env "JWT_SECRET" "your-secret-key" = "") as Hs
      by (unfold setting; rewrite Henv; reflexivity).
    rewrite Hs in Hr.
    destruct (Atoi (setting dotenv env "SERVER_PORT" "8080")) as [i [e |]];
      [discriminate |].
    injection Hr as <-. reflexivity.
Qed.

(** The three tests of the package: no variable set; the four variables
    set in the process; a file .env that sets the port and the
    environment's name. *)
Example Load_contract_tests :
  let unset : Environ := fun _ => None in
  let process : Environ := fun key =>
    if String.eqb key "SERVER_PORT" then Some "9090"
    else if String.eqb key "ENVIRONMENT" then Some "production"
    else if String.eqb key "JWT_SECRET" then Some "a-different-secret"
    else if String.eqb key "DB_PATH" then Some "/tmp/test.db"
    else None in
  let file : Environ := fun key =>
    if String.eqb key "SERVER_PORT" then Some "7070"
    else if String.eqb key "ENVIRONMENT" then Some "staging"
    else None in
  fst (Load None unset)
    = (Some (mkConfig 8080 "development" "your-secret-key" "wisetech_lms.db"), None) /\
  snd (snd (Load None unset)) = ["No .env file found, using environment variables"] /\
  fst (Load None process)
    = (Some (mkConfig 9090 "production" "a-different-secret" "/tmp/test.db"), None) /\
  fst (Load (Some file) unset)
    = (Some (mkConfig 7070 "staging" "your-secret-key" "wisetech_lms.db"), None) /\
  fst (Load (Some file) process)
    = (Some (mkConfig 9090 "production" "a-different-secret" "/tmp/test.db"), None) /\
  fst (Load None (only "SERVER_PORT" "http"))
    = (None, Some (mkNumError "Atoi" "http" ErrSyntax)) /\
  fst (Load None (only "SERVER_PORT" ""))
    = (None, Some (mkNumError "Atoi" "" ErrSyntax)).
Proof. vm_compute. repeat split. Qed.

(** X20.  Itoa and Atoi are inverse on int: a port that was written with
    Itoa into SERVER_PORT is the port of the configuration that Load
    returns, and Start listens on the colon followed by the same text.
    The port is not checked to be a TCP port: every int is accepted; and
    whatever text Load accepted, the address is the colon and the plain
    numeral of its number. *)
Theorem listen_address_round_trip (dotenv : option Environ) (env : Environ) (n : Z) :
  fits_int n ->
  Atoi (Itoa n) = (n, None) /\
  (setting dotenv env "SERVER_PORT" "8080" = Itoa n ->
   exists cfg, fst (Load dotenv env) = (Some cfg, None) /\
               ServerPort cfg = n /\ server.Addr cfg = ":" ++ Itoa n) /\
  (forall cfg, fst (Load dotenv env) = (Some cfg, None) ->
     fits_int (ServerPort cfg) /\
     numeral (setting dotenv env "SERVER_PORT" "8080") = Some (ServerPort cfg) /\
     Atoi (Itoa (ServerPort cfg)) = (ServerPort cfg, None)).
Proof.
  intros Hn. split; [exact (Atoi_Itoa n Hn) |]. rewrite Load_Atoi. split.
  - intros ->. rewrite (Atoi_Itoa n Hn). eexists. repeat split.
  - intros cfg.
    pose proof (Atoi_numeral (setting dotenv env "SERVER_PORT" "8080")) as Hnum.
    destruct (Atoi (setting dotenv env "SERVER_PORT" "8080")) as [i [e |]] eqn:Ha;
      [discriminate |].
    intros H. injection H as <-. cbn [ServerPort].
    pose proof (Atoi_fits _ _ Ha) as Hfit.
    split; [exact Hfit |]. split; [| exact (Atoi_Itoa i Hfit)].
    destruct (numeral (setting dotenv env "SERVER_PORT" "8080")) as [m |].
    + destruct Hnum as [Hin Hout].
      destruct (Z_le_dec (- 2 ^ 63) m) as [Hlo | Hlo];
        [destruct (Z_lt_dec m (2 ^ 63)) as [Hhi | Hhi] |].
      * specialize (Hin (conj Hlo Hhi)). congruence.
      * cbn in Hout. discriminate Hout. intros [_ Habs]. contradiction.
      * cbn in Hout. discriminate Hout. intros [Habs _]. contradiction.
    + destruct Hnum as [kind Hnum]. discriminate Hnum.
Qed.

(** SERVER_PORT=9090: the server listens on ":9090". *)
Lemma listen_address_round_trip_witness :
  exists cfg, fst (Load None (only "SERVER_PORT" "9090")) = (Some cfg, None) /\
              ServerPort cfg = 9090 /\ server.Addr cfg = ":9090".
Proof.
  refine (proj1 (proj2 (listen_address_round_trip None (only "SERVER_PORT" "9090") 9090 _))
            eq_refl).
  unfold fits_int. lia.
Defined.

End Configuration.

(** *** Loading twice *)

Section LoadingTwice.

Import strconv config.

Lemma setting_after_Load (dotenv dotenv' : option Environ) (env : Environ)
    (key defaultValue : string) :
  dotenv' = dotenv \/ dotenv' = None ->
  setting dotenv' (snd (godotenv_Load dotenv env)) key defaultValue
  = setting dotenv env key defaultValue.
Proof.
  unfold setting, godotenv_Load.
  intros [-> | ->]; destruct dotenv as [envMap |]; cbn [snd];
    destruct (env key); try reflexivity; destruct (envMap key); reflexivity.
Qed.

(** X21.  Load leaves the variables of the file .env in the process
    environment: a second Load returns what the first returned, also when
    the file is gone by then; and what was set in the process before is
    left as it was. *)
Theorem Load_again (dotenv : option Environ) (env : Environ) :
  let env' := fst (snd (Load dotenv env)) in
  fst (Load dotenv env') = fst (Load dotenv env) /\
  fst (Load None env') = fst (Load dotenv env) /\
  (forall key value, env key = Some value -> env' key = Some value) /\
  (forall key, env key = None ->
     env' key = match dotenv with Some envMap => envMap key | None => None end).
Proof.
  cbv zeta.
  assert (fst (snd (Load dotenv env)) = snd (godotenv_Load dotenv env)) as ->.
  { unfold Load. destruct (godotenv_Load dotenv env) as [err env1]. cbn [snd].
    destruct (Atoi (getEnv env1 "SERVER_PORT" "8080")) as [n [e |]]; reflexivity. }
  rewrite !Load_Atoi.
  rewrite !(setting_after_Load dotenv dotenv env) by (left; reflexivity).
  rewrite !(setting_after_Load dotenv None env) by (right; reflexivity).
  split; [reflexivity |]. split; [reflexivity |].
  unfold godotenv_Load. split.
  - intros key value Hk. destruct dotenv as [envMap |]; cbn [snd]; rewrite ?Hk; reflexivity.
  - intros key Hk. destruct dotenv as [envMap |]; cbn [snd]; rewrite ?Hk; reflexivity.
Qed.

End LoadingTwice.
